(** * HadoukenIO core: channel registry, request dispatch and outbound buffering

    A shallow embedding of
    - [src/browser/api/channel.ts]  (module [Channel], the channel registry and
      the ack correlation table), and
    - [src/browser/api_protocol/transport_strategy/elipc_strategy.ts]
      (module [Elipc], the dispatch handler, the deferred acknowledgement of
      transactions and the buffered message handler), and
    - [src/browser/api_protocol/api_handlers/event_listener.js]
      (module [EventListener], the listener of desktop events and the
      providers' subscriptions),
    with the properties of the design document stated and settled on them,
    and further properties of the code. *)

From stdpp Require Import gmap strings list pretty.
From Stdlib Require Import ZArith.

Local Open Scope string_scope.
Local Open Scope list_scope.
Set Warnings "-register-all".

(** ** JavaScript values *)

(** The values that travel as [any] payloads. Numbers are the integers the
    protocol uses (message ids, counters). *)
Inductive JsVal :=
| JUndefined
| JNull
| JBool (b : bool)
| JNum (z : Z)
| JStr (s : string)
| JObj (fields : list (string * JsVal)).

(** [if (v)], [v ? a : b], [!v], [v || d] *)
Definition truthy (v : JsVal) : bool :=
  match v with
  | JUndefined | JNull => false
  | JBool b => b
  | JNum z => negb (z =? 0)%Z
  | JStr s => negb (String.eqb s "")
  | JObj _ => true
  end.

(** Truthiness of an optional string field ([undefined] when absent). *)
Definition truthyStr (s : option string) : bool :=
  match s with
  | Some s => negb (String.eqb s "")
  | None => false
  end.

(** [`${s}`] for an optional string field. *)
Definition tpl (s : option string) : string := default "undefined" s.

(** [Identity] of [shapes.ts]: [{ uuid: string; name?: string }]. *)
Record Identity := mkIdentity { uuid : string; name : option string }.

Global Instance Identity_eq_dec : EqDecision Identity.
Proof. solve_decision. Defined.

(** ** JS [Map] and string-keyed objects, in insertion order *)

Fixpoint map_get {V} (k : string) (m : list (string * V)) : option V :=
  match m with
  | [] => None
  | (k', v) :: m => if decide (k' = k) then Some v else map_get k m
  end.

(** [Map.prototype.set]: an existing key keeps its place. *)
Fixpoint map_set {V} (k : string) (v : V) (m : list (string * V)) : list (string * V) :=
  match m with
  | [] => [(k, v)]
  | (k', v') :: m => if decide (k' = k) then (k, v) :: m else (k', v') :: map_set k v m
  end.

Definition map_delete {V} (k : string) (m : list (string * V)) : list (string * V) :=
  filter (λ kv, kv.1 ≠ k) m.

(** ** State, trace and exceptions

    A call runs on the module state [S], records what it does to the outside
    as a list of effects [E], and returns or throws. *)
Section Prog.
Context {S E : Type}.

Inductive Res (A : Type) :=
| Ok (a : A) (s : S) (tr : list E)
| Throw (msg : string) (s : S) (tr : list E).
Global Arguments Ok {A}.
Global Arguments Throw {A}.

Definition Prog (A : Type) := S → Res A.

Definition ret {A} (a : A) : Prog A := λ s, Ok a s [].

Definition bind {A B} (m : Prog A) (k : A → Prog B) : Prog B := λ s,
  match m s with
  | Ok a s1 tr1 =>
      match k a s1 with
      | Ok b s2 tr2 => Ok b s2 (tr1 ++ tr2)
      | Throw e s2 tr2 => Throw e s2 (tr1 ++ tr2)
      end
  | Throw e s1 tr1 => Throw e s1 tr1
  end.

Definition get : Prog S := λ s, Ok s s [].
Definition modify (f : S → S) : Prog unit := λ s, Ok tt (f s) [].
Definition effect (e : E) : Prog unit := λ s, Ok tt s [e].
Definition throw {A} (msg : string) : Prog A := λ s, Throw msg s [].

(** [array.forEach(f)] *)
Definition forEach {A} (f : A → Prog unit) : list A → Prog unit :=
  fix go l :=
    match l with
    | [] => ret tt
    | x :: l => bind (f x) (λ _, go l)
    end.

(** The state and the trace a call leaves, returned or thrown. *)
Definition outcome {A} (r : Res A) : S * list E :=
  match r with
  | Ok _ s tr => (s, tr)
  | Throw _ s tr => (s, tr)
  end.
End Prog.
Global Arguments Res : clear implicits.
Global Arguments Prog : clear implicits.

Notation "'do' x <- m ;; k" := (bind m (λ x, k))
  (at level 10, x name, m at level 99, k at level 200).
Notation "'run' m ;; k" := (bind m (λ _, k))
  (at level 10, m at level 99, k at level 200).

(** ** What every run of a call keeps and does

    [sat I Q m]: started in a state where [I] holds, the call [m] ends,
    returned or thrown, in a state where [I] holds, and every effect it
    records satisfies [Q]. *)
Section Sat.
Context {S E : Type}.

Definition sat {A} (I : S → Prop) (Q : E → Prop) (m : Prog S E A) : Prop :=
  ∀ s, I s → I (outcome (m s)).1 ∧ Forall Q (outcome (m s)).2.
End Sat.

(** ** The channel registry *)
Module Channel.

(** What [getExternalOrOfWindowIdentity] of [core_state] resolves an identity
    to; the fields this module reads. *)
Record ProviderApp := mkProviderApp {
  app_uuid : string;
  app_name : option string;
  app_isExternal : bool
}.

(** [{ ...providerApp, channelName, channelId }] *)
Record ProviderIdentity := mkProviderIdentity {
  p_uuid : string;
  p_name : option string;
  isExternal : bool;
  channelName : option string;
  channelId : string
}.

Global Instance ProviderIdentity_eq_dec : EqDecision ProviderIdentity.
Proof. solve_decision. Defined.

(** The callbacks of a request are opaque closures of the transport; they are
    named, and their invocations are recorded. *)
Inductive AckFunc := AckRef (n : nat).
Inductive NackFunc := NackRef (n : nat).

Record RemoteAck := mkRemoteAck { ack : AckFunc; nack : NackFunc }.

(** Modelled from the spec: the [route] module ([common/route]) is not among
    the sources. Event names are namespaced strings composed from a category,
    an optional uuid and an optional window name; names of different
    categories, or of different arguments, are different. The routes on which
    this module arms a watch all have the topic ['closed']. *)
Inductive ClosedRoute :=
| route_window_closed (uuid : string) (name : option string)
| route_externalApplication_closed (uuid : string)
| route_application_closed (uuid : string).

Global Instance ClosedRoute_eq_dec : EqDecision ClosedRoute.
Proof. solve_decision. Defined.

(** [route.channel(type)] *)
Inductive ChannelRoute := route_channel (type : string).

(** The two closures [createChannelTeardown] hands to [ofEvents.once]. *)
Inductive Watch :=
| ClosedWatch (providerIdentity : ProviderIdentity)
| ApplicationClosedWatch (channelId : string).

Record AckToSender (P : Type) := mkAckToSender {
  ats_action : string;
  correlationId : Z;
  destinationToken : Identity;
  ats_payload : P;
  success : bool
}.
Arguments mkAckToSender {P}.
Arguments ats_action {P}.
Arguments correlationId {P}.
Arguments destinationToken {P}.
Arguments ats_payload {P}.
Arguments success {P}.

(** The messages handed to [sendToIdentity]. *)
Inductive Message :=
| ConnectionMessage (action : string)
    (ackToSender : AckToSender ProviderIdentity)
    (providerIdentity : ProviderIdentity)
    (clientIdentity : Identity) (payload : JsVal)
| AppMessage (action : string)
    (ackToSender : AckToSender JsVal)
    (providerIdentity : JsVal) (channelAction : JsVal)
    (senderIdentity : Identity) (payload : JsVal).

(** The argument of a [nack]: a string, or [new Error(message)]. *)
Inductive NackArg :=
| NackString (s : string)
| NackError (message : string).

(** What the module does to the outside. *)
Inductive Effect :=
| Emit (route : ChannelRoute) (payload : ProviderIdentity)
| SendToIdentity (target : Identity) (message : Message)
| CallAck (f : AckFunc) (payload : JsVal)
| CallNack (f : NackFunc) (err : NackArg).

(** The module-level state: [channelMap] is a JS [Map], iterated in insertion
    order; [remoteAckMap] is only looked up by key; [watches] are the one-shot
    listeners this module has armed on [ofEvents]. *)
Record State := mkState {
  channelMap : list (string * ProviderIdentity);
  remoteAckMap : gmap string RemoteAck;
  watches : list (ClosedRoute * Watch)
}.

Definition initial : State := mkState [] ∅ [].

Abbreviation M := (Prog State Effect).

Definition channelMap_set (k : string) (v : ProviderIdentity) : M unit :=
  modify (λ s, mkState (map_set k v s.(channelMap)) s.(remoteAckMap) s.(watches)).
Definition channelMap_delete (k : string) : M unit :=
  modify (λ s, mkState (map_delete k s.(channelMap)) s.(remoteAckMap) s.(watches)).
Definition remoteAckMap_set (k : string) (v : RemoteAck) : M unit :=
  modify (λ s, mkState s.(channelMap) (<[k:=v]> s.(remoteAckMap)) s.(watches)).
Definition remoteAckMap_delete (k : string) : M unit :=
  modify (λ s, mkState s.(channelMap) (delete k s.(remoteAckMap)) s.(watches)).

(** *** The notification bus

    Modelled from the spec: [ofEvents] is not among the sources.
    [once(eventName, handler)] arms a one-shot watch; [emit(eventName, payload)]
    disarms the watches armed on that name and runs them in the order they were
    armed. Listeners of other modules only observe the emission. *)

Definition ofEvents_once (r : ClosedRoute) (w : Watch) : M unit :=
  modify (λ s, mkState s.(channelMap) s.(remoteAckMap) (s.(watches) ++ [(r, w)])).

Definition ofEvents_emit (r : ChannelRoute) (payload : ProviderIdentity) : M unit :=
  effect (Emit r payload).

(** *** channel.ts *)

Definition CHANNEL_APP_ACTION := "process-channel-message".
Definition CHANNEL_ACK_ACTION := "send-channel-result".
Definition CHANNEL_CONNECT_ACTION := "process-channel-connection".

Definition getAckKey (id : Z) (identity : Identity) : string :=
  pretty id +:+ "-" +:+ identity.(uuid) +:+ "-" +:+ tpl identity.(name).

Definition getChannelId (uuid : string) (name channelName : option string) : string :=
  uuid +:+ "/" +:+ tpl name +:+ "/" +:+ tpl channelName.

Definition createAckToSender {P} (identity : Identity) (messageId : Z) (providerIdentity : P)
  : AckToSender P :=
  {| ats_action := CHANNEL_ACK_ACTION;
     correlationId := messageId;
     destinationToken := identity;
     ats_payload := providerIdentity;
     success := true |}.

(** The body of a watch, run when its event fires. *)
Definition runWatch (w : Watch) : M unit :=
  match w with
  | ClosedWatch providerIdentity =>
      run channelMap_delete providerIdentity.(channelId) ;;
      ofEvents_emit (route_channel "channel-disconnected") providerIdentity
  | ApplicationClosedWatch channelId =>
      channelMap_delete channelId
  end.

(** [ofEvents.emit(r)] for a ['closed'] route, as the window and application
    modules do when an entity closes. *)
Definition ofEvents_emit_closed (r : ClosedRoute) : M unit :=
  do s <- get ;;
  let fired := filter (λ rw, rw.1 = r) s.(watches) in
  run modify (λ s, mkState s.(channelMap) s.(remoteAckMap)
                     (filter (λ rw, rw.1 ≠ r) s.(watches))) ;;
  forEach (λ rw, runWatch rw.2) fired.

Definition closedEvent (providerIdentity : ProviderIdentity) : ClosedRoute :=
  if providerIdentity.(isExternal)
  then route_externalApplication_closed providerIdentity.(p_uuid)
  else route_window_closed providerIdentity.(p_uuid) providerIdentity.(p_name).

Definition createChannelTeardown (providerIdentity : ProviderIdentity) : M unit :=
  run ofEvents_once (closedEvent providerIdentity) (ClosedWatch providerIdentity) ;;
  ofEvents_once (route_application_closed providerIdentity.(p_uuid))
                (ApplicationClosedWatch providerIdentity.(channelId)).

Definition getChannelByChannelId (channelId : string) (s : State) : option ProviderIdentity :=
  map_get channelId s.(channelMap).

Definition getAllChannels (s : State) : list ProviderIdentity :=
  s.(channelMap).*2.

Definition getChannelByIdentity (identity : Identity) (s : State) : list ProviderIdentity :=
  filter (λ channel,
            channel.(p_uuid) = identity.(uuid) ∧
            (truthyStr identity.(name) = false ∨ channel.(p_name) = identity.(name)))
         s.(channelMap).*2.

(** The [forEach] has no early exit: every match overwrites the result. *)
Definition getChannelByChannelName (channelName : string) (s : State) : option ProviderIdentity :=
  fold_left (λ providerIdentity channel,
               if decide (channel.(Channel.channelName) = Some channelName)
               then Some channel else providerIdentity)
            s.(channelMap).*2 None.

Definition nackString : string :=
  "Register Failed: Please note that only one channel may be registered per identity per channelName.".

Definition createChannel (getExternalOrOfWindowIdentity : Identity → option ProviderApp)
    (identity : Identity) (channelName : option string) : M ProviderIdentity :=
  let providerApp := getExternalOrOfWindowIdentity identity in
  let channelId := getChannelId identity.(uuid) identity.(name) channelName in
  do s <- get ;;
  match providerApp, getChannelByChannelId channelId s with
  | Some providerApp, None =>
      let providerIdentity :=
        {| p_uuid := providerApp.(app_uuid);
           p_name := providerApp.(app_name);
           isExternal := providerApp.(app_isExternal);
           channelName := channelName;
           channelId := channelId |} in
      run channelMap_set channelId providerIdentity ;;
      run createChannelTeardown providerIdentity ;;
      run ofEvents_emit (route_channel "channel-connected") providerIdentity ;;
      ret providerIdentity
  | _, _ => throw nackString
  end.

Record ConnectPayload := mkConnectPayload {
  cp_wait : JsVal;
  cp_uuid : option string;
  cp_name : option string;
  cp_channelName : option string;
  cp_payload : JsVal
}.

Definition disambiguation (uuid : string) (name : option string) : string :=
  let nackId := if truthyStr name then uuid +:+ "/" +:+ tpl name else uuid in
  "More than one channel found for provider with identity: " +:+ nackId +:+
  ", please include a channelName".

Definition interimNackMessage : string := "internal-nack".

Definition identityOf (providerIdentity : ProviderIdentity) : Identity :=
  {| uuid := providerIdentity.(p_uuid); name := providerIdentity.(p_name) |}.

Definition connectToChannel (identity : Identity) (payload : ConnectPayload) (messageId : Z)
    (ack : AckFunc) (nack : NackFunc) : M (option ProviderIdentity) :=
  do s <- get ;;
  let providerIdentity :=
    if truthyStr payload.(cp_channelName)
    then getChannelByChannelName (default "" payload.(cp_channelName)) s
    else None in
  (* No channel found by channel name, use identity *)
  do providerIdentity <-
    ((if bool_decide (providerIdentity = None) && truthyStr payload.(cp_uuid)
     then
       let providerIdentityArray :=
         getChannelByIdentity
           {| uuid := default "" payload.(cp_uuid); name := payload.(cp_name) |} s in
       if bool_decide (1 < length providerIdentityArray)%nat
       then
         run effect (CallNack nack
               (NackString (disambiguation (default "" payload.(cp_uuid)) payload.(cp_name)))) ;;
         ret providerIdentity
       else ret (head providerIdentityArray)
     else ret providerIdentity) : M (option ProviderIdentity)) ;;
  match providerIdentity with
  | Some providerIdentity =>
      let ackKey := getAckKey messageId identity in
      run remoteAckMap_set ackKey {| ack := ack; nack := nack |} ;;
      let ackToSender := createAckToSender identity messageId providerIdentity in
      (* Forward the API call to the channel provider. *)
      run effect (SendToIdentity (identityOf providerIdentity)
            (ConnectionMessage CHANNEL_CONNECT_ACTION ackToSender providerIdentity
                               identity payload.(cp_payload))) ;;
      ret (Some providerIdentity)
  | None =>
      run effect (CallNack nack (NackString interimNackMessage)) ;;
      ret None
  end.

Record MessagePayload := mkMessagePayload {
  mp_uuid : string;
  mp_name : option string;
  mp_payload : JsVal;
  mp_action : JsVal;
  mp_providerIdentity : JsVal
}.

Definition sendChannelMessage (identity : Identity) (payload : MessagePayload) (messageId : Z)
    (ack : AckFunc) (nack : NackFunc) : M unit :=
  let ackKey := getAckKey messageId identity in
  let targetIdentity := {| uuid := payload.(mp_uuid); name := payload.(mp_name) |} in
  run remoteAckMap_set ackKey {| ack := ack; nack := nack |} ;;
  let ackToSender := createAckToSender identity messageId payload.(mp_providerIdentity) in
  effect (SendToIdentity targetIdentity
            (AppMessage CHANNEL_APP_ACTION ackToSender payload.(mp_providerIdentity)
                        payload.(mp_action) identity payload.(mp_payload))).

Record ResultPayload := mkResultPayload {
  rp_reason : option string;
  rp_success : bool;
  rp_destinationToken : Identity;
  rp_correlationId : Z;
  rp_payload : JsVal
}.

(** [{ success: true, ...(ackPayload ? { data: ackPayload } : {}) }] *)
Definition successAck (ackPayload : JsVal) : JsVal :=
  JObj (("success", JBool true) ::
        (if truthy ackPayload then [("data", ackPayload)] else [])).

Definition notFound : string := "Ack failed, initial channel message not found.".

Definition sendChannelResult (identity : Identity) (payload : ResultPayload)
    (ack : AckFunc) (nack : NackFunc) : M unit :=
  let ackKey := getAckKey payload.(rp_correlationId) payload.(rp_destinationToken) in
  do s <- get ;;
  match s.(remoteAckMap) !! ackKey with
  | Some remoteAck =>
      run (if payload.(rp_success)
           then effect (CallAck remoteAck.(Channel.ack) (successAck payload.(rp_payload)))
           else effect (CallNack remoteAck.(Channel.nack)
                  (NackError (if truthyStr payload.(rp_reason)
                              then tpl payload.(rp_reason)
                              else "Channel provider error")))) ;;
      remoteAckMap_delete ackKey
  | None =>
      effect (CallNack nack (NackString notFound))
  end.

(** *** Sequences of calls

    The calls the registry receives over time: its own operations, and the
    ['closed'] notifications of the entities. A [createChannel] that throws
    leaves the state as it is. *)
Inductive Op :=
| OpCreateChannel (getExternalOrOfWindowIdentity : Identity → option ProviderApp)
    (identity : Identity) (channelName : option string)
| OpConnectToChannel (identity : Identity) (payload : ConnectPayload) (messageId : Z)
    (ack : AckFunc) (nack : NackFunc)
| OpSendChannelMessage (identity : Identity) (payload : MessagePayload) (messageId : Z)
    (ack : AckFunc) (nack : NackFunc)
| OpSendChannelResult (identity : Identity) (payload : ResultPayload)
    (ack : AckFunc) (nack : NackFunc)
| OpClosed (r : ClosedRoute).

Definition step (op : Op) (s : State) : State * list Effect :=
  match op with
  | OpCreateChannel resolve identity channelName =>
      outcome (createChannel resolve identity channelName s)
  | OpConnectToChannel identity payload messageId ack nack =>
      outcome (connectToChannel identity payload messageId ack nack s)
  | OpSendChannelMessage identity payload messageId ack nack =>
      outcome (sendChannelMessage identity payload messageId ack nack s)
  | OpSendChannelResult identity payload ack nack =>
      outcome (sendChannelResult identity payload ack nack s)
  | OpClosed r =>
      outcome (ofEvents_emit_closed r s)
  end.

Fixpoint steps (ops : list Op) (s : State) : State * list Effect :=
  match ops with
  | [] => (s, [])
  | op :: ops =>
      let '(s1, tr1) := step op s in
      let '(s2, tr2) := steps ops s1 in
      (s2, tr1 ++ tr2)
  end.

(** *** Vocabulary of the properties *)

(** The channel a watch removes, and what it emits. *)
Definition watch_target (w : Watch) : string :=
  match w with
  | ClosedWatch providerIdentity => providerIdentity.(channelId)
  | ApplicationClosedWatch channelId => channelId
  end.

Definition watch_emits (w : Watch) : list Effect :=
  match w with
  | ClosedWatch providerIdentity =>
      [Emit (route_channel "channel-disconnected") providerIdentity]
  | ApplicationClosedWatch _ => []
  end.

(** A teardown of [channelId]: a ['closed'] notification on which a watch
    for that channel is armed. *)
Definition teardown_of (channelId : string) (op : Op) (s : State) : Prop :=
  match op with
  | OpClosed r => ∃ w, (r, w) ∈ s.(watches) ∧ watch_target w = channelId
  | _ => False
  end.

(** The calls [ops], made from [s], come before any teardown of
    [channelId]. *)
Fixpoint before_teardown (channelId : string) (ops : list Op) (s : State) : Prop :=
  match ops with
  | [] => True
  | op :: ops => ¬ teardown_of channelId op s ∧ before_teardown channelId ops (step op s).1
  end.



(** The registry as a sequence of calls leaves it: channelIds are unique,
    every provider is stored under its own channelId, and both of its
    teardown watches are armed. *)
Definition registry_wf (s : State) : Prop :=
  NoDup s.(channelMap).*1 ∧
  ∀ k providerIdentity,
    (k, providerIdentity) ∈ s.(channelMap) →
    providerIdentity.(channelId) = k ∧
    (closedEvent providerIdentity, ClosedWatch providerIdentity) ∈ s.(watches) ∧
    (route_application_closed providerIdentity.(p_uuid), ApplicationClosedWatch k)
      ∈ s.(watches).

(** The calls of [ack] and [nack] callbacks in a trace. *)
Definition callbacks (tr : list Effect) : list Effect :=
  omap (λ ef, match ef with
              | CallAck _ _ | CallNack _ _ => Some ef
              | _ => None
              end) tr.

(** [op] is a [sendChannelResult] addressed to the entry under [key]. *)
Definition resolves (key : string) (op : Op) : Prop :=
  match op with
  | OpSendChannelResult _ payload _ _ =>
      getAckKey payload.(rp_correlationId) payload.(rp_destinationToken) = key
  | _ => False
  end.

(** [op] is a [connectToChannel] or a [sendChannelMessage] whose entry goes
    under [key]. *)
Definition requests (key : string) (op : Op) : Prop :=
  match op with
  | OpConnectToChannel identity _ messageId _ _
  | OpSendChannelMessage identity _ messageId _ _ => getAckKey messageId identity = key
  | _ => False
  end.

(** *** Concrete registries and calls *)

Definition resolveWindow (identity : Identity) : option ProviderApp :=
  Some (mkProviderApp identity.(uuid) identity.(name) false).
Definition app1 : Identity := mkIdentity "app1" None.
Definition win2 : Identity := mkIdentity "app2" (Some "win2").
Definition win3 : Identity := mkIdentity "app3" (Some "win3").
Definition svc2 : ProviderIdentity :=
  mkProviderIdentity "app2" (Some "win2") false (Some "svc") "app2/win2/svc".
Definition svc3 : ProviderIdentity :=
  mkProviderIdentity "app3" (Some "win3") false (Some "svc") "app3/win3/svc".
Definition unnamed2 : ProviderIdentity :=
  mkProviderIdentity "app2" (Some "win2") false (Some "") "app2/win2/".

Definition oneSvc : State :=
  (steps [OpCreateChannel resolveWindow win2 (Some "svc")] initial).1.
Definition twoSvc : State :=
  (steps [OpCreateChannel resolveWindow win2 (Some "svc");
          OpCreateChannel resolveWindow win3 (Some "svc")] initial).1.
Definition twoOfWin2 : State :=
  (steps [OpCreateChannel resolveWindow win2 (Some "svc");
          OpCreateChannel resolveWindow win2 (Some "other")] initial).1.
Definition oneUnnamed : State :=
  (steps [OpCreateChannel resolveWindow win2 (Some "")] initial).1.
Definition reRegistered : State :=
  (steps [OpCreateChannel resolveWindow win2 (Some "svc");
          OpClosed (route_application_closed "app2");
          OpCreateChannel resolveWindow win2 (Some "svc")] initial).1.
Definition pendingConnect : State :=
  mkState [] {[ getAckKey 7 app1 := mkRemoteAck (AckRef 0) (NackRef 0) ]} [].

Definition connectSvc : ConnectPayload :=
  mkConnectPayload JUndefined None None (Some "svc") (JObj [("hello", JNum 1)]).
Definition connectUnnamed : ConnectPayload :=
  mkConnectPayload JUndefined None None (Some "") JNull.
Definition connectWin2 : ConnectPayload :=
  mkConnectPayload JUndefined (Some "app2") (Some "win2") None JNull.
Definition zeroResult : ResultPayload := mkResultPayload None true app1 7 (JNum 0).
Definition readyResult : ResultPayload :=
  mkResultPayload None true app1 7 (JObj [("ready", JBool true)]).

End Channel.

(** ** The in-runtime transport strategy *)
Module Elipc.

(** A breadcrumb; its [time: Date.now()] is a wall-clock reading and is left
    out. *)
Record Breadcrumb := mkBreadcrumb {
  bc_action : string;
  bc_messageId : Z;
  bc_name : string
}.

(** An inbound message, after [JSON.parse(JSON.stringify(rawData))]:
    [messages] is [data.payload.messages], [breadcrumbs] is absent or an
    array. *)
Inductive Data := mkData {
  action : string;
  messageId : Z;
  isSync : bool;
  singleFrameOnly : bool;
  breadcrumbs : option (list Breadcrumb);
  messages : list Data;
  payload : JsVal
}.

Definition set_breadcrumbs (bs : option (list Breadcrumb)) (data : Data) : Data :=
  mkData data.(action) data.(messageId) data.(isSync) data.(singleFrameOnly)
         bs data.(messages) data.(payload).

Record BrowserWindow := mkBrowserWindow { id : Z; isDestroyed : bool }.

(** What the calls read from the IPC event [e] and, through it, from
    [coreState], at the time of the call. *)
Record IpcEvent := mkIpcEvent {
  frameRoutingId : Z;
  senderDestroyed : bool;            (* e.sender.isDestroyed() *)
  ownerBrowserWindow : BrowserWindow; (* e.sender.getOwnerBrowserWindow() *)
  validWithFrameConnect : bool;      (* e.sender.isValidWithFrameConnect(e.frameRoutingId) *)
  frameName : option string;         (* e.sender.getFrameName(e.frameRoutingId) *)
  entityType : string;               (* e.sender.getEntityType(e.frameRoutingId) *)
  opts_uuid : option string;         (* the window's options, [{}] when unknown *)
  opts_name : option string;
  appObjFound : bool;                (* coreState.getAppObjByUuid(opts.uuid) *)
  ofWindowIdentity : Identity        (* getIdentityFromObject(getWinById(id).openfinWindow) *)
}.

Record RoutingInfo := mkRoutingInfo {
  browserWindow : BrowserWindow;
  ri_frameRoutingId : option Z;      (* [None]: not of type number *)
  mainFrameRoutingId : Z
}.

(** The identity [onMessage] composes for a request. *)
Record RequestIdentity := mkRequestIdentity {
  rq_name : option string;
  rq_uuid : option string;
  parentFrame : option string;
  rq_entityType : string;
  transaction : bool
}.

(** The acknowledgement object of a sub-message of a transaction, and as it
    is serialized inside the aggregate. *)
Record AckMessage := mkAckMessage {
  correlationId : Z;
  originalAction : string;
  ack_breadcrumbs : list Breadcrumb;
  ack_payload : JsVal
}.

(** What an acknowledgement closure of [ackDecorator] is called with: a value,
    or the [{ success: true, data: deferredAcks }] of a transaction, taken as
    it is when serialized. *)
Inductive AckBody :=
| BodyVal (v : JsVal)
| BodyAggregate (success : bool) (data : list AckMessage).

(** The private [ackObj] of an [ackDecorator] closure. *)
Record MainAck := mkMainAck {
  m_correlationId : Z;
  m_originalAction : string;
  m_breadcrumbs : list Breadcrumb;
  m_payload : AckBody
}.

(** [JSON.stringify] of what goes out: the text is taken as the value it
    denotes. *)
Inductive Json :=
| JsonAck (ackObj : MainAck)
| JsonSyncAck (correlationId : Z) (payload : JsVal)
| JsonVal (payloadObj : JsVal).

(** The acknowledgement closures: of [ackDecorator] (over its [ackObj]), of
    [ackDecoratorSync], and of the [ackDelegate] that [ackDecoratorDeferred]
    returns (over the shared [deferredAcks] and its own [ackObj]). *)
Inductive AckFn :=
| ackDecorator_fn (ackObj : nat)
| ackDecoratorSync_fn (messageId : Z)
| deferred_fn (group : nat) (ackObj : nat).

(** Modelled from the spec: [nackDecorator] of [api_transport_base] is not
    among the sources. A nack is a closure over the request's [ack]; calling
    it delivers a failure acknowledgement carrying the reason through that
    [ack]. *)
Inductive NackFn := nackDecorator (ack : AckFn).

(** What [this.actionMap[data.action]] yields: a registered endpoint, or,
    for a name that every object inherits, the member of [Object.prototype]
    of that name, which has no [apiFunc]. *)
Inductive Endpoint :=
| EndpointRef (apiFunc : nat)
| Inherited (member : string).

Record MessagePackage := mkMessagePackage {
  mp_identity : RequestIdentity;
  mp_data : Data;
  mp_ack : AckFn;
  mp_nack : NackFn;
  strategyName : string
}.

Record BufferedMessages := mkBufferedMessages {
  bm_identity : Identity;
  bm_frameRoutingId : option Z;
  bm_key : string;
  bm_messages : list Json
}.

(** [{ action: 'process-api-batch', payload: { messages } }] *)
Record BatchMessage := mkBatchMessage {
  batch_action : string;
  batch_messages : list Json
}.

Inductive Log :=
| LogReceived (e : IpcEvent) (identity : RequestIdentity) (data : Data)
| LogSent (ackObj : Json)
| LogRoutingNotFound (uuid : string) (name : option string)
| LogNotReachable (uuid : string) (name : option string) (frameRoutingId : option Z)
| LogCaught.

Inductive Effect :=
| DebugLog (what : Log)
| CallNext
| CallApiFunc (endpoint : Endpoint) (identity : RequestIdentity) (data : Data)
    (ack : AckFn) (nack : NackFn)
| CalledAck (ack : AckFn) (payload : AckBody)
| CalledNack (nack : NackFn) (err : JsVal)
| SetReturnValue (json : Json)
| WebContentsSendToFrame (windowId : Z) (frameRoutingId : Z) (payload : BatchMessage)
| BrowserWindowSend (windowId : Z) (payload : BatchMessage)
| SetImmediateFlush.

(** The state behind [ackDecoratorDeferred]: the [deferredAcks] array (of
    references to acknowledgement objects), the count expected, [mainAck]. *)
Record Deferred := mkDeferred {
  deferredAcks : list nat;
  totalAcksExpected : nat;
  mainAck : nat
}.

(** The strategy object: its configuration, the closures' objects, and the
    buffered message handler ([pendingMessages], [pendingFlush], and the
    [flush] callbacks queued with [setImmediate]). The keys of
    [pendingMessages] are buffer keys, [`${id} - ${frameRoutingId}`], never
    array indices, so [Object.keys] lists them in insertion order. *)
Record State := mkState {
  mainAcks : list MainAck;
  ackObjs : list AckMessage;
  groups : list Deferred;
  pendingMessages : list (string * BufferedMessages);
  pendingFlush : bool;
  immediates : nat
}.

Definition initial : State := mkState [] [] [] [] false 0.

Record Strategy := mkStrategy {
  constructor_name : string;
  actionMap : gmap string Endpoint;
  framestrategy : string             (* coreState.argo.framestrategy *)
}.

Definition bypassLocalFrameConnect (this : Strategy) : bool :=
  String.eqb this.(framestrategy) "frames".

(** The names a plain object inherits from [Object.prototype]. *)
Definition objectPrototype : list string :=
  ["constructor"; "__defineGetter__"; "__defineSetter__"; "hasOwnProperty";
   "__lookupGetter__"; "__lookupSetter__"; "isPrototypeOf"; "propertyIsEnumerable";
   "toString"; "valueOf"; "__proto__"; "toLocaleString"].

(** [this.actionMap[action]]: the action map is a plain object, [actionMap]
    holds the entries registered in it, and the read goes on to
    [Object.prototype] when the action is not registered. Every value it
    finds is truthy. *)
Definition actionMap_lookup (this : Strategy) (action : string) : option Endpoint :=
  match this.(actionMap) !! action with
  | Some endpoint => Some endpoint
  | None =>
      if bool_decide (action ∈ objectPrototype) then Some (Inherited action) else None
  end.

Abbreviation M := (Prog State Effect).

(** *** The buffered message handler *)

Definition set_buffer (pendingMessages : list (string * BufferedMessages))
    (pendingFlush : bool) (immediates : nat) (s : State) : State :=
  mkState s.(mainAcks) s.(ackObjs) s.(groups) pendingMessages pendingFlush immediates.

Definition canTrySend (routingInfo : RoutingInfo) : bool :=
  let browserWindowLocated := true in
  let browserWindowExists := negb routingInfo.(browserWindow).(isDestroyed) in
  let validRoutingId := bool_decide (is_Some routingInfo.(ri_frameRoutingId)) in
  browserWindowLocated && browserWindowExists && validRoutingId.

(** The sends go out on [electronIpc.channels.CORE_MESSAGE]. *)
Definition innerSend (this : Strategy) (payload : BatchMessage)
    (frameRoutingId mainFrameRoutingId : Z) (browserWindow : BrowserWindow) : M unit :=
  if bool_decide (frameRoutingId = mainFrameRoutingId)
  then
    if String.eqb this.(framestrategy) "frames"
    then effect (WebContentsSendToFrame browserWindow.(id) frameRoutingId payload)
    else effect (BrowserWindowSend browserWindow.(id) payload)
  else effect (WebContentsSendToFrame browserWindow.(id) frameRoutingId payload).

Definition delayedMessageHandler (this : Strategy)
    (getRoutingInfoByUuidFrame : string → option string → option RoutingInfo)
    (bufferedMessages : BufferedMessages) : M unit :=
  let uuid := bufferedMessages.(bm_identity).(uuid) in
  let name := bufferedMessages.(bm_identity).(name) in
  match getRoutingInfoByUuidFrame uuid name with
  | None => effect (DebugLog (LogRoutingNotFound uuid name))
  | Some routingInfo =>
      match canTrySend routingInfo, routingInfo.(ri_frameRoutingId) with
      | true, Some frameRoutingId =>
          let batchMessage :=
            {| batch_action := "process-api-batch";
               batch_messages := bufferedMessages.(bm_messages) |} in
          innerSend this batchMessage frameRoutingId routingInfo.(mainFrameRoutingId)
                    routingInfo.(browserWindow)
      | _, _ =>
          effect (DebugLog (LogNotReachable uuid name routingInfo.(ri_frameRoutingId)))
      end
  end.

Definition clear_messages (bufferedMessages : BufferedMessages) : BufferedMessages :=
  mkBufferedMessages bufferedMessages.(bm_identity) bufferedMessages.(bm_frameRoutingId)
                     bufferedMessages.(bm_key) [].

Definition flush (this : Strategy)
    (getRoutingInfoByUuidFrame : string → option string → option RoutingInfo) : M unit :=
  do s <- get ;;
  run forEach (λ key,
        do s <- get ;;
        match map_get key s.(pendingMessages) with
        | Some bufferedMessages =>
            run delayedMessageHandler this getRoutingInfoByUuidFrame bufferedMessages ;;
            modify (λ s, set_buffer (map_set key (clear_messages bufferedMessages)
                                             s.(pendingMessages))
                                    s.(pendingFlush) s.(immediates) s)
        | None => ret tt
        end) (s.(pendingMessages).*1) ;;
  modify (λ s, set_buffer s.(pendingMessages) false s.(immediates) s).

Definition add (key : string) (identity : Identity) (frameRoutingId : option Z)
    (payload : Json) : M unit :=
  do s <- get ;;
  run (if negb s.(pendingFlush)
       then
         run effect SetImmediateFlush ;;
         modify (λ s, set_buffer s.(pendingMessages) s.(pendingFlush) (S s.(immediates)) s)
       else ret tt) ;;
  let entry :=
    default {| bm_identity := identity; bm_frameRoutingId := frameRoutingId;
               bm_key := key; bm_messages := [] |}
            (map_get key s.(pendingMessages)) in
  let entry :=
    mkBufferedMessages entry.(bm_identity) entry.(bm_frameRoutingId) entry.(bm_key)
                       (entry.(bm_messages) ++ [payload]) in
  modify (λ s, set_buffer (map_set key entry s.(pendingMessages))
                          s.(pendingFlush) s.(immediates) s).

(** The end of a scheduling tick: the callbacks queued with [setImmediate]
    run, in the order they were queued. *)
Definition runImmediates (this : Strategy)
    (getRoutingInfoByUuidFrame : string → option string → option RoutingInfo) : M unit :=
  do s <- get ;;
  run modify (λ s, set_buffer s.(pendingMessages) s.(pendingFlush) 0 s) ;;
  forEach (λ _ : unit, flush this getRoutingInfoByUuidFrame) (replicate s.(immediates) tt).

(** [`${(!browserWindow.isDestroyed() ? browserWindow.id : -1)} - ${frameRoutingId}`] *)
Definition bufferKey (browserWindow : BrowserWindow) (frameRoutingId : option Z) : string :=
  pretty (if negb browserWindow.(isDestroyed) then browserWindow.(id) else (-1)%Z) +:+
  " - " +:+ tpl (pretty <$> frameRoutingId).

Definition send (getRoutingInfoByUuidFrame : string → option string → option RoutingInfo)
    (identity : Identity) (payloadObj : JsVal) : M unit :=
  match getRoutingInfoByUuidFrame identity.(uuid) identity.(name) with
  | None => effect (DebugLog (LogRoutingNotFound identity.(uuid) identity.(name)))
  | Some routingInfo =>
      let payload := JsonVal payloadObj in
      (* Queue it up *)
      let bufferKey := bufferKey routingInfo.(browserWindow) routingInfo.(ri_frameRoutingId) in
      add bufferKey identity routingInfo.(ri_frameRoutingId) payload
  end.

(** *** The acknowledgement closures *)

Definition set_mainAcks (mainAcks : list MainAck) (s : State) : State :=
  mkState mainAcks s.(ackObjs) s.(groups) s.(pendingMessages) s.(pendingFlush) s.(immediates).
Definition set_ackObjs (ackObjs : list AckMessage) (s : State) : State :=
  mkState s.(mainAcks) ackObjs s.(groups) s.(pendingMessages) s.(pendingFlush) s.(immediates).
Definition set_groups (groups : list Deferred) (s : State) : State :=
  mkState s.(mainAcks) s.(ackObjs) groups s.(pendingMessages) s.(pendingFlush) s.(immediates).

Definition new_mainAck (ackObj : MainAck) : M nat :=
  do s <- get ;;
  run modify (set_mainAcks (s.(mainAcks) ++ [ackObj])) ;;
  ret (length s.(mainAcks)).

Definition new_ackObj (ackObj : AckMessage) : M nat :=
  do s <- get ;;
  run modify (set_ackObjs (s.(ackObjs) ++ [ackObj])) ;;
  ret (length s.(ackObjs)).

Definition new_group (group : Deferred) : M nat :=
  do s <- get ;;
  run modify (set_groups (s.(groups) ++ [group])) ;;
  ret (length s.(groups)).

(** The closure [ackDecorator] returns, called with [payload]. *)
Definition ackDecorator_call (e : IpcEvent) (ref : nat) (payload : AckBody) : M unit :=
  do s <- get ;;
  match s.(mainAcks) !! ref with
  | None => ret tt
  | Some ackObj =>
      let ackObj := mkMainAck ackObj.(m_correlationId) ackObj.(m_originalAction)
                              ackObj.(m_breadcrumbs) payload in
      run modify (λ s, set_mainAcks (<[ref := ackObj]> s.(mainAcks)) s) ;;
      run effect (DebugLog (LogSent (JsonAck ackObj))) ;;
      if negb e.(senderDestroyed)
      then
        let ackObj :=
          mkMainAck ackObj.(m_correlationId) ackObj.(m_originalAction)
            (ackObj.(m_breadcrumbs) ++
               [mkBreadcrumb ackObj.(m_originalAction) ackObj.(m_correlationId) "core/ACK"])
            payload in
        run modify (λ s, set_mainAcks (<[ref := ackObj]> s.(mainAcks)) s) ;;
        let browserWindow := e.(ownerBrowserWindow) in
        let frameRoutingId := e.(frameRoutingId) in
        let bufferKey := bufferKey browserWindow (Some frameRoutingId) in
        let identity := e.(ofWindowIdentity) in
        add bufferKey identity (Some frameRoutingId) (JsonAck ackObj)
      else ret tt
  end.

(** The closure [ackDecoratorSync] returns. *)
Definition ackDecoratorSync_call (e : IpcEvent) (messageId : Z) (payload : JsVal) : M unit :=
  run effect (DebugLog (LogSent (JsonSyncAck messageId payload))) ;;
  if negb e.(senderDestroyed)
  then effect (SetReturnValue (JsonSyncAck messageId payload))
  else ret tt.

(** The closure the [ackDelegate] of [ackDecoratorDeferred] returns. *)
Definition deferred_call (e : IpcEvent) (group ref : nat) (payload : JsVal) : M unit :=
  do s <- get ;;
  match s.(ackObjs) !! ref, s.(groups) !! group with
  | Some ackObj, Some g =>
      let ackObj :=
        mkAckMessage ackObj.(correlationId) ackObj.(originalAction)
          (ackObj.(ack_breadcrumbs) ++
             [mkBreadcrumb ackObj.(originalAction) ackObj.(correlationId) "core/deferredACK"])
          payload in
      let deferredAcks := g.(deferredAcks) ++ [ref] in
      run modify (λ s, set_ackObjs (<[ref := ackObj]> s.(ackObjs)) s) ;;
      run modify (λ s, set_groups
                         (<[group := mkDeferred deferredAcks g.(totalAcksExpected) g.(mainAck)]>
                            s.(groups)) s) ;;
      if bool_decide (length deferredAcks = g.(totalAcksExpected))
      then
        do s <- get ;;
        let body := BodyAggregate true (omap (λ r, s.(ackObjs) !! r) deferredAcks) in
        run effect (CalledAck (ackDecorator_fn g.(mainAck)) body) ;;
        ackDecorator_call e g.(mainAck) body
      else ret tt
  | _, _ => ret tt
  end.

(** A handler, or the pipeline, calls an acknowledgement closure. *)
Definition callAck (e : IpcEvent) (ack : AckFn) (payload : JsVal) : M unit :=
  run effect (CalledAck ack (BodyVal payload)) ;;
  match ack with
  | ackDecorator_fn ref => ackDecorator_call e ref (BodyVal payload)
  | ackDecoratorSync_fn messageId => ackDecoratorSync_call e messageId payload
  | deferred_fn group ref => deferred_call e group ref payload
  end.

(** Modelled from the spec: [AckPayload] and [NackPayload] of [ack.ts] are
    not among the sources. A returned value is wrapped into a success
    acknowledgement; an error is converted to a nack carrying the error. *)
Definition AckPayload (result : JsVal) : JsVal :=
  JObj [("success", JBool true); ("data", result)].
Definition NackPayload (err : JsVal) : JsVal :=
  JObj [("success", JBool false); ("reason", err)].

Definition callNack (e : IpcEvent) (nack : NackFn) (err : JsVal) : M unit :=
  run effect (CalledNack nack err) ;;
  match nack with
  | nackDecorator ack => callAck e ack (NackPayload err)
  end.

(** *** The dispatch handler of the constructor *)

Definition superseded : string :=
  "API access has been superseded by another frame in this window.".

(** [CallApiFunc] records that [endpoint.apiFunc(identity, data, ack, nack)]
    is evaluated in the promise chain; how the chain settles comes as an
    event of its own. On an inherited member [endpoint.apiFunc] is
    [undefined]: the call is a [TypeError], no handler runs, and the chain
    rejects with that error. *)
Definition typeError : JsVal := JStr "TypeError: endpoint.apiFunc is not a function".

Definition handler (this : Strategy) (e : IpcEvent) (mp : MessagePackage) : M unit :=
  if negb (String.eqb mp.(strategyName) this.(constructor_name))
  then effect CallNext
  else
    match actionMap_lookup this mp.(mp_data).(action) with
    | Some endpoint =>
        if bypassLocalFrameConnect this
           || mp.(mp_data).(singleFrameOnly)
           || e.(validWithFrameConnect)
        then effect (CallApiFunc endpoint mp.(mp_identity) mp.(mp_data)
                                 mp.(mp_ack) mp.(mp_nack))
        else callNack e mp.(mp_nack) (JStr superseded)
    | None => ret tt
    end.

(** How the promise of a handler settles. *)
Inductive ApiOutcome :=
| Returned (result : JsVal)
| Rejected (err : JsVal).

(** The [.then(result => ...)] and [.catch(err => ...)] of the handler. *)
Definition settle (e : IpcEvent) (mp : MessagePackage) (outcome : ApiOutcome) : M unit :=
  match outcome with
  | Returned JUndefined => ret tt
  | Returned result => callAck e mp.(mp_ack) (AckPayload result)
  | Rejected err => callNack e mp.(mp_nack) err
  end.

(** Modelled from the spec: [RequestHandler] of [base_handler] is not among
    the sources. [handle] passes the message package to the registered
    handlers; the one the strategy registers is [handler]. *)
Definition requestHandler_handle (this : Strategy) (e : IpcEvent) (mp : MessagePackage)
  : M unit :=
  handler this e mp.

(** *** onMessage *)

Definition crumb (data : Data) (name : string) : Breadcrumb :=
  mkBreadcrumb data.(action) data.(messageId) name.

(** [ackDecoratorDeferred]: the main acknowledgement and the shared state of
    the delegate. [mainCrumbs] is the breadcrumb array of the main
    acknowledgement object as it is once the function returns. *)
Definition ackDecoratorDeferred (messageId : Z) (totalAcksExpected : nat)
    (originalAction : string) (mainCrumbs : list Breadcrumb) : M nat :=
  do mainAck <- new_mainAck (mkMainAck messageId originalAction mainCrumbs (BodyVal JUndefined)) ;;
  new_group (mkDeferred [] totalAcksExpected mainAck).

(** [onMessage(e, rawData, ackDelegate)].

    The breadcrumb array of the message, when it came with one, is shared by
    the message and by every acknowledgement object made from it
    ([ackObj.breadcrumbs = originalPayload.breadcrumbs || []]): each push
    lands in that one array. Without one, each object has an array of its
    own. [first] is what making [ack] pushes, [shared] the array the message
    came with after all the pushes of this call. *)
Fixpoint onMessage (this : Strategy) (e : IpcEvent) (ackDelegate : option nat)
    (data : Data) {struct data} : M unit :=
  let transaction := String.eqb data.(action) "api-transaction" in
  let first :=
    if data.(isSync) then []
    else [crumb data (match ackDelegate with
                      | Some _ => "core/ackDelegate"
                      | None => "core/ackDecorator"
                      end)] in
  let deferredCrumbs :=
    if e.(appObjFound) && transaction
    then [crumb data "core/ackDecorator"; crumb data "core/ackDecoratorDeferred"]
    else [] in
  let shared := (λ bs, bs ++ first ++ deferredCrumbs) <$> data.(breadcrumbs) in
  do ack <-
    (if data.(isSync) then ret (ackDecoratorSync_fn data.(messageId))
     else
       match ackDelegate with
       | Some group =>
           do ref <- new_ackObj (mkAckMessage data.(messageId) data.(action)
                                   (default first shared) JUndefined) ;;
           ret (deferred_fn group ref)
       | None =>
           do ref <- new_mainAck (mkMainAck data.(messageId) data.(action)
                                    (default first shared) (BodyVal JUndefined)) ;;
           ret (ackDecorator_fn ref)
       end) ;;
  let nack := nackDecorator ack in
  let subFrameName := if bypassLocalFrameConnect this then e.(frameName) else None in
  let identity :=
    {| rq_name := if truthyStr subFrameName then subFrameName else e.(opts_name);
       rq_uuid := e.(opts_uuid);
       parentFrame := e.(opts_name);
       rq_entityType := e.(entityType);
       transaction := transaction |} in
  if negb e.(appObjFound)
  then effect (DebugLog LogCaught)
  else
    let data' := set_breadcrumbs ((λ bs, bs ++ first) <$> data.(breadcrumbs)) data in
    run effect (DebugLog (LogReceived e identity data')) ;;
    if negb transaction
    then
      requestHandler_handle this e
        {| mp_identity := identity; mp_data := data'; mp_ack := ack; mp_nack := nack;
           strategyName := this.(constructor_name) |}
    else
      do deferredAck <-
        ackDecoratorDeferred data.(messageId) (length data.(messages)) data.(action)
          (default [crumb data "core/ackDecorator"] shared) ;;
      forEach (onMessage this e (Some deferredAck)) data.(messages).

(** What the strategy is driven by: an inbound message, the settlement of a
    handler's promise, a handler calling [ack] or [nack] itself, an outbound
    [send], and the end of a scheduling tick. *)
Inductive Event :=
| Inbound (e : IpcEvent) (rawData : Data)
| Settles (e : IpcEvent) (mp : MessagePackage) (outcome : ApiOutcome)
| HandlerAcks (e : IpcEvent) (ack : AckFn) (payload : JsVal)
| HandlerNacks (e : IpcEvent) (nack : NackFn) (err : JsVal)
| Sends (getRoutingInfoByUuidFrame : string → option string → option RoutingInfo)
    (identity : Identity) (payloadObj : JsVal)
| TickEnds (getRoutingInfoByUuidFrame : string → option string → option RoutingInfo).

Definition step (this : Strategy) (ev : Event) (s : State) : State * list Effect :=
  match ev with
  | Inbound e rawData => outcome (onMessage this e None rawData s)
  | Settles e mp out => outcome (settle e mp out s)
  | HandlerAcks e ack payload => outcome (callAck e ack payload s)
  | HandlerNacks e nack err => outcome (callNack e nack err s)
  | Sends routing identity payloadObj => outcome (send routing identity payloadObj s)
  | TickEnds routing => outcome (runImmediates this routing s)
  end.

Fixpoint steps (this : Strategy) (evs : list Event) (s : State) : State * list Effect :=
  match evs with
  | [] => (s, [])
  | ev :: evs =>
      let '(s1, tr1) := step this ev s in
      let '(s2, tr2) := steps this evs s1 in
      (s2, tr1 ++ tr2)
  end.

(** *** Vocabulary of the properties *)

(** Only diagnostics. *)
Definition quiet (ef : Effect) : Prop :=
  match ef with
  | DebugLog _ => True
  | _ => False
  end.

(** Diagnostics and handler invocations. *)
Definition dispatch_only (ef : Effect) : Prop :=
  match ef with
  | DebugLog _ | CallApiFunc _ _ _ _ _ => True
  | _ => False
  end.

(** The transport sends of a trace. *)
Definition sends (tr : list Effect) : list Effect :=
  omap (λ ef, match ef with
              | WebContentsSendToFrame _ _ _ | BrowserWindowSend _ _ => Some ef
              | _ => None
              end) tr.

(** The calls of [ackDecorator] closures in a trace: the acknowledgements
    that go out. *)
Definition outwardAcks (tr : list Effect) : list AckBody :=
  omap (λ ef, match ef with
              | CalledAck (ackDecorator_fn _) body => Some body
              | _ => None
              end) tr.

(** What is queued for a destination key. *)
Definition pending (key : string) (s : State) : list Json :=
  default [] (bm_messages <$> map_get key s.(pendingMessages)).

(** What is returned inline to synchronous callers. *)
Definition returned (tr : list Effect) : list Json :=
  omap (λ ef, match ef with
              | SetReturnValue json => Some json
              | _ => None
              end) tr.

(** An asynchronous request that is not itself a transaction. *)
Definition plain_request (m : Data) : Prop :=
  m.(isSync) = false ∧ m.(action) ≠ "api-transaction".

(** The frame check of the dispatch handler. *)
Definition frameCheck (this : Strategy) (e : IpcEvent) (m : Data) : bool :=
  bypassLocalFrameConnect this || m.(singleFrameOnly) || e.(validWithFrameConnect).

(** The handler does not reject the request at the frame check: no endpoint
    is found for its action, or the check passes. *)
Definition admitted (this : Strategy) (e : IpcEvent) (m : Data) : Prop :=
  actionMap_lookup this m.(action) = None ∨ frameCheck this e m = true.

(** A handler completes: it calls the acknowledgement closure of the
    sub-message at [c_index], with [c_payload]. *)
Record Completion := mkCompletion {
  c_event : IpcEvent;
  c_index : nat;
  c_payload : JsVal
}.

(** The acknowledgement object the delegate makes for a sub-message. *)
Definition delegateAck (m : Data) : AckMessage :=
  mkAckMessage m.(messageId) m.(action)
    (default [] m.(breadcrumbs) ++ [crumb m "core/ackDelegate"]) JUndefined.

(** The same object once its closure has been called with [v]. *)
Definition completedAck (m : Data) (v : JsVal) : AckMessage :=
  mkAckMessage m.(messageId) m.(action)
    (default [] m.(breadcrumbs) ++
       [crumb m "core/ackDelegate"; crumb m "core/deferredACK"]) v.

Definition completedAcks (ms : list Data) (cs : list Completion) : list AckMessage :=
  omap (λ c, (λ m, completedAck m c.(c_payload)) <$> ms !! c.(c_index)) cs.

(** The breadcrumbs of the main acknowledgement object of a transaction, once
    [onMessage] has set it up. *)
Definition transactionCrumbs (data : Data) : list Breadcrumb :=
  match data.(breadcrumbs) with
  | Some bs =>
      bs ++ (if data.(isSync) then [] else [crumb data "core/ackDecorator"]) ++
      [crumb data "core/ackDecorator"; crumb data "core/ackDecoratorDeferred"]
  | None => [crumb data "core/ackDecorator"]
  end.

(** The aggregate acknowledgement of a transaction as it is enqueued. *)
Definition aggregateAck (data : Data) (cs : list Completion) : MainAck :=
  mkMainAck data.(messageId) data.(action)
    (transactionCrumbs data ++ [crumb data "core/ACK"])
    (BodyAggregate true (completedAcks data.(messages) cs)).

(** The acknowledgement closure of sub-message [i] of a transaction received
    in state [s]. *)
Definition subAck (s : State) (i : nat) : AckFn :=
  deferred_fn (length s.(groups)) (length s.(ackObjs) + i).

Definition call (g base : nat) (c : Completion) : Event :=
  HandlerAcks c.(c_event) (deferred_fn g (base + c.(c_index))) c.(c_payload).

Definition completes (s : State) (c : Completion) : Event :=
  call (length s.(groups)) (length s.(ackObjs)) c.

(** The state of a transaction under way: [done] are the completions so far,
    in order; the objects of the sub-messages [ms] start at [base], the
    shared state of the delegate is group [g], the main acknowledgement
    object is [main] at [m]. *)
Record Underway (ms : list Data) (g base m : nat) (main : MainAck)
    (done : list Completion) (s : State) : Prop := mkUnderway {
  uw_group :
    s.(groups) !! g =
      Some (mkDeferred ((λ c, base + c.(c_index)) <$> done) (length ms) m);
  uw_done : ∀ c sub,
    c ∈ done → ms !! c.(c_index) = Some sub →
    s.(ackObjs) !! (base + c.(c_index)) = Some (completedAck sub c.(c_payload));
  uw_todo : ∀ i sub,
    ms !! i = Some sub → i ∉ c_index <$> done →
    s.(ackObjs) !! (base + i) = Some (delegateAck sub);
  uw_main : s.(mainAcks) !! m = Some main
}.

(** What a call of a delegate closure does to its object and to the shared
    array. *)
Definition push_ack (g r : nat) (v : JsVal) (obj : AckMessage) (grp : Deferred)
    (s : State) : State :=
  set_groups
    (<[g := mkDeferred (grp.(deferredAcks) ++ [r]) grp.(totalAcksExpected) grp.(mainAck)]>
       s.(groups))
    (set_ackObjs
       (<[r := mkAckMessage obj.(correlationId) obj.(originalAction)
                (obj.(ack_breadcrumbs) ++
                   [mkBreadcrumb obj.(originalAction) obj.(correlationId)
                                 "core/deferredACK"]) v]> s.(ackObjs)) s).

(** Effects that stay inside the strategy: neither a transport send nor a
    hand-over to the next handler. *)
Definition internal (ef : Effect) : Prop :=
  match ef with
  | WebContentsSendToFrame _ _ _ | BrowserWindowSend _ _ | CallNext => False
  | _ => True
  end.

(** What calling an acknowledgement closure does by itself. *)
Definition closure_effect (ef : Effect) : Prop :=
  match ef with
  | DebugLog _ | CalledAck _ _ | SetReturnValue _ | SetImmediateFlush => True
  | _ => False
  end.

(** Diagnostics and the record of a call of an acknowledgement closure. *)
Definition record_only (ef : Effect) : Prop :=
  match ef with
  | DebugLog _ | CalledAck _ _ => True
  | _ => False
  end.

Definition unflagged (s : State) : Prop := s.(pendingFlush) = false.

(** The keys of [pendingMessages] are the keys of an object. *)
Definition buffer_wf (s : State) : Prop := NoDup s.(pendingMessages).*1.

(** What a [flush] leaves of the queues. *)
Definition flushed (pendingMessages : list (string * BufferedMessages))
  : list (string * BufferedMessages) :=
  (λ kv, (kv.1, clear_messages kv.2)) <$> pendingMessages.

(** The transport send of a batch to the frame [frameRoutingId] of
    [routingInfo]: what [innerSend] does with it. *)
Definition transportSend (this : Strategy) (routingInfo : RoutingInfo) (frameRoutingId : Z)
    (messages : list Json) : list Effect :=
  (outcome (innerSend this (mkBatchMessage "process-api-batch" messages) frameRoutingId
                      routingInfo.(mainFrameRoutingId) routingInfo.(browserWindow)
                      initial)).2.

(** The destination of a queue cannot be sent to: no routing info is found
    for its identity, or [canTrySend] refuses it. *)
Definition unreachable (routing : string → option string → option RoutingInfo)
    (bufferedMessages : BufferedMessages) : Prop :=
  match routing bufferedMessages.(bm_identity).(uuid) bufferedMessages.(bm_identity).(name) with
  | Some routingInfo => canTrySend routingInfo = false
  | None => True
  end.

(** *** Concrete strategies and messages *)

Definition strategy0 : Strategy :=
  mkStrategy "ElipcStrategy" {[ "get-version" := EndpointRef 0 ]} "".
Definition window7 : BrowserWindow := mkBrowserWindow 7 false.
Definition window8 : BrowserWindow := mkBrowserWindow 8 false.
Definition main7 : Identity := mkIdentity "app7" (Some "main").
Definition main8 : Identity := mkIdentity "app8" (Some "main").
Definition routing0 (uuid : string) (name : option string) : option RoutingInfo :=
  if String.eqb uuid "app7" then Some (mkRoutingInfo window7 (Some 1%Z) 1%Z)
  else if String.eqb uuid "app8" then Some (mkRoutingInfo window8 (Some 1%Z) 1%Z)
  else None.
Definition event7 : IpcEvent :=
  mkIpcEvent 1 false window7 true None "window" (Some "app7") (Some "main") true main7.
Definition unknownRequest : Data :=
  mkData "no-such-action" 5 false false None [] JNull.
Definition toStringRequest : Data :=
  mkData "toString" 6 false false None [] JNull.
Definition identity7 : RequestIdentity :=
  mkRequestIdentity (Some "main") (Some "app7") (Some "main") "window" false.
Definition toStringPackage : MessagePackage :=
  mkMessagePackage identity7 toStringRequest (ackDecorator_fn 0)
                   (nackDecorator (ackDecorator_fn 0)) "ElipcStrategy".
Definition otherFrame7 : IpcEvent :=
  mkIpcEvent 1 false window7 false None "window" (Some "app7") (Some "main") true main7.
Definition emptyTransaction : Data :=
  mkData "api-transaction" 100 false false None [] JNull.
Definition getVersion (messageId : Z) : Data :=
  mkData "get-version" messageId false false None [] JNull.
Definition twoRequests : Data :=
  mkData "api-transaction" 100 false false None [getVersion 1; getVersion 2] JNull.
Definition secondThenFirst : list Completion :=
  [mkCompletion event7 1 (JStr "two"); mkCompletion event7 0 (JStr "one")].
Definition syncInside : Data :=
  mkData "api-transaction" 100 false false None
         [mkData "get-version" 1 true false None [] JNull] JNull.
Definition nestedInside : Data :=
  mkData "api-transaction" 100 false false None
         [mkData "api-transaction" 200 false false None [getVersion 1] JNull] JNull.

End Elipc.

(** ** Desktop event subscriptions

    [src/browser/api_protocol/api_handlers/event_listener.js]: the listener
    [subToDesktopEvent] hands to a subscription provider, and the providers'
    [subscribe] with the closure it returns. *)
Module EventListener.

(** The topics of [subscriptionProvider]. *)
Inductive Topic :=
| window | frame | application | channel | system
| notifications | external_application | global_hotkey.

(** The [subscription] objects handed to [addRemoteSubscription] and
    [subscribeToAllRuntimes]; [listenType] is always ['on']. *)
Record Subscription := mkSubscription {
  sub_uuid : option JsVal;
  sub_name : option JsVal;
  listenType : string;
  className : string;
  eventName : JsVal
}.

(** What a remote subscription promise resolves with. *)
Inductive Resolved :=
| ResolvedFunction (unSubscribe : nat)
| ResolvedOther (v : JsVal).

Inductive Effect :=
| SendToIdentity (identity : Identity) (eventObj : JsVal)
| AddEventListener (topic : Topic) (type : JsVal)
| AddRemoteSubscription (subscription : Subscription)
| SubscribeToAllRuntimes (subscription : Subscription)
| LocalUnsub
| RemoteUnSub (unSubscribe : nat).

(** *** The listener [subToDesktopEvent] hands to a provider *)

(** [typeof v === 'object'] *)
Definition isObject (v : JsVal) : bool :=
  match v with
  | JObj _ | JNull => true
  | _ => false
  end.

(** The own properties of a value. *)
Definition fieldsOf (v : JsVal) : list (string * JsVal) :=
  match v with
  | JObj fields => fields
  | _ => []
  end.

(** [v[k]]: a [TypeError] on [undefined] and [null]. *)
Definition getProp (k : string) (v : JsVal) : option JsVal :=
  match v with
  | JUndefined | JNull => None
  | JObj fields => Some (default JUndefined (map_get k fields))
  | _ => Some JUndefined
  end.

(** underscore's [_.keys], [_.omit] and [_.extend]. *)
Definition keys (obj : list (string * JsVal)) : list string := obj.*1.
Definition omit (obj : list (string * JsVal)) (ks : list string) : list (string * JsVal) :=
  filter (λ kv, kv.1 ∉ ks) obj.
Definition extend (destination source : list (string * JsVal)) : list (string * JsVal) :=
  foldl (λ destination kv, map_set kv.1 kv.2 destination) destination source.

Definition eventObj (payload : list (string * JsVal)) : JsVal :=
  JObj [("action", JStr "process-desktop-event"); ("payload", JObj payload)].

(** The listener: [identity], [topic], [type], [uuid] and [name] are those
    of the subscription, [emmitedPayload] is what the event carries. *)
Definition listener (identity : Identity) (topic type uuid name : JsVal)
    (emmitedPayload : JsVal) : Prog unit Effect unit :=
  let payload := [("topic", topic); ("type", type); ("uuid", uuid)] in
  let payload := if truthy name then map_set "name" name payload else payload in
  do payload <-
    ((if negb (truthy uuid)
      then
        match getProp "uuid" emmitedPayload with
        | None => throw "TypeError"
        | Some emmitedUuid =>
            ret (if truthy emmitedUuid then map_set "uuid" emmitedUuid payload else payload)
        end
      else ret payload) : Prog unit Effect (list (string * JsVal))) ;;
  let payload :=
    if isObject emmitedPayload
    then extend payload (omit (fieldsOf emmitedPayload) (keys payload))
    else payload in
  effect (SendToIdentity identity (eventObj payload)).

(** *** The providers' [subscribe] *)

(** What [subscribe] reads from its collaborators: whether the target is
    local ([coreState.getWindowByUuidName], [coreState.isLocalUuid]) and
    whether the subscriber is a runtime client
    ([ExternalApplication.isRuntimeClient]). *)
Record Env := mkEnv { islocal : bool; isExternalClient : bool }.

(** The variables a [subscribe] call closes over: whether a [then] callback
    waits for the remote subscription, and [remoteUnSub]. *)
Record State := mkState {
  waiting : bool;
  remoteUnSub : option Resolved
}.

Definition initial : State := mkState false None.

Abbreviation M := (Prog State Effect).

(** [v === 'literal'] *)
Definition isString (v : JsVal) (literal : string) : bool :=
  match v with
  | JStr s => String.eqb s literal
  | _ => false
  end.

(** [{ uuid, name, listenType: 'on', className, eventName: type }], with the
    fields the provider gives. *)
Definition remoteSubscribe (allRuntimes : bool) (subscription : Subscription) : M unit :=
  run effect (if allRuntimes then SubscribeToAllRuntimes subscription
              else AddRemoteSubscription subscription) ;;
  modify (λ s, mkState true s.(remoteUnSub)).

(** [subTopicProvider.subscribe(identity, type, payload, cb)]; [uuid] and
    [name] are those of the payload. The providers of [notifications],
    [external-application] and [global-hotkey] return the closure of their
    [addEventListener] as it is. *)
Definition subscribe (topic : Topic) (env : Env) (type uuid name : JsVal) : M unit :=
  run effect (AddEventListener topic type) ;;
  match topic with
  | window =>
      if negb env.(islocal) && negb env.(isExternalClient)
      then remoteSubscribe false (mkSubscription (Some uuid) (Some name) "on" "window" type)
      else ret tt
  | frame =>
      if negb env.(islocal) && negb env.(isExternalClient)
      then remoteSubscribe false (mkSubscription (Some uuid) (Some name) "on" "frame" type)
      else ret tt
  | application =>
      if negb env.(islocal) && negb env.(isExternalClient)
      then remoteSubscribe false (mkSubscription (Some uuid) None "on" "application" type)
      else ret tt
  | channel =>
      if negb env.(islocal) && negb env.(isExternalClient) &&
         (isString type "channel-connected" || isString type "channel-disconnected")
      then remoteSubscribe true (mkSubscription None None "on" "channel" type)
      else ret tt
  | system =>
      if negb env.(isExternalClient)
      then remoteSubscribe true (mkSubscription None None "on" "system" type)
      else ret tt
  | notifications | external_application | global_hotkey => ret tt
  end.

(** The promise resolves: [unSubscribe => { remoteUnSub = unSubscribe; }]. *)
Definition resolve (unSubscribe : Resolved) : M unit :=
  do s <- get ;;
  if s.(waiting) then modify (λ _, mkState false (Some unSubscribe)) else ret tt.

(** The closure [subscribe] returns. *)
Definition unsubscribe : M unit :=
  run effect LocalUnsub ;;
  do s <- get ;;
  match s.(remoteUnSub) with
  | Some (ResolvedFunction unSubscribe) => effect (RemoteUnSub unSubscribe)
  | _ => ret tt
  end.

(** What happens to a subscription once it is made. *)
Inductive Event :=
| Resolves (unSubscribe : Resolved)
| Unsubscribes.

Global Instance Unsubscribes_dec (ev : Event) : Decision (ev = Unsubscribes).
Proof. destruct ev; [right; discriminate|left; reflexivity]. Defined.

Definition step (ev : Event) (s : State) : State * list Effect :=
  match ev with
  | Resolves unSubscribe => outcome (resolve unSubscribe s)
  | Unsubscribes => outcome (unsubscribe s)
  end.

Fixpoint steps (evs : list Event) (s : State) : State * list Effect :=
  match evs with
  | [] => (s, [])
  | ev :: evs =>
      let '(s1, tr1) := step ev s in
      let '(s2, tr2) := steps evs s1 in
      (s2, tr1 ++ tr2)
  end.

(** The remote side of a trace. *)
Definition remoteCalls (tr : list Effect) : list Effect :=
  omap (λ ef, match ef with
              | AddRemoteSubscription _ | SubscribeToAllRuntimes _ | RemoteUnSub _ => Some ef
              | _ => None
              end) tr.

End EventListener.


(** * Properties *)

Ltac prog := unfold bind, get, ret, effect, modify, throw; simpl.

(** ** The JS [Map] operations *)
Section JsMap.
Context {V : Type}.
Implicit Types (m : list (string * V)) (k : string) (v : V).

Lemma map_get_set_eq k v m : map_get k (map_set k v m) = Some v.
Proof.
  induction m as [|[k' v'] m IH]; simpl.
  - by rewrite decide_True.
  - destruct (decide (k' = k)) as [->|Hne]; simpl.
    + by rewrite decide_True.
    + by rewrite decide_False.
Qed.

Lemma map_get_set_ne k k' v m : k ≠ k' → map_get k' (map_set k v m) = map_get k' m.
Proof.
  intros Hne. induction m as [|[k0 v0] m IH]; simpl.
  - by rewrite decide_False.
  - destruct (decide (k0 = k)) as [->|Hne0]; simpl.
    + by rewrite !decide_False.
    + by rewrite IH.
Qed.

(** A new key goes to the end. *)
Lemma map_set_fresh k v m : map_get k m = None → map_set k v m = m ++ [(k, v)].
Proof.
  induction m as [|[k0 v0] m IH]; simpl; [done|].
  destruct (decide (k0 = k)); [done|]. intros H. by rewrite IH.
Qed.


Lemma map_get_delete_ne k k' m : k ≠ k' → map_get k' (map_delete k m) = map_get k' m.
Proof.
  intros Hne. unfold map_delete. induction m as [|[k0 v0] m IH]; [done|].
  rewrite filter_cons. simpl. destruct (decide (k0 ≠ k)) as [Hne0|Heq]; simpl.
  - by rewrite IH.
  - apply dec_stable in Heq. subst k0. by rewrite decide_False.
Qed.


Lemma map_get_app_l k v m m' : map_get k m = Some v → map_get k (m ++ m') = Some v.
Proof.
  induction m as [|[k0 v0] m IH]; simpl; [done|]. by destruct (decide (k0 = k)).
Qed.

Lemma map_get_app_None k m m' : map_get k m = None → map_get k (m ++ m') = map_get k m'.
Proof.
  induction m as [|[k0 v0] m IH]; simpl; [done|]. by destruct (decide (k0 = k)).
Qed.
End JsMap.


(** ** The channel registry *)
Module ChannelFacts.
Import Channel.

(** *** createChannel *)

Lemma createChannel_throws resolve identity channelName s :
  resolve identity = None ∨
  is_Some (getChannelByChannelId
             (getChannelId identity.(uuid) identity.(name) channelName) s) →
  createChannel resolve identity channelName s = Throw nackString s [].
Proof.
  intros H. unfold createChannel. prog.
  destruct (resolve identity) as [app|]; [|done].
  destruct H as [H|[pi H]]; [done|]. by rewrite H.
Qed.

Lemma createChannel_returns resolve identity channelName s app :
  resolve identity = Some app →
  getChannelByChannelId (getChannelId identity.(uuid) identity.(name) channelName) s = None →
  let channelId := getChannelId identity.(uuid) identity.(name) channelName in
  let providerIdentity :=
    mkProviderIdentity app.(app_uuid) app.(app_name) app.(app_isExternal)
                       channelName channelId in
  createChannel resolve identity channelName s =
  Ok providerIdentity
     (mkState (s.(channelMap) ++ [(channelId, providerIdentity)])
              s.(remoteAckMap)
              (s.(watches) ++
                 [(closedEvent providerIdentity, ClosedWatch providerIdentity);
                  (route_application_closed app.(app_uuid),
                   ApplicationClosedWatch channelId)]))
     [Emit (route_channel "channel-connected") providerIdentity].
Proof.
  intros Happ Hnone. unfold createChannel. prog. rewrite Happ, Hnone. simpl.
  unfold channelMap_set, createChannelTeardown, ofEvents_once, ofEvents_emit. prog.
  rewrite map_set_fresh by done. by rewrite <- app_assoc.
Qed.

Lemma createChannel_cases resolve identity channelName s :
  let channelId := getChannelId identity.(uuid) identity.(name) channelName in
  createChannel resolve identity channelName s = Throw nackString s [] ∨
  ∃ app,
    resolve identity = Some app ∧ getChannelByChannelId channelId s = None ∧
    let providerIdentity :=
      mkProviderIdentity app.(app_uuid) app.(app_name) app.(app_isExternal)
                         channelName channelId in
    createChannel resolve identity channelName s =
    Ok providerIdentity
       (mkState (s.(channelMap) ++ [(channelId, providerIdentity)])
                s.(remoteAckMap)
                (s.(watches) ++
                   [(closedEvent providerIdentity, ClosedWatch providerIdentity);
                    (route_application_closed app.(app_uuid),
                     ApplicationClosedWatch channelId)]))
       [Emit (route_channel "channel-connected") providerIdentity].
Proof.
  intros channelId.
  destruct (resolve identity) as [app|] eqn:Happ.
  - destruct (getChannelByChannelId channelId s) as [pi|] eqn:Hget.
    + left. apply createChannel_throws. right. by exists pi.
    + right. exists app. split_and!; [done..|]. by apply createChannel_returns.
  - left. apply createChannel_throws. by left.
Qed.

(** *** The teardown watches *)

Lemma forEach_runWatch fired s :
  forEach (λ rw : ClosedRoute * Watch, runWatch rw.2) fired s =
  Ok tt
     (mkState (foldl (λ m rw, map_delete (watch_target rw.2) m) s.(channelMap) fired)
              s.(remoteAckMap) s.(watches))
     (fired ≫= λ rw, watch_emits rw.2).
Proof.
  revert s. induction fired as [|[r w] fired IH]; intros s; simpl.
  - by destruct s.
  - unfold bind at 1. destruct w as [pi|cid]; simpl.
    + unfold runWatch, channelMap_delete, ofEvents_emit. prog. by rewrite IH.
    + unfold runWatch, channelMap_delete. prog. by rewrite IH.
Qed.

Lemma emit_closed_spec r s :
  ofEvents_emit_closed r s =
  Ok tt
     (mkState (foldl (λ m rw, map_delete (watch_target rw.2) m) s.(channelMap)
                     (filter (λ rw, rw.1 = r) s.(watches)))
              s.(remoteAckMap)
              (filter (λ rw, rw.1 ≠ r) s.(watches)))
     (filter (λ rw, rw.1 = r) s.(watches) ≫= λ rw, watch_emits rw.2).
Proof.
  unfold ofEvents_emit_closed. prog. by rewrite forEach_runWatch.
Qed.

Lemma foldl_delete_keeps (channelId : string) (providerIdentity : ProviderIdentity)
    (fired : list (ClosedRoute * Watch)) m :
  Forall (λ rw, watch_target rw.2 ≠ channelId) fired →
  map_get channelId m = Some providerIdentity →
  map_get channelId (foldl (λ m rw, map_delete (watch_target rw.2) m) m fired)
    = Some providerIdentity.
Proof.
  intros Hall. revert m. induction Hall as [|rw fired Hne _ IH]; intros m Hget; [done|].
  simpl. apply IH. by rewrite map_get_delete_ne.
Qed.





(** *** connectToChannel, sendChannelMessage, sendChannelResult *)

Lemma fold_last_match (c : string) (l : list ProviderIdentity) acc :
  fold_left (λ providerIdentity channel,
               if decide (channel.(channelName) = Some c)
               then Some channel else providerIdentity) l acc =
  match last (filter (λ channel, channel.(channelName) = Some c) l) with
  | Some channel => Some channel
  | None => acc
  end.
Proof.
  revert acc. induction l as [|x l IH]; intros acc; simpl; [done|].
  rewrite IH, filter_cons. destruct (decide (channelName x = Some c)); [|done].
  rewrite last_cons. by destruct (last _).
Qed.

Lemma byChannelName_is_last c s :
  getChannelByChannelName c s =
  last (filter (λ channel, channel.(channelName) = Some c) s.(channelMap).*2).
Proof.
  unfold getChannelByChannelName. rewrite fold_last_match. by destruct (last _).
Qed.

Lemma connect_by_name identity payload messageId ack nack s providerIdentity :
  truthyStr payload.(cp_channelName) = true →
  getChannelByChannelName (default "" payload.(cp_channelName)) s = Some providerIdentity →
  connectToChannel identity payload messageId ack nack s =
  Ok (Some providerIdentity)
     (mkState s.(channelMap)
              (<[getAckKey messageId identity := mkRemoteAck ack nack]> s.(remoteAckMap))
              s.(watches))
     [SendToIdentity (identityOf providerIdentity)
        (ConnectionMessage "process-channel-connection"
           (mkAckToSender "send-channel-result" messageId identity providerIdentity true)
           providerIdentity identity payload.(cp_payload))].
Proof.
  intros Hcn Hget. unfold connectToChannel. prog. rewrite Hcn, Hget. simpl.
  unfold remoteAckMap_set. prog. done.
Qed.

Lemma connect_ambiguous identity payload messageId ack nack s :
  (truthyStr payload.(cp_channelName) = false ∨
   getChannelByChannelName (default "" payload.(cp_channelName)) s = None) →
  truthyStr payload.(cp_uuid) = true →
  1 < length (getChannelByIdentity
                (mkIdentity (default "" payload.(cp_uuid)) payload.(cp_name)) s) →
  connectToChannel identity payload messageId ack nack s =
  Ok None s
     [CallNack nack (NackString (disambiguation (default "" payload.(cp_uuid))
                                                payload.(cp_name)));
      CallNack nack (NackString "internal-nack")].
Proof.
  intros Hname Huuid Hlen. unfold connectToChannel. prog.
  assert ((if truthyStr (cp_channelName payload)
           then getChannelByChannelName (default "" (cp_channelName payload)) s
           else None) = None) as ->.
  { destruct Hname as [H|H]; rewrite H; [done|].
    by destruct (truthyStr (cp_channelName payload)). }
  rewrite Huuid. simpl. rewrite bool_decide_true by done. simpl. done.
Qed.

Lemma connect_frame identity payload messageId ack nack s :
  (step (OpConnectToChannel identity payload messageId ack nack) s).1.(channelMap)
    = s.(channelMap) ∧
  (step (OpConnectToChannel identity payload messageId ack nack) s).1.(watches)
    = s.(watches).
Proof.
  simpl. unfold connectToChannel, remoteAckMap_set. prog.
  repeat case_match; simplify_eq/=; done.
Qed.

Lemma sendChannelResult_frame identity payload ack nack s :
  (step (OpSendChannelResult identity payload ack nack) s).1.(channelMap)
    = s.(channelMap) ∧
  (step (OpSendChannelResult identity payload ack nack) s).1.(watches)
    = s.(watches).
Proof.
  simpl. unfold sendChannelResult, remoteAckMap_delete. prog.
  repeat case_match; simplify_eq/=; done.
Qed.

(** *** Sequences of calls *)

Lemma steps_cons_state op ops s : (steps (op :: ops) s).1 = (steps ops (step op s).1).1.
Proof. simpl. destruct (step op s) as [s1 tr1]. simpl. by destruct (steps ops s1). Qed.

Lemma step_keeps_channel channelId providerIdentity op s :
  ¬ teardown_of channelId op s →
  getChannelByChannelId channelId s = Some providerIdentity →
  getChannelByChannelId channelId (step op s).1 = Some providerIdentity.
Proof.
  unfold getChannelByChannelId. intros Hno Hget. destruct op as [resolve identity cn| | | |r].
  - simpl. destruct (createChannel_cases resolve identity cn s) as [->|(app & _ & _ & ->)];
      [done|]. simpl. by apply map_get_app_l.
  - by rewrite (proj1 (connect_frame _ _ _ _ _ _)).
  - done.
  - by rewrite (proj1 (sendChannelResult_frame _ _ _ _ _)).
  - simpl. rewrite emit_closed_spec. simpl. apply foldl_delete_keeps; [|done].
    apply Forall_forall. intros [r' w] Hin Htarget. apply Hno. exists w.
    apply list_elem_of_filter in Hin as [Hr Hin]. simpl in *. by subst r'.
Qed.

Lemma steps_keep_channel channelId providerIdentity ops s :
  before_teardown channelId ops s →
  getChannelByChannelId channelId s = Some providerIdentity →
  getChannelByChannelId channelId (steps ops s).1 = Some providerIdentity.
Proof.
  revert s. induction ops as [|op ops IH]; intros s Hbefore Hget; [done|].
  destruct Hbefore as [Hno Hbefore]. rewrite steps_cons_state.
  apply IH; [done|]. by apply step_keeps_channel.
Qed.





(** *** The claims on the registry *)

(** Claim C1. [createChannel] throws the registration error when the owning
    entity cannot be resolved or when a channel already exists for the
    computed channelId, and then the state is unchanged and nothing is
    emitted. Otherwise it returns the ProviderIdentity, stores it under the
    channelId and emits [channel-connected] carrying it; from then on, before
    any teardown of that channelId, every [createChannel] that computes the
    same channelId throws. *)
Theorem createChannel_registers_once resolve identity channelName s :
  let channelId := getChannelId identity.(uuid) identity.(name) channelName in
  (resolve identity = None ∨ is_Some (getChannelByChannelId channelId s) →
   createChannel resolve identity channelName s = Throw nackString s [])
  ∧
  (∀ app,
     resolve identity = Some app →
     getChannelByChannelId channelId s = None →
     let providerIdentity :=
       mkProviderIdentity app.(app_uuid) app.(app_name) app.(app_isExternal)
                          channelName channelId in
     ∃ s',
       createChannel resolve identity channelName s =
         Ok providerIdentity s' [Emit (route_channel "channel-connected") providerIdentity]
       ∧ getChannelByChannelId channelId s' = Some providerIdentity
       ∧ ∀ ops resolve' identity' channelName',
           before_teardown channelId ops s' →
           getChannelId identity'.(uuid) identity'.(name) channelName' = channelId →
           createChannel resolve' identity' channelName' (steps ops s').1
             = Throw nackString (steps ops s').1 []).
Proof.
  intros channelId. split; [apply createChannel_throws|].
  intros app Happ Hnone providerIdentity. eexists. split_and!.
  - by apply createChannel_returns.
  - unfold getChannelByChannelId. simpl. rewrite map_get_app_None by done.
    simpl. by rewrite decide_True.
  - intros ops resolve' identity' channelName' Hbefore Hid.
    apply createChannel_throws. right. rewrite Hid. exists providerIdentity.
    apply steps_keep_channel; [done|].
    unfold getChannelByChannelId. simpl. rewrite map_get_app_None by done.
    simpl. by rewrite decide_True.
Qed.

(** Claim C1 at a window that registers ["svc"], is connected to, and tries
    to register ["svc"] again. *)
Lemma createChannel_registers_once_witness :
  ∃ s',
    createChannel resolveWindow win2 (Some "svc") initial =
      Ok svc2 s' [Emit (route_channel "channel-connected") svc2]
    ∧ createChannel resolveWindow win2 (Some "svc")
        (steps [OpConnectToChannel app1 connectSvc 1 (AckRef 0) (NackRef 0)] s').1
      = Throw nackString
          (steps [OpConnectToChannel app1 connectSvc 1 (AckRef 0) (NackRef 0)] s').1 [].
Proof.
  destruct (createChannel_registers_once resolveWindow win2 (Some "svc") initial) as [_ H].
  destruct (H (mkProviderApp "app2" (Some "win2") false) eq_refl eq_refl)
    as (s' & Hok & _ & Hagain).
  exists s'. split; [exact Hok|].
  apply Hagain; [|reflexivity]. simpl. split; [|exact I]. intros [].
Defined.

(** Claim C2 as stated fails: with a correlation entry for the key and
    [success: true], a payload of [0] resolves the entry's [ack] with
    [{ success: true }], without a [data] field. *)
Lemma sendChannelResult_falsy_payload_has_no_data :
  pendingConnect.(remoteAckMap) !! getAckKey zeroResult.(rp_correlationId)
                                   zeroResult.(rp_destinationToken)
    = Some (mkRemoteAck (AckRef 0) (NackRef 0)) ∧
  (outcome (sendChannelResult win2 zeroResult (AckRef 1) (NackRef 1) pendingConnect)).2
    = [CallAck (AckRef 0) (JObj [("success", JBool true)])] ∧
  (outcome (sendChannelResult win2 zeroResult (AckRef 1) (NackRef 1) pendingConnect)).2
    ≠ [CallAck (AckRef 0) (JObj [("success", JBool true); ("data", JNum 0)])].
Proof. vm_compute. split_and!; [reflexivity..|]. intros H. discriminate H. Qed.

(** Claim C2, amended. With [success: true] and a correlation entry for the
    key, [sendChannelResult] calls that entry's [ack] exactly once, with
    [{ success: true, data: payload }] when the payload is truthy and with
    [{ success: true }] when it is not, and removes the entry, leaving the
    rest of the state as it is; any later [sendChannelResult] with the same
    key calls its own caller's [nack] with the not-found message and changes
    nothing. A call whose key has no entry does the same. *)
Theorem sendChannelResult_resolves_once s identity payload ack nack :
  let ackKey := getAckKey payload.(rp_correlationId) payload.(rp_destinationToken) in
  (∀ remoteAck,
     payload.(rp_success) = true →
     s.(remoteAckMap) !! ackKey = Some remoteAck →
     ∃ s',
       sendChannelResult identity payload ack nack s =
         Ok tt s'
            [CallAck remoteAck.(Channel.ack)
               (JObj (("success", JBool true) ::
                      if truthy payload.(rp_payload)
                      then [("data", payload.(rp_payload))] else []))]
       ∧ s'.(remoteAckMap) = delete ackKey s.(remoteAckMap)
       ∧ s'.(channelMap) = s.(channelMap) ∧ s'.(watches) = s.(watches)
       ∧ ∀ identity' payload' ack' nack',
           getAckKey payload'.(rp_correlationId) payload'.(rp_destinationToken) = ackKey →
           sendChannelResult identity' payload' ack' nack' s' =
             Ok tt s' [CallNack nack'
                         (NackString "Ack failed, initial channel message not found.")])
  ∧
  (s.(remoteAckMap) !! ackKey = None →
   sendChannelResult identity payload ack nack s =
     Ok tt s [CallNack nack (NackString "Ack failed, initial channel message not found.")]).
Proof.
  intros ackKey. split.
  - intros remoteAck Hsuccess Hentry. eexists. split_and!.
    + unfold sendChannelResult. prog. fold ackKey. rewrite Hentry, Hsuccess. simpl.
      unfold remoteAckMap_delete. prog. reflexivity.
    + done.
    + done.
    + done.
    + intros identity' payload' ack' nack' Hkey.
      unfold sendChannelResult. prog. rewrite Hkey. fold ackKey.
      rewrite lookup_delete_eq. done.
  - intros Hnone. unfold sendChannelResult. prog. fold ackKey. by rewrite Hnone.
Qed.

(** Claim C2, amended, at the end-to-end scenario: the provider reports
    [{ ready: true }], then reports again. *)
Lemma sendChannelResult_resolves_once_witness :
  ∃ s',
    sendChannelResult win2 readyResult (AckRef 1) (NackRef 1) pendingConnect =
      Ok tt s' [CallAck (AckRef 0)
                  (JObj [("success", JBool true); ("data", JObj [("ready", JBool true)])])]
    ∧ sendChannelResult win2 readyResult (AckRef 2) (NackRef 2) s' =
      Ok tt s' [CallNack (NackRef 2)
                  (NackString "Ack failed, initial channel message not found.")].
Proof.
  destruct (sendChannelResult_resolves_once pendingConnect win2 readyResult
              (AckRef 1) (NackRef 1)) as [H _].
  destruct (H (mkRemoteAck (AckRef 0) (NackRef 0)) eq_refl) as (s' & Hok & _ & _ & _ & Hagain).
  { vm_compute. reflexivity. }
  exists s'. split; [exact Hok|]. apply Hagain. reflexivity.
Defined.

(** Claim C3 as stated fails: the one registered provider has the empty
    channelName, the call names that channelName, and nothing is forwarded
    and no entry is registered: the caller gets the ['internal-nack']. *)
Lemma connectToChannel_empty_channelName_not_forwarded :
  filter (λ channel, channel.(channelName) = connectUnnamed.(cp_channelName))
         (getAllChannels oneUnnamed) = [unnamed2] ∧
  connectToChannel app1 connectUnnamed 1 (AckRef 0) (NackRef 0) oneUnnamed
    = Ok None oneUnnamed [CallNack (NackRef 0) (NackString "internal-nack")].
Proof. split; vm_compute; reflexivity. Qed.

(** Claim C3, amended. When the channelName of the call is not empty and
    exactly one registered provider has it, [connectToChannel] forwards
    exactly one [process-channel-connection] message, to that provider's
    identity, and sets the entry under the key composed from the messageId
    and the requester's uuid and name, with no other change to the state. *)
Theorem connectToChannel_by_name_unique identity payload messageId ack nack s providerIdentity :
  truthyStr payload.(cp_channelName) = true →
  filter (λ channel, channel.(channelName) = payload.(cp_channelName)) (getAllChannels s)
    = [providerIdentity] →
  ∃ s',
    connectToChannel identity payload messageId ack nack s =
      Ok (Some providerIdentity) s'
         [SendToIdentity (mkIdentity providerIdentity.(p_uuid) providerIdentity.(p_name))
            (ConnectionMessage "process-channel-connection"
               (mkAckToSender "send-channel-result" messageId identity providerIdentity true)
               providerIdentity identity payload.(cp_payload))]
    ∧ s'.(remoteAckMap) =
        <[pretty messageId +:+ "-" +:+ identity.(uuid) +:+ "-" +:+ tpl identity.(name)
          := mkRemoteAck ack nack]> s.(remoteAckMap)
    ∧ s'.(channelMap) = s.(channelMap) ∧ s'.(watches) = s.(watches).
Proof.
  intros Hcn Hone. eexists. split.
  - apply connect_by_name; [done|].
    rewrite byChannelName_is_last.
    destruct (cp_channelName payload) as [c|]; [|done]. simpl.
    unfold getAllChannels in Hone. by rewrite Hone.
  - done.
Qed.

(** Claim C3, amended, at the end-to-end scenario: [app1] connects to
    ["svc"], registered by [app2/win2]. *)
Lemma connectToChannel_by_name_unique_witness :
  ∃ s',
    connectToChannel app1 connectSvc 1 (AckRef 0) (NackRef 0) oneSvc =
      Ok (Some svc2) s'
         [SendToIdentity win2
            (ConnectionMessage "process-channel-connection"
               (mkAckToSender "send-channel-result" 1 app1 svc2 true)
               svc2 app1 (JObj [("hello", JNum 1)]))]
    ∧ s'.(remoteAckMap) = <["1-app1-undefined" := mkRemoteAck (AckRef 0) (NackRef 0)]> ∅.
Proof.
  destruct (connectToChannel_by_name_unique app1 connectSvc 1 (AckRef 0) (NackRef 0)
              oneSvc svc2) as (s' & Hok & Hmap & _).
  - reflexivity.
  - vm_compute. reflexivity.
  - exists s'. split; [exact Hok|exact Hmap].
Defined.

(** Claim C4. When the lookup by channelName yields nothing, the call gives a
    uuid, and two or more registered providers match the identity,
    [connectToChannel] forwards no message, leaves the state (and so the
    correlation table) unchanged, and calls the caller's [nack] with the
    disambiguation message, which names the identity: [uuid/name], or the
    uuid alone when no name is given. *)
Theorem connectToChannel_ambiguous_identity identity payload messageId ack nack s :
  (truthyStr payload.(cp_channelName) = false ∨
   getChannelByChannelName (default "" payload.(cp_channelName)) s = None) →
  truthyStr payload.(cp_uuid) = true →
  1 < length (getChannelByIdentity
                (mkIdentity (default "" payload.(cp_uuid)) payload.(cp_name)) s) →
  ∃ tr,
    connectToChannel identity payload messageId ack nack s = Ok None s tr
    ∧ (∀ target message, SendToIdentity target message ∉ tr)
    ∧ CallNack nack
        (NackString
           ("More than one channel found for provider with identity: " +:+
            (if truthyStr payload.(cp_name)
             then default "" payload.(cp_uuid) +:+ "/" +:+ tpl payload.(cp_name)
             else default "" payload.(cp_uuid)) +:+
            ", please include a channelName")) ∈ tr.
Proof.
  intros Hname Huuid Hlen. eexists. split_and!.
  - by apply connect_ambiguous.
  - intros target message Hin. repeat (apply elem_of_cons in Hin as [Hin|Hin]; [done|]).
    by apply elem_of_nil in Hin.
  - apply list_elem_of_here.
Qed.

(** Claim C4 at a window with two channels, connected to by identity. *)
Lemma connectToChannel_ambiguous_identity_witness :
  ∃ tr,
    connectToChannel app1 connectWin2 1 (AckRef 0) (NackRef 0) twoOfWin2
      = Ok None twoOfWin2 tr
    ∧ CallNack (NackRef 0)
        (NackString "More than one channel found for provider with identity: app2/win2, please include a channelName")
      ∈ tr.
Proof.
  destruct (connectToChannel_ambiguous_identity app1 connectWin2 1 (AckRef 0) (NackRef 0)
              twoOfWin2) as (tr & Hok & _ & Hin).
  - left. reflexivity.
  - reflexivity.
  - vm_compute. lia.
  - exists tr. split; [exact Hok|exact Hin].
Defined.

(** Claim C10. With no channelName, or one that matches no provider, a uuid,
    and two or more providers matching the identity, [connectToChannel]
    calls the caller's [nack] twice in the one call: first with the
    disambiguation message, then with ['internal-nack']. *)
Theorem connectToChannel_ambiguous_nacks_twice identity payload messageId ack nack s :
  (truthyStr payload.(cp_channelName) = false ∨
   getChannelByChannelName (default "" payload.(cp_channelName)) s = None) →
  truthyStr payload.(cp_uuid) = true →
  1 < length (getChannelByIdentity
                (mkIdentity (default "" payload.(cp_uuid)) payload.(cp_name)) s) →
  (outcome (connectToChannel identity payload messageId ack nack s)).2 =
    [CallNack nack (NackString (disambiguation (default "" payload.(cp_uuid))
                                               payload.(cp_name)));
     CallNack nack (NackString "internal-nack")].
Proof.
  intros Hname Huuid Hlen. by rewrite connect_ambiguous.
Qed.

(** Claim C10 at a window with two channels, connected to by identity. *)
Lemma connectToChannel_ambiguous_nacks_twice_witness :
  (outcome (connectToChannel app1 connectWin2 1 (AckRef 0) (NackRef 0) twoOfWin2)).2 =
    [CallNack (NackRef 0)
       (NackString "More than one channel found for provider with identity: app2/win2, please include a channelName");
     CallNack (NackRef 0) (NackString "internal-nack")].
Proof.
  apply (connectToChannel_ambiguous_nacks_twice app1 connectWin2 1 (AckRef 0) (NackRef 0)
           twoOfWin2).
  - left. reflexivity.
  - reflexivity.
  - vm_compute. lia.
Defined.

(** Claim C8 as stated fails: two providers registered one after the other
    share the channelName ["svc"]; the first match in registration order is
    the first provider, and [getChannelByChannelName] returns the second. *)
Lemma getChannelByChannelName_returns_second :
  getAllChannels twoSvc = [svc2; svc3] ∧
  head (filter (λ channel, channel.(channelName) = Some "svc") (getAllChannels twoSvc))
    = Some svc2 ∧
  getChannelByChannelName "svc" twoSvc = Some svc3 ∧
  svc3 ≠ svc2.
Proof. split_and!; [vm_compute; reflexivity..|]. intros H. discriminate H. Qed.

(** Claim C8, amended. [getChannelByChannelName] returns the last provider
    with that channelName in the order of the registry, and is absent
    exactly when no provider has it; the order of the registry is the order
    of registration, a successful [createChannel] putting its provider at
    the end. *)
Theorem getChannelByChannelName_last_match channelName s :
  getChannelByChannelName channelName s =
    last (filter (λ channel, channel.(Channel.channelName) = Some channelName)
                 (getAllChannels s))
  ∧ (filter (λ channel, channel.(Channel.channelName) = Some channelName)
            (getAllChannels s) = [] ↔
     getChannelByChannelName channelName s = None)
  ∧ ∀ resolve identity channelName' providerIdentity s' tr,
      createChannel resolve identity channelName' s = Ok providerIdentity s' tr →
      getAllChannels s' = getAllChannels s ++ [providerIdentity].
Proof.
  unfold getChannelByChannelName, getAllChannels. rewrite fold_last_match. split_and!.
  - by destruct (last _).
  - rewrite <- last_None. by destruct (last _).
  - intros resolve identity cn providerIdentity s' tr Hok.
    destruct (createChannel_cases resolve identity cn s) as [H|(app & _ & _ & H)];
      rewrite H in Hok; [done|]. simplify_eq. simpl. by rewrite fmap_app.
Qed.

(** Claim C8, amended, at the registration of a second ["svc"]. *)
Lemma getChannelByChannelName_last_match_witness :
  getAllChannels twoSvc = getAllChannels oneSvc ++ [svc3].
Proof.
  apply (proj2 (proj2 (getChannelByChannelName_last_match "svc" oneSvc))
           resolveWindow win3 (Some "svc") svc3 twoSvc
           [Emit (route_channel "channel-connected") svc3]).
  vm_compute. reflexivity.
Defined.




End ChannelFacts.

(** ** The in-runtime transport strategy *)
Module ElipcFacts.
Import Elipc.

(** *** Sequences of events *)

Lemma steps_cons this ev evs s :
  steps this (ev :: evs) s =
  ((steps this evs (step this ev s).1).1,
   (step this ev s).2 ++ (steps this evs (step this ev s).1).2).
Proof.
  simpl. destruct (step this ev s) as [s1 tr1]. simpl.
  by destruct (steps this evs s1).
Qed.

Lemma steps_app this evs1 evs2 s :
  steps this (evs1 ++ evs2) s =
  ((steps this evs2 (steps this evs1 s).1).1,
   (steps this evs1 s).2 ++ (steps this evs2 (steps this evs1 s).1).2).
Proof.
  revert s. induction evs1 as [|ev evs1 IH]; intros s; simpl.
  - by destruct (steps this evs2 s).
  - destruct (step this ev s) as [s1 tr1]. rewrite IH.
    destruct (steps this evs1 s1) as [s2 tr2]. simpl.
    destruct (steps this evs2 s2) as [s3 tr3]. simpl. by rewrite app_assoc.
Qed.

Lemma outwardAcks_app tr1 tr2 :
  outwardAcks (tr1 ++ tr2) = outwardAcks tr1 ++ outwardAcks tr2.
Proof. apply omap_app. Qed.

Lemma dispatch_only_outward tr : Forall dispatch_only tr → outwardAcks tr = [].
Proof.
  induction 1 as [|ef tr Hef _ IH]; [done|].
  unfold outwardAcks in *. by destruct ef.
Qed.

(** *** The buffered message handler *)

(** [pendingFlush] is read by [add] and cleared by [flush], and set nowhere:
    every [add] queues a [flush] of its own. *)
Lemma add_always_schedules key identity frameRoutingId payload s :
  s.(pendingFlush) = false →
  ∃ s',
    add key identity frameRoutingId payload s = Ok tt s' [SetImmediateFlush]
    ∧ s'.(immediates) = S s.(immediates)
    ∧ s'.(pendingFlush) = false.
Proof.
  intros Hflag. unfold add. prog. rewrite Hflag. simpl.
  eexists. split_and!; try reflexivity. simpl. exact Hflag.
Qed.

Lemma pending_add key identity frameRoutingId payload s :
  ∃ s' tr,
    add key identity frameRoutingId payload s = Ok tt s' tr
    ∧ pending key s' = pending key s ++ [payload]
    ∧ outwardAcks tr = [].
Proof.
  unfold add. prog. destruct (pendingFlush s); simpl; do 2 eexists;
    (split; [reflexivity|]); unfold pending; simpl;
    rewrite map_get_set_eq; simpl; (split; [|done]);
    by destruct (map_get key (pendingMessages s)).
Qed.

(** *** The lookup of the action *)

Lemma lookup_registered this action endpoint :
  this.(actionMap) !! action = Some endpoint →
  actionMap_lookup this action = Some endpoint.
Proof. intros Hep. unfold actionMap_lookup. by rewrite Hep. Qed.

Lemma lookup_unregistered this action :
  this.(actionMap) !! action = None →
  action ∉ objectPrototype →
  actionMap_lookup this action = None.
Proof.
  intros Hnone Hown. unfold actionMap_lookup. rewrite Hnone.
  by rewrite bool_decide_false.
Qed.

(** *** Setting up a transaction *)

Lemma child_onMessage this e g m s :
  plain_request m →
  e.(appObjFound) = true →
  admitted this e m →
  ∃ tr,
    onMessage this e (Some g) m s
      = Ok tt (set_ackObjs (s.(ackObjs) ++ [delegateAck m]) s) tr
    ∧ Forall dispatch_only tr
    ∧ ∀ endpoint,
        this.(actionMap) !! m.(action) = Some endpoint →
        ∃ identity data,
          CallApiFunc endpoint identity data
            (deferred_fn g (length s.(ackObjs)))
            (nackDecorator (deferred_fn g (length s.(ackObjs)))) ∈ tr.
Proof.
  intros [Hsync Hplain] Happ Hadmitted. apply String.eqb_neq in Hplain.
  unfold admitted, frameCheck in Hadmitted.
  destruct m as [act mid sync sfo bcs msgs pl]. simpl in *. subst sync.
  unfold requestHandler_handle, handler, new_ackObj. prog.
  rewrite Hplain, Happ. simpl. rewrite String.eqb_refl. simpl.
  assert (default [mkBreadcrumb act mid "core/ackDelegate"]
            ((λ bs, bs ++ [mkBreadcrumb act mid "core/ackDelegate"]) <$> bcs)
          = default [] bcs ++ [mkBreadcrumb act mid "core/ackDelegate"]) as Hcrumbs
    by (by destruct bcs).
  unfold delegateAck, crumb; simpl; rewrite <- Hcrumbs. clear Hcrumbs.
  destruct (actionMap_lookup this act) as [ep|] eqn:Hlookup.
  - destruct Hadmitted as [?|Hcheck]; [done|]. rewrite Hcheck.
    destruct bcs; simpl; rewrite ?app_nil_r; eexists;
      (split; [reflexivity|]); (split; [repeat constructor|]);
      intros endpoint Hep; apply lookup_registered in Hep; simplify_eq;
      do 2 eexists; right; left.
  - destruct bcs; simpl; rewrite ?app_nil_r; eexists;
      (split; [reflexivity|]); (split; [repeat constructor|]);
      intros endpoint Hep; apply lookup_registered in Hep; congruence.
Qed.

Lemma children_onMessage this e g ms s :
  Forall plain_request ms →
  e.(appObjFound) = true →
  Forall (admitted this e) ms →
  ∃ tr,
    forEach (onMessage this e (Some g)) ms s
      = Ok tt (set_ackObjs (s.(ackObjs) ++ (delegateAck <$> ms)) s) tr
    ∧ Forall dispatch_only tr
    ∧ ∀ i m endpoint,
        ms !! i = Some m →
        this.(actionMap) !! m.(action) = Some endpoint →
        ∃ identity data,
          CallApiFunc endpoint identity data
            (deferred_fn g (length s.(ackObjs) + i))
            (nackDecorator (deferred_fn g (length s.(ackObjs) + i))) ∈ tr.
Proof.
  intros Hall Happ Hadmitted. revert s Hadmitted.
  induction Hall as [|m ms Hm _ IH]; intros s Hadmitted.
  - exists []. split_and!; [|constructor|done].
    simpl. unfold ret. rewrite app_nil_r. by destruct s.
  - apply Forall_cons in Hadmitted as [Hadm Hadmitted].
    destruct (child_onMessage this e g m s Hm Happ Hadm) as (tr1 & Hrun1 & Htr1 & Hcall1).
    destruct (IH (set_ackObjs (s.(ackObjs) ++ [delegateAck m]) s) Hadmitted)
      as (tr2 & Hrun2 & Htr2 & Hcall2).
    exists (tr1 ++ tr2). split_and!; [|by apply Forall_app|].
    + change (forEach (onMessage this e (Some g)) (m :: ms) s)
        with (bind (onMessage this e (Some g) m)
                   (λ _, forEach (onMessage this e (Some g)) ms) s).
      unfold bind. rewrite Hrun1, Hrun2. simpl. by rewrite <- app_assoc.
    + intros [|i] m' endpoint Hm' Hep; simpl in Hm'.
      * simplify_eq. destruct (Hcall1 endpoint Hep) as (identity & data & Hin).
        exists identity, data. rewrite Nat.add_0_r. apply elem_of_app. by left.
      * destruct (Hcall2 i m' endpoint Hm' Hep) as (identity & data & Hin).
        exists identity, data. simpl in Hin. rewrite length_app in Hin. simpl in Hin.
        replace (length (ackObjs s) + S i) with (length (ackObjs s) + 1 + i) by lia.
        apply elem_of_app. by right.
Qed.

Lemma transaction_onMessage this e data s :
  data.(action) = "api-transaction" →
  Forall plain_request data.(messages) →
  e.(appObjFound) = true →
  Forall (admitted this e) data.(messages) →
  ∃ tr pre,
    onMessage this e None data s =
      Ok tt
         (mkState (s.(mainAcks) ++ pre ++
                     [mkMainAck data.(messageId) data.(action) (transactionCrumbs data)
                                (BodyVal JUndefined)])
                  (s.(ackObjs) ++ (delegateAck <$> data.(messages)))
                  (s.(groups) ++
                     [mkDeferred [] (length data.(messages))
                                 (length s.(mainAcks) + length pre)])
                  s.(pendingMessages) s.(pendingFlush) s.(immediates))
         tr
    ∧ Forall dispatch_only tr
    ∧ ∀ i m endpoint,
        data.(messages) !! i = Some m →
        this.(actionMap) !! m.(action) = Some endpoint →
        ∃ identity data',
          CallApiFunc endpoint identity data' (subAck s i) (nackDecorator (subAck s i)) ∈ tr.
Proof.
  intros Hact Hall Happ Hvalid.
  destruct data as [act mid sync sfo bcs msgs pl]. simpl in *. subst act.
  unfold transactionCrumbs, crumb, subAck. simpl.
  unfold ackDecoratorDeferred, new_mainAck, new_group. prog. rewrite Happ. simpl.
  destruct bcs as [bs|]; destruct sync; simpl;
    match goal with
    | |- context [forEach _ msgs ?s0] =>
        destruct (children_onMessage this e (length (groups s)) msgs s0 Hall Happ Hvalid)
          as (tr & Hrun & Htr & Hcall)
    end;
    rewrite Hrun; simpl; simpl in Hcall.
  - eexists _, []. split_and!.
    + rewrite Nat.add_0_r. reflexivity.
    + repeat constructor; exact Htr.
    + intros i m endpoint Hm Hep. destruct (Hcall i m endpoint Hm Hep) as (? & ? & Hin).
      do 2 eexists. right. exact Hin.
  - eexists _, [_]. split_and!.
    + rewrite length_app, <- app_assoc. simpl. reflexivity.
    + repeat constructor; exact Htr.
    + intros i m endpoint Hm Hep. destruct (Hcall i m endpoint Hm Hep) as (? & ? & Hin).
      do 2 eexists. right. exact Hin.
  - eexists _, []. split_and!.
    + rewrite Nat.add_0_r. reflexivity.
    + repeat constructor; exact Htr.
    + intros i m endpoint Hm Hep. destruct (Hcall i m endpoint Hm Hep) as (? & ? & Hin).
      do 2 eexists. right. exact Hin.
  - eexists _, [_]. split_and!.
    + rewrite length_app, <- app_assoc. simpl. reflexivity.
    + repeat constructor; exact Htr.
    + intros i m endpoint Hm Hep. destruct (Hcall i m endpoint Hm Hep) as (? & ? & Hin).
      do 2 eexists. right. exact Hin.
Qed.

(** *** The calls of the delegate's closures *)

Lemma deferred_call_more e g r v s obj grp :
  s.(ackObjs) !! r = Some obj →
  s.(groups) !! g = Some grp →
  S (length grp.(deferredAcks)) ≠ grp.(totalAcksExpected) →
  deferred_call e g r v s = Ok tt (push_ack g r v obj grp s) [].
Proof.
  intros Hobj Hgrp Hmore. unfold deferred_call, bind, get, modify, ret.
  rewrite Hobj, Hgrp. cbn beta iota.
  rewrite bool_decide_false by (rewrite length_app; simpl; lia). reflexivity.
Qed.

Lemma deferred_call_full e g r v s obj grp :
  s.(ackObjs) !! r = Some obj →
  s.(groups) !! g = Some grp →
  S (length grp.(deferredAcks)) = grp.(totalAcksExpected) →
  deferred_call e g r v s =
  let s' := push_ack g r v obj grp s in
  let body :=
    BodyAggregate true (omap (λ r, s'.(ackObjs) !! r) (grp.(deferredAcks) ++ [r])) in
  match ackDecorator_call e grp.(mainAck) body s' with
  | Ok a s2 tr => Ok a s2 (CalledAck (ackDecorator_fn grp.(mainAck)) body :: tr)
  | Throw msg s2 tr => Throw msg s2 (CalledAck (ackDecorator_fn grp.(mainAck)) body :: tr)
  end.
Proof.
  intros Hobj Hgrp Hfull. unfold deferred_call, bind, get, modify, ret, effect.
  rewrite Hobj, Hgrp. cbn beta iota.
  rewrite bool_decide_true by (rewrite length_app; simpl; lia).
  cbn beta iota zeta. unfold push_ack.
  destruct (ackDecorator_call _ _ _ _); reflexivity.
Qed.

Section Deferred.
Context (this : Strategy) (ms : list Data) (g base m : nat) (main : MainAck).
Implicit Types (done cs : list Completion) (c : Completion) (s : State).

Lemma completed_crumbs sub v :
  mkAckMessage (delegateAck sub).(correlationId) (delegateAck sub).(originalAction)
    ((delegateAck sub).(ack_breadcrumbs) ++
       [mkBreadcrumb (delegateAck sub).(originalAction) (delegateAck sub).(correlationId)
                     "core/deferredACK"]) v
  = completedAck sub v.
Proof. unfold completedAck, delegateAck, crumb. simpl. by rewrite <- app_assoc. Qed.

Lemma underway_step done s c sub :
  Underway ms g base m main done s →
  ms !! c.(c_index) = Some sub →
  c.(c_index) ∉ c_index <$> done →
  Underway ms g base m main (done ++ [c])
    (set_groups (<[g := mkDeferred ((λ c, base + c.(c_index)) <$> (done ++ [c]))
                                   (length ms) m]> s.(groups))
       (set_ackObjs (<[base + c.(c_index) := completedAck sub c.(c_payload)]> s.(ackObjs)) s)).
Proof.
  intros [Hg Hdone Htodo Hmain] Hsub Hfresh. split; simpl.
  - apply list_lookup_insert_eq. by eapply lookup_lt_Some.
  - intros c' sub' Hin Hsub'. apply elem_of_app in Hin as [Hin|Hin].
    + rewrite list_lookup_insert_ne; [by apply Hdone|].
      intros Heq. apply Hfresh. apply list_elem_of_fmap. exists c'. split; [lia|done].
    + apply list_elem_of_singleton in Hin as ->. simplify_eq.
      apply list_lookup_insert_eq. eapply lookup_lt_Some. by apply Htodo.
  - intros i sub' Hsub' Hnot. rewrite fmap_app in Hnot.
    rewrite list_lookup_insert_ne.
    + apply Htodo; [done|]. intros Hin. apply Hnot. apply elem_of_app. by left.
    + intros Heq. apply Hnot. apply elem_of_app. right. simpl.
      apply list_elem_of_singleton. lia.
  - done.
Qed.

Lemma collected_data (l : list Completion) s :
  (∀ c sub, c ∈ l → ms !! c.(c_index) = Some sub →
     s.(ackObjs) !! (base + c.(c_index)) = Some (completedAck sub c.(c_payload))) →
  Forall (λ c, c.(c_index) < length ms) l →
  omap (λ r, s.(ackObjs) !! r) ((λ c, base + c.(c_index)) <$> l)
    = completedAcks ms l.
Proof.
  unfold completedAcks. induction l as [|c l IH]; intros Hdone Hrange; [done|].
  apply Forall_cons in Hrange as [Hc Hrange].
  destruct (lookup_lt_is_Some_2 ms _ Hc) as [sub Hlook].
  simpl. rewrite Hlook. simpl.
  rewrite (Hdone c sub) by (done || left).
  f_equal. apply IH; [|done]. intros c' sub' Hin. apply Hdone. by right.
Qed.

Lemma underway_data done s :
  Underway ms g base m main done s →
  Forall (λ c, c.(c_index) < length ms) done →
  omap (λ r, s.(ackObjs) !! r) ((λ c, base + c.(c_index)) <$> done)
    = completedAcks ms done.
Proof. intros [_ Hdone _ _]. by apply collected_data. Qed.

(** A completion that is not the last one expected only records the
    acknowledgement. *)
Lemma call_not_last done s c sub :
  Underway ms g base m main done s →
  ms !! c.(c_index) = Some sub →
  c.(c_index) ∉ c_index <$> done →
  S (length done) ≠ length ms →
  ∃ s',
    step this (call g base c) s =
      (s', [CalledAck (deferred_fn g (base + c.(c_index))) (BodyVal c.(c_payload))])
    ∧ Underway ms g base m main (done ++ [c]) s'
    ∧ s'.(pendingMessages) = s.(pendingMessages)
    ∧ s'.(pendingFlush) = s.(pendingFlush)
    ∧ s'.(immediates) = s.(immediates).
Proof.
  intros Huw Hsub Hfresh Hnot.
  pose proof (underway_step done s c sub Huw Hsub Hfresh) as Huw'.
  destruct Huw as [Hg Hdone Htodo Hmain].
  unfold call, step, callAck. unfold bind at 1, effect at 1. cbn beta iota.
  rewrite (deferred_call_more _ _ _ _ _ _ _ (Htodo _ _ Hsub Hfresh) Hg)
    by (simpl; rewrite length_fmap; done).
  unfold push_ack. rewrite completed_crumbs. simpl. eexists. split; [reflexivity|].
  rewrite fmap_app in Huw'. simpl in Huw'. split_and!; done.
Qed.

(** The completion that brings the count to the number expected calls the
    main acknowledgement, with the objects collected, in order. *)
Lemma call_last done s c sub :
  Underway ms g base m main done s →
  Forall (λ c, c.(c_index) < length ms) done →
  ms !! c.(c_index) = Some sub →
  c.(c_index) ∉ c_index <$> done →
  S (length done) = length ms →
  ∃ s' tr,
    step this (call g base c) s = (s', tr)
    ∧ outwardAcks tr = [BodyAggregate true (completedAcks ms (done ++ [c]))]
    ∧ (c.(c_event).(senderDestroyed) = false →
       pending (bufferKey c.(c_event).(ownerBrowserWindow)
                          (Some c.(c_event).(frameRoutingId))) s'
       = pending (bufferKey c.(c_event).(ownerBrowserWindow)
                            (Some c.(c_event).(frameRoutingId))) s ++
         [JsonAck (mkMainAck main.(m_correlationId) main.(m_originalAction)
                     (main.(m_breadcrumbs) ++
                        [mkBreadcrumb main.(m_originalAction) main.(m_correlationId)
                                      "core/ACK"])
                     (BodyAggregate true (completedAcks ms (done ++ [c]))))]).
Proof.
  intros Huw Hrange Hsub Hfresh Hlast.
  pose proof (underway_step done s c sub Huw Hsub Hfresh) as Huw'.
  assert (Forall (λ c, c_index c < length ms) (done ++ [c])) as Hrange'.
  { apply Forall_app. split; [done|]. constructor; [|done]. by eapply lookup_lt_Some. }
  pose proof (underway_data _ _ Huw' Hrange') as Hdata.
  destruct Huw as [Hg Hdone Htodo Hmain].
  unfold call, step, callAck. unfold bind at 1, effect at 1. cbn beta iota.
  rewrite (deferred_call_full _ _ _ _ _ _ _ (Htodo _ _ Hsub Hfresh) Hg)
    by (simpl; rewrite length_fmap; done).
  unfold push_ack. rewrite completed_crumbs. cbn beta iota zeta.
  simpl in Hdata. rewrite fmap_app in Hdata. simpl in Hdata. simpl. rewrite Hdata.
  unfold ackDecorator_call. prog. rewrite Hmain. simpl.
  destruct (senderDestroyed (c_event c)) eqn:Hdestroyed; simpl.
  - do 2 eexists. split; [reflexivity|]. split; [done|]. intros; done.
  - match goal with
    | |- context [add ?k ?i ?f ?p ?s0] =>
        destruct (pending_add k i f p s0) as (s' & tr & Hadd & Hpending & Htr)
    end.
    rewrite Hadd. simpl. do 2 eexists. split; [reflexivity|]. split.
    + simpl. unfold outwardAcks in *. rewrite Htr. done.
    + intros _. rewrite Hpending. done.
Qed.

(** Completions short of the number expected. *)
Lemma run_partial done cs s :
  Underway ms g base m main done s →
  NoDup (c_index <$> (done ++ cs)) →
  Forall (λ c, c.(c_index) < length ms) cs →
  length (done ++ cs) < length ms →
  ∃ s' tr,
    steps this (call g base <$> cs) s = (s', tr)
    ∧ Underway ms g base m main (done ++ cs) s'
    ∧ outwardAcks tr = []
    ∧ s'.(pendingMessages) = s.(pendingMessages)
    ∧ s'.(pendingFlush) = s.(pendingFlush)
    ∧ s'.(immediates) = s.(immediates).
Proof.
  revert done s. induction cs as [|c cs IH]; intros done s Huw Hnodup Hrange Hlen.
  - exists s, []. rewrite app_nil_r. by split_and!.
  - apply Forall_cons in Hrange as [Hc Hrange].
    destruct (lookup_lt_is_Some_2 ms _ Hc) as [sub Hsub].
    rewrite fmap_app in Hnodup. apply NoDup_app in Hnodup as Hparts.
    destruct Hparts as (_ & Hdisj & _).
    assert (c_index c ∉ c_index <$> done) as Hfresh.
    { intros Hin. apply (Hdisj _ Hin). simpl. left. }
    rewrite length_app in Hlen. simpl in Hlen.
    destruct (call_not_last done s c sub Huw Hsub Hfresh)
      as (s1 & Hstep & Huw1 & Hp1 & Hf1 & Hi1); [lia|].
    destruct (IH (done ++ [c]) s1 Huw1) as (s2 & tr2 & Hrun & Huw2 & Hout & Hp2 & Hf2 & Hi2).
    + rewrite <- app_assoc. simpl. by rewrite fmap_app.
    + done.
    + rewrite <- app_assoc, length_app. simpl. lia.
    + exists s2, (CalledAck (deferred_fn g (base + c_index c)) (BodyVal (c_payload c)) :: tr2).
      rewrite fmap_cons, steps_cons, Hstep. simpl. rewrite Hrun. simpl.
      rewrite <- app_assoc in Huw2. simpl in Huw2.
      split_and!; [done|done|exact Hout|congruence..].
Qed.
End Deferred.

(** *** The claims on the strategy *)

(** Claim C5 as stated fails: a transaction with no sub-messages has all of
    its (zero) acknowledgements collected at once, and no aggregate
    acknowledgement is ever made: nothing is queued, and the tick sends
    nothing. *)
Lemma empty_transaction_never_acknowledged :
  length emptyTransaction.(messages) = 0 ∧
  steps strategy0 [Inbound event7 emptyTransaction; TickEnds routing0] initial =
    (mkState
       [mkMainAck 100 "api-transaction" [mkBreadcrumb "api-transaction" 100 "core/ackDecorator"]
                  (BodyVal JUndefined);
        mkMainAck 100 "api-transaction" [mkBreadcrumb "api-transaction" 100 "core/ackDecorator"]
                  (BodyVal JUndefined)]
       [] [mkDeferred [] 0 1] [] false 0,
     [DebugLog (LogReceived event7
                  (mkRequestIdentity (Some "main") (Some "app7") (Some "main") "window" true)
                  emptyTransaction)]).
Proof. split; vm_compute; reflexivity. Qed.

(** A synchronous sub-message does not take part: its handler is handed the
    closure of [ackDecoratorSync], its acknowledgement is returned inline,
    and the transaction it is in never completes. *)
Lemma sync_sub_message_returns_inline :
  returned (steps strategy0
              [Inbound event7 syncInside;
               HandlerAcks event7 (ackDecoratorSync_fn 1) (JStr "9.0")] initial).2
    = [JsonSyncAck 1 (JStr "9.0")] ∧
  outwardAcks (steps strategy0
                 [Inbound event7 syncInside;
                  HandlerAcks event7 (ackDecoratorSync_fn 1) (JStr "9.0")] initial).2
    = [] ∧
  (steps strategy0
     [Inbound event7 syncInside;
      HandlerAcks event7 (ackDecoratorSync_fn 1) (JStr "9.0")] initial).1.(groups)
    = [mkDeferred [] 1 1].
Proof. split_and!; vm_compute; reflexivity. Qed.

(** Nor does a sub-message that is itself a transaction: it is acknowledged
    through a main acknowledgement of its own, and the outer transaction
    never completes. *)
Lemma nested_transaction_acknowledged_on_its_own :
  outwardAcks (steps strategy0
                 [Inbound event7 nestedInside;
                  HandlerAcks event7 (deferred_fn 1 1) (JStr "one")] initial).2
    = [BodyAggregate true [completedAck (getVersion 1) (JStr "one")]] ∧
  (steps strategy0
     [Inbound event7 nestedInside;
      HandlerAcks event7 (deferred_fn 1 1) (JStr "one")] initial).1.(groups)
    = [mkDeferred [] 1 1; mkDeferred [1] 1 2].
Proof. split_and!; vm_compute; reflexivity. Qed.

(** Claim C5, amended. Take a transaction whose sub-messages are asynchronous
    requests, none of them a transaction and none rejected by the frame
    check. Receiving it makes no acknowledgement and queues nothing, and
    hands the handler of sub-message [i] the closure [subAck s i].
    Let the closures then be called, each at most once, in any order. While
    fewer calls than sub-messages have been made, no acknowledgement goes out
    and nothing is queued. With the call that brings the count to the number
    of sub-messages, exactly one goes out: the aggregate
    [{ success: true, data }], whose [data] are the acknowledgement objects
    of the sub-messages in the order of the calls; it is queued for the
    sender when the sender is not destroyed at that call. *)
Theorem transaction_aggregate this e data s cs :
  data.(action) = "api-transaction" →
  Forall plain_request data.(messages) →
  Forall (admitted this e) data.(messages) →
  e.(appObjFound) = true →
  NoDup (c_index <$> cs) →
  Forall (λ c, c.(c_index) < length data.(messages)) cs →
  ∃ s1 tr1,
    onMessage this e None data s = Ok tt s1 tr1
    ∧ outwardAcks tr1 = []
    ∧ s1.(pendingMessages) = s.(pendingMessages)
    ∧ (∀ i m endpoint,
         data.(messages) !! i = Some m →
         this.(actionMap) !! m.(action) = Some endpoint →
         ∃ identity data',
           CallApiFunc endpoint identity data' (subAck s i) (nackDecorator (subAck s i))
             ∈ tr1)
    ∧ (length cs < length data.(messages) →
       outwardAcks (steps this (completes s <$> cs) s1).2 = [] ∧
       (steps this (completes s <$> cs) s1).1.(pendingMessages) = s.(pendingMessages))
    ∧ (length cs = length data.(messages) →
       ∀ c, last cs = Some c →
       outwardAcks (steps this (completes s <$> cs) s1).2
         = [BodyAggregate true (completedAcks data.(messages) cs)] ∧
       (c.(c_event).(senderDestroyed) = false →
        pending (bufferKey c.(c_event).(ownerBrowserWindow)
                           (Some c.(c_event).(frameRoutingId)))
                (steps this (completes s <$> cs) s1).1
        = pending (bufferKey c.(c_event).(ownerBrowserWindow)
                             (Some c.(c_event).(frameRoutingId))) s
          ++ [JsonAck (aggregateAck data cs)])).
Proof.
  intros Hact Hplain Hvalid Happ Hnodup Hrange.
  destruct (transaction_onMessage this e data s Hact Hplain Happ Hvalid)
    as (tr1 & pre & Hrun & Htr1 & Hcalls).
  set (main := mkMainAck (messageId data) (action data) (transactionCrumbs data)
                         (BodyVal JUndefined)) in *.
  set (m := length (mainAcks s) + length pre) in *.
  set (g := length (groups s)). set (base := length (ackObjs s)).
  eexists _, tr1. split; [exact Hrun|].
  split; [by apply dispatch_only_outward|]. split; [done|]. split; [exact Hcalls|].
  match type of Hrun with _ = Ok _ ?s0 _ => set (s1 := s0) end.
  assert (Underway data.(messages) g base m main [] s1) as Huw.
  { split; simpl.
    - rewrite lookup_app_r by done. by rewrite Nat.sub_diag.
    - intros c sub Hin. by apply elem_of_nil in Hin.
    - intros i sub Hsub _. rewrite lookup_app_r by lia.
      replace (base + i - length (ackObjs s)) with i by (unfold base; lia).
      by rewrite list_lookup_fmap, Hsub.
    - rewrite lookup_app_r by (unfold m; lia). rewrite lookup_app_r by (unfold m; lia).
      replace (m - length (mainAcks s) - length pre) with 0 by (unfold m; lia). done. }
  assert (completes s = call g base) as -> by done.
  split.
  - intros Hlen.
    destruct (run_partial this _ g base m main [] cs s1 Huw)
      as (s2 & tr2 & Hsteps & _ & Hout & Hpend & _); [done..|].
    rewrite Hsteps. simpl. split; [done|]. by rewrite Hpend.
  - intros Hlen c Hlast.
    apply last_Some in Hlast as [cs' ->].
    rewrite fmap_app, steps_app.
    rewrite length_app in Hlen. simpl in Hlen.
    apply Forall_app in Hrange as [Hrange' Hc]. apply Forall_cons in Hc as [Hc _].
    destruct (lookup_lt_is_Some_2 _ _ Hc) as [sub Hsub].
    destruct (run_partial this _ g base m main [] cs' s1 Huw)
      as (s2 & tr2 & Hsteps & Huw2 & Hout & Hpend & _).
    { simpl. rewrite fmap_app in Hnodup. by apply NoDup_app in Hnodup as (? & _). }
    { done. }
    { simpl. lia. }
    simpl in Huw2. rewrite Hsteps. cbn [fst snd].
    change (call g base <$> [c]) with [call g base c]. rewrite steps_cons.
    destruct (call_last this _ g base m main cs' s2 c sub Huw2 Hrange' Hsub)
      as (s3 & tr3 & Hstep & Hout3 & Hpend3).
    { rewrite fmap_app in Hnodup. apply NoDup_app in Hnodup as (_ & Hdisj & _).
      intros Hin. apply (Hdisj _ Hin). simpl. left. }
    { lia. }
    rewrite Hstep. cbn [fst snd steps]. rewrite app_nil_r, outwardAcks_app, Hout, Hout3.
    split; [done|]. intros Halive. rewrite (Hpend3 Halive).
    unfold pending. rewrite Hpend. reflexivity.
Qed.

(** Claim C5, amended, at a transaction of two requests whose handlers
    complete in the reverse order. *)
Lemma transaction_aggregate_witness :
  ∃ s1 tr1,
    onMessage strategy0 event7 None twoRequests initial = Ok tt s1 tr1
    ∧ outwardAcks (steps strategy0 (completes initial <$> secondThenFirst) s1).2
      = [BodyAggregate true [completedAck (getVersion 2) (JStr "two");
                             completedAck (getVersion 1) (JStr "one")]]
    ∧ pending "7 - 1" (steps strategy0 (completes initial <$> secondThenFirst) s1).1
      = [JsonAck (aggregateAck twoRequests secondThenFirst)].
Proof.
  destruct (transaction_aggregate strategy0 event7 twoRequests initial secondThenFirst)
    as (s1 & tr1 & Hrun & _ & _ & _ & _ & Hfull).
  - reflexivity.
  - repeat constructor; simpl; discriminate.
  - repeat constructor; right; reflexivity.
  - reflexivity.
  - simpl. apply NoDup_cons. split; [|apply NoDup_singleton].
    intros H. apply list_elem_of_singleton in H. discriminate H.
  - repeat constructor; simpl; lia.
  - destruct (Hfull eq_refl (mkCompletion event7 0 (JStr "one")) eq_refl) as [Hout Hpend].
    exists s1, tr1. split; [exact Hrun|]. split; [exact Hout|]. exact (Hpend eq_refl).
Defined.

(** Claim C6, on the code: three payloads enqueued for one destination within
    a tick go out in three transport sends, the batch of the three in enqueue
    order and then two empty batches; payloads enqueued for two destinations
    go out in four sends, a batch and then an empty batch for each. *)
Theorem three_enqueues_send_three_batches :
  sends (steps strategy0
           [Sends routing0 main7 (JStr "p1");
            Sends routing0 main7 (JStr "p2");
            Sends routing0 main7 (JStr "p3");
            TickEnds routing0] initial).2
  = [BrowserWindowSend 7
       (mkBatchMessage "process-api-batch"
          [JsonVal (JStr "p1"); JsonVal (JStr "p2"); JsonVal (JStr "p3")]);
     BrowserWindowSend 7 (mkBatchMessage "process-api-batch" []);
     BrowserWindowSend 7 (mkBatchMessage "process-api-batch" [])]
  ∧
  sends (steps strategy0
           [Sends routing0 main7 (JStr "p1");
            Sends routing0 main8 (JStr "q1");
            TickEnds routing0] initial).2
  = [BrowserWindowSend 7 (mkBatchMessage "process-api-batch" [JsonVal (JStr "p1")]);
     BrowserWindowSend 8 (mkBatchMessage "process-api-batch" [JsonVal (JStr "q1")]);
     BrowserWindowSend 7 (mkBatchMessage "process-api-batch" []);
     BrowserWindowSend 8 (mkBatchMessage "process-api-batch" [])].
Proof. split; vm_compute; reflexivity. Qed.

(** Claim C9 as stated fails. No endpoint is registered for [toString], yet
    the handler finds the member of that name every object inherits. From a
    frame that passes the frame check the promise chain evaluates
    [endpoint.apiFunc] on it; the call throws, the chain rejects, [nack] is
    called and the failure acknowledgement is sent when the tick ends. From
    a frame that fails the check [nack] is called during dispatch. *)
Lemma inherited_action_name_is_nacked :
  toStringRequest.(action) ≠ "api-transaction"
  ∧ strategy0.(actionMap) !! toStringRequest.(action) = None
  ∧ CallApiFunc (Inherited "toString") identity7 toStringRequest
      toStringPackage.(mp_ack) toStringPackage.(mp_nack)
      ∈ (step strategy0 (Inbound event7 toStringRequest) initial).2
  ∧ (let tr := (steps strategy0 [Inbound event7 toStringRequest;
                                 Settles event7 toStringPackage (Rejected typeError);
                                 TickEnds routing0] initial).2 in
     CalledNack toStringPackage.(mp_nack) typeError ∈ tr
     ∧ outwardAcks tr = [BodyVal (NackPayload typeError)]
     ∧ length (sends tr) = 1)
  ∧ (let tr := (steps strategy0 [Inbound otherFrame7 toStringRequest;
                                 TickEnds routing0] initial).2 in
     CalledNack toStringPackage.(mp_nack) (JStr superseded) ∈ tr
     ∧ outwardAcks tr = [BodyVal (NackPayload (JStr superseded))]
     ∧ length (sends tr) = 1)
  ∧ ¬ (∃ s' tr,
         onMessage strategy0 event7 None toStringRequest initial = Ok tt s' tr
         ∧ Forall quiet tr)
  ∧ ¬ (∃ s' tr,
         onMessage strategy0 otherFrame7 None toStringRequest initial = Ok tt s' tr
         ∧ Forall quiet tr).
Proof.
  split_and!.
  - intros H. discriminate H.
  - vm_compute. reflexivity.
  - vm_compute. repeat constructor.
  - vm_compute. split_and!; [repeat constructor|reflexivity|reflexivity].
  - vm_compute. split_and!; [repeat constructor|reflexivity|reflexivity].
  - intros (s' & tr & Hrun & Hquiet). vm_compute in Hrun.
    injection Hrun as _ <-. rewrite !Forall_cons in Hquiet. simpl in Hquiet. tauto.
  - intros (s' & tr & Hrun & Hquiet). vm_compute in Hrun.
    injection Hrun as _ <-. rewrite !Forall_cons in Hquiet. simpl in Hquiet. tauto.
Qed.

(** Claim C9, amended. An inbound message that is not a transaction and
    whose action has no entry in the action map and is not the name of a
    member inherited from [Object.prototype] leaves only diagnostics: no
    handler is invoked, neither [ack] nor [nack] is called, nothing is
    returned to a synchronous caller, and nothing is queued or scheduled. *)
Theorem unregistered_action_dropped this e ackDelegate data s :
  data.(action) ≠ "api-transaction" →
  this.(actionMap) !! data.(action) = None →
  data.(action) ∉ objectPrototype →
  ∃ s' tr,
    onMessage this e ackDelegate data s = Ok tt s' tr
    ∧ Forall quiet tr
    ∧ s'.(groups) = s.(groups)
    ∧ s'.(pendingMessages) = s.(pendingMessages)
    ∧ s'.(pendingFlush) = s.(pendingFlush)
    ∧ s'.(immediates) = s.(immediates).
Proof.
  intros Hplain Hnone Hown.
  apply String.eqb_neq in Hplain.
  pose proof (lookup_unregistered _ _ Hnone Hown) as Hlookup.
  destruct data as [act mid sync sfo bcs msgs pl]. simpl in *.
  unfold requestHandler_handle, handler. prog. rewrite Hplain. simpl.
  rewrite String.eqb_refl. simpl. rewrite Hlookup.
  destruct sync; simpl.
  - destruct (appObjFound e); simpl; do 2 eexists; split_and!;
      try reflexivity; repeat constructor.
  - destruct ackDelegate as [g|]; unfold new_ackObj, new_mainAck; prog;
      destruct (appObjFound e); simpl; do 2 eexists; split_and!;
      try reflexivity; repeat constructor.
Qed.

(** Claim C9, amended, at a request for an action nobody registered. *)
Lemma unregistered_action_dropped_witness :
  ∃ s' tr,
    onMessage strategy0 event7 None unknownRequest initial = Ok tt s' tr
    ∧ Forall quiet tr
    ∧ s'.(pendingMessages) = [].
Proof.
  destruct (unregistered_action_dropped strategy0 event7 None unknownRequest initial)
    as (s' & tr & Hrun & Hquiet & _ & Hpending & _).
  - intros H. discriminate H.
  - vm_compute. reflexivity.
  - apply (bool_decide_unpack _). vm_compute. exact I.
  - exists s', tr. split_and!; [exact Hrun|exact Hquiet|exact Hpending].
Defined.

End ElipcFacts.

(** * Further properties of the code *)

(** ** Invariants of calls *)
Section SatRules.
Context {S E : Type}.

Lemma sat_ret {A} (I : S → Prop) (Q : E → Prop) (a : A) : sat I Q (ret a).
Proof. intros s Hs. by split. Qed.

Lemma sat_get (I : S → Prop) (Q : E → Prop) : sat I Q get.
Proof. intros s Hs. by split. Qed.

Lemma sat_modify (I : S → Prop) (Q : E → Prop) (f : S → S) :
  (∀ s, I s → I (f s)) → sat I Q (modify f).
Proof. intros Hf s Hs. split; [by apply Hf|done]. Qed.

Lemma sat_effect (I : S → Prop) (Q : E → Prop) (e : E) : Q e → sat I Q (effect e).
Proof. intros He s Hs. split; [done|]. by repeat constructor. Qed.

Lemma sat_bind {A B} (I : S → Prop) (Q : E → Prop) (m : Prog S E A) (k : A → Prog S E B) :
  sat I Q m → (∀ a, sat I Q (k a)) → sat I Q (bind m k).
Proof.
  intros Hm Hk s Hs. unfold bind. destruct (Hm s Hs) as [Hs1 Htr1].
  destruct (m s) as [a s1 tr1|msg s1 tr1]; simpl in *; [|done].
  destruct (Hk a s1 Hs1) as [Hs2 Htr2].
  destruct (k a s1) as [b s2 tr2|msg s2 tr2]; simpl in *;
    (split; [done|by apply Forall_app]).
Qed.

Lemma sat_forEach {A} (I : S → Prop) (Q : E → Prop) (f : A → Prog S E unit) (l : list A) :
  Forall (λ x, sat I Q (f x)) l → sat I Q (forEach f l).
Proof.
  induction 1 as [|x l Hx _ IH]; [apply sat_ret|].
  change (forEach f (x :: l)) with (bind (f x) (λ _, forEach f l)).
  by apply sat_bind.
Qed.
End SatRules.

Ltac sat_auto :=
  repeat match goal with
         | |- sat _ _ (ret _) => apply sat_ret
         | |- sat _ _ get => apply sat_get
         | |- sat _ _ (bind _ _) => apply sat_bind; [|intros ?]
         | |- sat _ _ (match ?x with _ => _ end) => destruct x
         end.

(** ** Keys and order of a JS [Map] *)
Section JsMapKeys.
Context {V : Type}.
Implicit Types (m : list (string * V)) (k : string) (v : V).

Lemma map_get_None_keys k m : map_get k m = None ↔ k ∉ m.*1.
Proof.
  induction m as [|[k0 v0] m IH]; simpl.
  - split; [intros _; apply not_elem_of_nil|done].
  - destruct (decide (k0 = k)) as [->|Hne].
    + split; [done|]. intros H. exfalso. apply H. left.
    + rewrite IH. rewrite not_elem_of_cons. split.
      * intros H. split; [congruence|done].
      * intros [_ H]. exact H.
Qed.

Lemma map_get_Some_elem k v m : map_get k m = Some v → (k, v) ∈ m.
Proof.
  induction m as [|[k0 v0] m IH]; simpl; [done|].
  destruct (decide (k0 = k)) as [->|Hne].
  - intros [= ->]. left.
  - intros H. right. by apply IH.
Qed.

Lemma map_get_elem_NoDup k v m : NoDup m.*1 → (k, v) ∈ m → map_get k m = Some v.
Proof.
  induction m as [|[k0 v0] m IH]; simpl; intros Hnd Hin.
  - by apply elem_of_nil in Hin.
  - apply NoDup_cons in Hnd as [Hfresh Hnd].
    apply elem_of_cons in Hin as [[= <- <-]|Hin].
    + by rewrite decide_True.
    + destruct (decide (k0 = k)) as [->|Hne]; [|by apply IH].
      exfalso. apply Hfresh. apply list_elem_of_fmap. by exists (k, v).
Qed.

Lemma map_set_keys k v m :
  (map_set k v m).*1 = if decide (k ∈ m.*1) then m.*1 else m.*1 ++ [k].
Proof.
  induction m as [|[k0 v0] m IH].
  - destruct (decide (k ∈ ([] : list (string * V)).*1)) as [Hin|_]; [|done].
    by apply elem_of_nil in Hin.
  - cbn [map_set]. destruct (decide (k0 = k)) as [->|Hne].
    + destruct (decide (k ∈ ((k, v0) :: m).*1)) as [_|Hout]; [done|].
      exfalso. apply Hout. left.
    + rewrite fmap_cons, IH. change (((k0, v0) :: m).*1) with (k0 :: m.*1).
      change ((k0, v0).1) with k0.
      destruct (decide (k ∈ m.*1)) as [Hin|Hout].
      * rewrite decide_True; [done|by right].
      * rewrite decide_False; [done|]. intros Hin. apply elem_of_cons in Hin as [->|Hin]; done.
Qed.

Lemma map_set_NoDup k v m : NoDup m.*1 → NoDup (map_set k v m).*1.
Proof.
  intros Hnd. rewrite map_set_keys. destruct (decide (k ∈ m.*1)) as [Hin|Hout]; [done|].
  apply NoDup_app. split_and!; [done| |apply NoDup_singleton].
  intros x Hx Hk. apply list_elem_of_singleton in Hk as ->. done.
Qed.

Lemma map_get_middle k v m1 m2 : k ∉ m1.*1 → map_get k (m1 ++ (k, v) :: m2) = Some v.
Proof.
  intros Hout. rewrite map_get_app_None by (by apply map_get_None_keys).
  simpl. by rewrite decide_True.
Qed.

Lemma map_set_middle k v v0 m1 m2 :
  k ∉ m1.*1 → map_set k v (m1 ++ (k, v0) :: m2) = m1 ++ (k, v) :: m2.
Proof.
  induction m1 as [|[k1 v1] m1 IH]; simpl; intros Hout.
  - by rewrite decide_True.
  - apply not_elem_of_cons in Hout as [Hne Hout].
    rewrite decide_False by congruence. by rewrite IH.
Qed.
End JsMapKeys.

Lemma string_app_assoc (s1 s2 s3 : string) : (s1 +:+ s2) +:+ s3 = s1 +:+ s2 +:+ s3.
Proof.
  induction s1 as [|c s1 IH]; [done|].
  change (String c ((s1 +:+ s2) +:+ s3) = String c (s1 +:+ s2 +:+ s3)). by rewrite IH.
Qed.

(** ** The channel registry, over sequences of calls *)
Module ChannelRegistry.
Import Channel ChannelFacts.

(** *** What the registry keeps *)

Lemma elem_of_foldl_delete (fired : list (ClosedRoute * Watch))
    (m : list (string * ProviderIdentity)) kv :
  kv ∈ foldl (λ m rw, map_delete (watch_target rw.2) m) m fired ↔
  kv ∈ m ∧ ∀ rw, rw ∈ fired → watch_target rw.2 ≠ kv.1.
Proof.
  revert m. induction fired as [|rw fired IH]; intros m; simpl.
  - split; [|intros [H _]; exact H]. intros H. split; [done|]. intros rw Hin.
    by apply elem_of_nil in Hin.
  - rewrite IH. unfold map_delete. rewrite list_elem_of_filter. split.
    + intros [[Hne Hin] Hall]. split; [done|]. intros rw' Hrw.
      apply elem_of_cons in Hrw as [->|Hrw]; [congruence|by apply Hall].
    + intros [Hin Hall]. split_and!; [|done|].
      * intros Heq. by apply (Hall rw); [left|].
      * intros rw' Hrw. apply Hall. by right.
Qed.

Lemma foldl_delete_sublist (fired : list (ClosedRoute * Watch))
    (m : list (string * ProviderIdentity)) :
  foldl (λ m rw, map_delete (watch_target rw.2) m) m fired `sublist_of` m.
Proof.
  revert m. induction fired as [|rw fired IH]; intros m; simpl; [done|].
  etrans; [apply IH|]. apply sublist_filter.
Qed.

Lemma foldl_delete_target (channelId : string) (fired : list (ClosedRoute * Watch))
    (m : list (string * ProviderIdentity)) rw :
  rw ∈ fired → watch_target rw.2 = channelId →
  map_get channelId (foldl (λ m rw, map_delete (watch_target rw.2) m) m fired) = None.
Proof.
  intros Hin Htarget. apply map_get_None_keys. intros Hk.
  apply list_elem_of_fmap in Hk as ([k v] & -> & Hkv).
  apply elem_of_foldl_delete in Hkv as [_ Hall]. by apply (Hall rw).
Qed.

Lemma step_registry_wf op s : registry_wf s → registry_wf (step op s).1.
Proof.
  intros [Hnd Hall].
  destruct op as [resolve identity cn|identity payload messageId ack' nack'|
                  |identity payload ack' nack'|r].
  - simpl. destruct (createChannel_cases resolve identity cn s) as [->|(app & _ & Hnone & ->)];
      [done|]. simpl. split; simpl.
    + rewrite fmap_app. apply NoDup_app. split_and!; [done| |apply NoDup_singleton].
      intros k Hk Hin. apply list_elem_of_singleton in Hin as ->.
      by apply map_get_None_keys in Hnone.
    + intros k pi Hin. apply elem_of_app in Hin as [Hin|Hin].
      * destruct (Hall k pi Hin) as (? & ? & ?). split_and!; [done|..];
          apply elem_of_app; by left.
      * apply list_elem_of_singleton in Hin as [= -> ->]. simpl. split_and!; [done|..];
          apply elem_of_app; right; [left|right; left].
  - destruct (connect_frame identity payload messageId ack' nack' s) as [Hc Hw].
    split; [by rewrite Hc|]. intros k pi. rewrite Hc, Hw. apply Hall.
  - done.
  - destruct (sendChannelResult_frame identity payload ack' nack' s) as [Hc Hw].
    split; [by rewrite Hc|]. intros k pi. rewrite Hc, Hw. apply Hall.
  - simpl. rewrite emit_closed_spec. simpl. split; simpl.
    + eapply sublist_NoDup; [exact Hnd|]. apply fmap_sublist, foldl_delete_sublist.
    + intros k pi Hin. apply elem_of_foldl_delete in Hin as [Hin Hkept]. simpl in Hkept.
      destruct (Hall k pi Hin) as (Hid & Hw1 & Hw2). split_and!; [done|..];
        apply list_elem_of_filter; (split; [|done]); simpl; intros Hr;
        [apply (Hkept (closedEvent pi, ClosedWatch pi))
        |apply (Hkept (route_application_closed (p_uuid pi), ApplicationClosedWatch k))];
        try done; apply list_elem_of_filter; by split.
Qed.

Lemma steps_registry_wf ops s : registry_wf s → registry_wf (steps ops s).1.
Proof.
  revert s. induction ops as [|op ops IH]; intros s Hwf; [done|].
  rewrite steps_cons_state. apply IH. by apply step_registry_wf.
Qed.

Lemma initial_registry_wf : registry_wf initial.
Proof.
  split; [constructor|]. intros k pi Hin. by apply elem_of_nil in Hin.
Qed.

Lemma keys_are_channelIds (m : list (string * ProviderIdentity)) :
  (∀ k providerIdentity, (k, providerIdentity) ∈ m → providerIdentity.(channelId) = k) →
  channelId <$> m.*2 = m.*1.
Proof.
  induction m as [|[k pi] m IH]; intros Hall; [done|]. simpl.
  rewrite (Hall k pi) by left. f_equal. apply IH. intros k' pi' Hin. apply Hall. by right.
Qed.

(** Extra X1. Whatever calls and close notifications the registry has
    received since it was empty, the providers [getAllChannels] lists have
    pairwise different channelIds, and [getChannelByChannelId] finds each of
    them under its own channelId. *)
Theorem registered_channels_unique ops :
  NoDup (channelId <$> getAllChannels (steps ops initial).1) ∧
  ∀ providerIdentity,
    providerIdentity ∈ getAllChannels (steps ops initial).1 →
    getChannelByChannelId providerIdentity.(channelId) (steps ops initial).1
      = Some providerIdentity.
Proof.
  destruct (steps_registry_wf ops initial initial_registry_wf) as [Hnd Hall].
  unfold getAllChannels, getChannelByChannelId. split.
  - rewrite keys_are_channelIds; [done|]. intros k pi Hin. by destruct (Hall k pi Hin).
  - intros pi Hin. apply list_elem_of_fmap in Hin as ([k pi'] & -> & Hin). simpl.
    destruct (Hall k pi' Hin) as [-> _]. by apply map_get_elem_NoDup.
Qed.

(** Extra X1 at two windows that each registered ["svc"]. *)
Lemma registered_channels_unique_witness :
  getChannelByChannelId "app3/win3/svc" twoSvc = Some svc3.
Proof.
  apply (proj2 (registered_channels_unique
                  [OpCreateChannel resolveWindow win2 (Some "svc");
                   OpCreateChannel resolveWindow win3 (Some "svc")]) svc3).
  vm_compute. right. left.
Defined.

(** Extra X2. Whatever calls and close notifications the registry has
    received since it was empty, both teardown watches of every registered
    provider are armed: the close notification of its owner (the external
    application, or the window) removes it and emits [channel-disconnected]
    carrying it, and the application-level close notification of its uuid
    removes it. *)
Theorem owner_close_removes_registered ops providerIdentity :
  providerIdentity ∈ getAllChannels (steps ops initial).1 →
  (getChannelByChannelId providerIdentity.(channelId)
     (outcome (ofEvents_emit_closed (closedEvent providerIdentity)
                 (steps ops initial).1)).1 = None
   ∧ Emit (route_channel "channel-disconnected") providerIdentity
       ∈ (outcome (ofEvents_emit_closed (closedEvent providerIdentity)
                     (steps ops initial).1)).2)
  ∧ getChannelByChannelId providerIdentity.(channelId)
      (outcome (ofEvents_emit_closed (route_application_closed providerIdentity.(p_uuid))
                  (steps ops initial).1)).1 = None.
Proof.
  destruct (steps_registry_wf ops initial initial_registry_wf) as [Hnd Hall].
  intros Hin. apply list_elem_of_fmap in Hin as ([k pi] & -> & Hin). simpl.
  destruct (Hall k pi Hin) as (Hid & Hw1 & Hw2). rewrite !emit_closed_spec. simpl.
  unfold getChannelByChannelId. simpl. split_and!.
  - apply (foldl_delete_target _ _ _ (closedEvent pi, ClosedWatch pi)); [|done].
    apply list_elem_of_filter. by split.
  - apply list_elem_of_bind. exists (closedEvent pi, ClosedWatch pi). split; [left|].
    apply list_elem_of_filter. by split.
  - apply (foldl_delete_target _ _ _
             (route_application_closed (p_uuid pi), ApplicationClosedWatch k)); [|done].
    apply list_elem_of_filter. by split.
Qed.

(** Extra X2 at a channel registered again after an application-level
    close. *)
Lemma owner_close_removes_registered_witness :
  getChannelByChannelId "app2/win2/svc"
    (outcome (ofEvents_emit_closed (route_window_closed "app2" (Some "win2")) reRegistered)).1
    = None.
Proof.
  refine (proj1 (proj1 (owner_close_removes_registered
                  [OpCreateChannel resolveWindow win2 (Some "svc");
                   OpClosed (route_application_closed "app2");
                   OpCreateChannel resolveWindow win2 (Some "svc")] svc2 _))).
  vm_compute. left.
Defined.

(** *** The correlation table *)

Lemma callbacks_app (tr1 tr2 : list Effect) :
  callbacks (tr1 ++ tr2) = callbacks tr1 ++ callbacks tr2.
Proof. apply omap_app. Qed.

(** Extra X3. A close notification does not touch the correlation table and
    calls no [ack] and no [nack]: the requests pending on a provider that
    closes are neither resolved nor rejected by the registry. *)
Theorem close_leaves_pending_requests r s :
  (outcome (ofEvents_emit_closed r s)).1.(remoteAckMap) = s.(remoteAckMap) ∧
  callbacks (outcome (ofEvents_emit_closed r s)).2 = [].
Proof.
  rewrite emit_closed_spec. simpl. split; [done|].
  induction (filter (λ rw, rw.1 = r) (watches s)) as [|[r' w] fired IH]; [done|].
  rewrite bind_cons, callbacks_app, IH. by destruct w.
Qed.

Lemma step_keeps_entry key op s :
  ¬ requests key op → ¬ resolves key op →
  (step op s).1.(remoteAckMap) !! key = s.(remoteAckMap) !! key.
Proof.
  intros Hreq Hres.
  destruct op as [resolve identity cn|identity payload messageId ack' nack'
                  |identity payload messageId ack' nack'|identity payload ack' nack'|r].
  - simpl. by destruct (createChannel_cases resolve identity cn s) as [->|(app & _ & _ & ->)].
  - simpl in *. unfold connectToChannel, remoteAckMap_set. prog.
    repeat case_match; simplify_eq/=; try done; by rewrite lookup_insert_ne.
  - simpl in *. by rewrite lookup_insert_ne.
  - simpl in *. unfold sendChannelResult, remoteAckMap_delete. prog.
    repeat case_match; simplify_eq/=; try done; by rewrite lookup_delete_ne.
  - simpl. by rewrite emit_closed_spec.
Qed.

(** Extra X4. The entry under a key of the correlation table changes only
    by a [connectToChannel] or [sendChannelMessage] that computes that key,
    or by a [sendChannelResult] addressed to it: over any other calls and
    close notifications it stays as it is, present or absent. *)
Theorem pending_entry_persists key ops s :
  Forall (λ op, ¬ requests key op ∧ ¬ resolves key op) ops →
  (steps ops s).1.(remoteAckMap) !! key = s.(remoteAckMap) !! key.
Proof.
  intros Hall. revert s. induction Hall as [|op ops [Hreq Hres] _ IH]; intros s; [done|].
  rewrite steps_cons_state, IH. by apply step_keeps_entry.
Qed.

(** Extra X4 at a pending request, over a registration, the close of the
    provider's window and a result for another request. *)
Lemma pending_entry_persists_witness :
  (steps [OpCreateChannel resolveWindow win2 (Some "svc");
          OpClosed (route_window_closed "app2" (Some "win2"));
          OpSendChannelResult win2 (mkResultPayload None true app1 8 JNull)
                              (AckRef 1) (NackRef 1)]
         pendingConnect).1.(remoteAckMap) !! "7-app1-undefined"
  = Some (mkRemoteAck (AckRef 0) (NackRef 0)).
Proof.
  refine (eq_trans (pending_entry_persists "7-app1-undefined"
            [OpCreateChannel resolveWindow win2 (Some "svc");
             OpClosed (route_window_closed "app2" (Some "win2"));
             OpSendChannelResult win2 (mkResultPayload None true app1 8 JNull)
                                 (AckRef 1) (NackRef 1)]
            pendingConnect _) _).
  - repeat constructor; simpl; try tauto; intros H; vm_compute in H; discriminate H.
  - reflexivity.
Defined.

(** *** connectToChannel *)

(** Extra X5. When the lookup by channelName yields nothing, and the call
    gives no uuid or no registered provider matches the identity,
    [connectToChannel] returns no provider, calls the caller's [nack] once,
    with ['internal-nack'], forwards nothing and leaves the state as it
    is. *)
Theorem connectToChannel_no_provider identity payload messageId ack nack s :
  (truthyStr payload.(cp_channelName) = false ∨
   getChannelByChannelName (default "" payload.(cp_channelName)) s = None) →
  (truthyStr payload.(cp_uuid) = false ∨
   getChannelByIdentity (mkIdentity (default "" payload.(cp_uuid)) payload.(cp_name)) s = []) →
  connectToChannel identity payload messageId ack nack s =
    Ok None s [CallNack nack (NackString "internal-nack")].
Proof.
  intros Hname Hid. unfold connectToChannel. prog.
  assert ((if truthyStr (cp_channelName payload)
           then getChannelByChannelName (default "" (cp_channelName payload)) s
           else None) = None) as ->.
  { destruct Hname as [H|H]; rewrite H; [done|].
    by destruct (truthyStr (cp_channelName payload)). }
  simpl. destruct Hid as [->|Hnone]; [done|].
  destruct (truthyStr (cp_uuid payload)); [|done]. simpl. by rewrite Hnone.
Qed.

(** Extra X5 at a connection by identity to an empty registry. *)
Lemma connectToChannel_no_provider_witness :
  connectToChannel app1 connectWin2 1 (AckRef 0) (NackRef 0) initial =
    Ok None initial [CallNack (NackRef 0) (NackString "internal-nack")].
Proof.
  apply (connectToChannel_no_provider app1 connectWin2 1 (AckRef 0) (NackRef 0) initial).
  - left. reflexivity.
  - right. reflexivity.
Defined.

(** Extra X6. When the lookup by channelName yields nothing, the call gives
    a uuid, and exactly one registered provider matches the identity,
    [connectToChannel] returns that provider, forwards one
    [process-channel-connection] message to it, and sets the entry under
    the requester's key, with no other change to the state and no [nack]. *)
Theorem connectToChannel_by_identity_unique identity payload messageId ack nack s
    providerIdentity :
  (truthyStr payload.(cp_channelName) = false ∨
   getChannelByChannelName (default "" payload.(cp_channelName)) s = None) →
  truthyStr payload.(cp_uuid) = true →
  getChannelByIdentity (mkIdentity (default "" payload.(cp_uuid)) payload.(cp_name)) s
    = [providerIdentity] →
  connectToChannel identity payload messageId ack nack s =
    Ok (Some providerIdentity)
       (mkState s.(channelMap)
                (<[getAckKey messageId identity := mkRemoteAck ack nack]> s.(remoteAckMap))
                s.(watches))
       [SendToIdentity (mkIdentity providerIdentity.(p_uuid) providerIdentity.(p_name))
          (ConnectionMessage "process-channel-connection"
             (mkAckToSender "send-channel-result" messageId identity providerIdentity true)
             providerIdentity identity payload.(cp_payload))].
Proof.
  intros Hname Huuid Hone. unfold connectToChannel. prog.
  assert ((if truthyStr (cp_channelName payload)
           then getChannelByChannelName (default "" (cp_channelName payload)) s
           else None) = None) as ->.
  { destruct Hname as [H|H]; rewrite H; [done|].
    by destruct (truthyStr (cp_channelName payload)). }
  rewrite Huuid. simpl. rewrite Hone. simpl. unfold remoteAckMap_set. prog. done.
Qed.

(** Extra X6 at a connection by identity to the one channel of [app2/win2]. *)
Lemma connectToChannel_by_identity_unique_witness :
  connectToChannel app1 connectWin2 1 (AckRef 0) (NackRef 0) oneSvc =
    Ok (Some svc2)
       (mkState oneSvc.(channelMap)
                (<["1-app1-undefined" := mkRemoteAck (AckRef 0) (NackRef 0)]> ∅)
                oneSvc.(watches))
       [SendToIdentity win2
          (ConnectionMessage "process-channel-connection"
             (mkAckToSender "send-channel-result" 1 app1 svc2 true) svc2 app1 JNull)].
Proof.
  apply (connectToChannel_by_identity_unique app1 connectWin2 1 (AckRef 0) (NackRef 0)
           oneSvc svc2).
  - left. reflexivity.
  - reflexivity.
  - vm_compute. reflexivity.
Defined.

Lemma last_match_snoc (c : string) (l : list ProviderIdentity) providerIdentity :
  providerIdentity.(channelName) = Some c →
  last (filter (λ channel, channel.(channelName) = Some c) (l ++ [providerIdentity]))
    = Some providerIdentity.
Proof.
  intros Hc. rewrite filter_app, filter_cons_True by done. simpl. apply last_snoc.
Qed.

(** Extra X9. Right after [createChannel] has registered a provider under a
    channelName that is not empty, a [connectToChannel] that names that
    channelName is forwarded to that provider, whatever else is registered
    under the name and whatever uuid and name the call gives. *)
Theorem created_channel_reached_by_name resolve identity channelName s providerIdentity s1 tr
    client payload messageId ack nack :
  createChannel resolve identity (Some channelName) s = Ok providerIdentity s1 tr →
  channelName ≠ "" →
  payload.(cp_channelName) = Some channelName →
  connectToChannel client payload messageId ack nack s1 =
    Ok (Some providerIdentity)
       (mkState s1.(channelMap)
                (<[getAckKey messageId client := mkRemoteAck ack nack]> s1.(remoteAckMap))
                s1.(watches))
       [SendToIdentity (mkIdentity providerIdentity.(p_uuid) providerIdentity.(p_name))
          (ConnectionMessage "process-channel-connection"
             (mkAckToSender "send-channel-result" messageId client providerIdentity true)
             providerIdentity client payload.(cp_payload))].
Proof.
  intros Hok Hne Hcn.
  destruct (createChannel_cases resolve identity (Some channelName) s)
    as [H|(app & _ & _ & H)]; rewrite H in Hok; [done|]. simplify_eq.
  apply connect_by_name.
  - rewrite Hcn. simpl. by apply negb_true_iff, String.eqb_neq.
  - rewrite Hcn, byChannelName_is_last. simpl. rewrite fmap_app. simpl.
    by apply last_match_snoc.
Qed.

(** Extra X9 at the second registration of ["svc"]. *)
Lemma created_channel_reached_by_name_witness :
  connectToChannel app1 connectSvc 1 (AckRef 0) (NackRef 0) twoSvc =
    Ok (Some svc3)
       (mkState twoSvc.(channelMap)
                (<["1-app1-undefined" := mkRemoteAck (AckRef 0) (NackRef 0)]> ∅)
                twoSvc.(watches))
       [SendToIdentity win3
          (ConnectionMessage "process-channel-connection"
             (mkAckToSender "send-channel-result" 1 app1 svc3 true) svc3 app1
             (JObj [("hello", JNum 1)]))].
Proof.
  apply (created_channel_reached_by_name resolveWindow win3 "svc" oneSvc svc3 twoSvc
           [Emit (route_channel "channel-connected") svc3]
           app1 connectSvc 1 (AckRef 0) (NackRef 0)).
  - vm_compute. reflexivity.
  - intros H. discriminate H.
  - reflexivity.
Defined.

(** *** sendChannelMessage and sendChannelResult *)

(** Extra X7. With [success] false and a correlation entry for the key,
    [sendChannelResult] calls that entry's [nack] once, with an error whose
    message is the reason given, or ['Channel provider error'] when the
    reason is absent or empty, and removes the entry; the caller's own [ack]
    and [nack] are not called. *)
Theorem sendChannelResult_failure_rejects identity payload ack nack s remoteAck :
  payload.(rp_success) = false →
  s.(remoteAckMap) !! getAckKey payload.(rp_correlationId) payload.(rp_destinationToken)
    = Some remoteAck →
  sendChannelResult identity payload ack nack s =
    Ok tt
       (mkState s.(channelMap)
          (delete (getAckKey payload.(rp_correlationId) payload.(rp_destinationToken))
                  s.(remoteAckMap))
          s.(watches))
       [CallNack remoteAck.(Channel.nack)
          (NackError (match payload.(rp_reason) with
                      | Some reason => if String.eqb reason "" then "Channel provider error"
                                       else reason
                      | None => "Channel provider error"
                      end))].
Proof.
  intros Hfail Hentry. unfold sendChannelResult. prog. rewrite Hentry, Hfail. simpl.
  unfold remoteAckMap_delete. prog. destruct (rp_reason payload) as [reason|]; [|done].
  simpl. by destruct (String.eqb reason "").
Qed.

(** Extra X7 at a failure reported with an empty reason. *)
Lemma sendChannelResult_failure_rejects_witness :
  sendChannelResult win2 (mkResultPayload (Some "") false app1 7 JNull)
                    (AckRef 1) (NackRef 1) pendingConnect =
    Ok tt (mkState [] (delete "7-app1-undefined" pendingConnect.(remoteAckMap)) [])
       [CallNack (NackRef 0) (NackError "Channel provider error")].
Proof.
  apply (sendChannelResult_failure_rejects win2 (mkResultPayload (Some "") false app1 7 JNull)
           (AckRef 1) (NackRef 1) pendingConnect (mkRemoteAck (AckRef 0) (NackRef 0))).
  - reflexivity.
  - vm_compute. reflexivity.
Defined.

(** Extra X8. Round trip of a channel message: [sendChannelMessage] forwards
    one [process-channel-message] to the target, carrying the [ackToSender]
    envelope; a [sendChannelResult] that returns the [correlationId],
    [destinationToken] and [success] of that envelope calls the sender's
    [ack] with the result, and leaves the correlation table as it was before
    the message, less the sender's key. *)
Theorem sendChannelMessage_round_trip identity payload messageId ack nack s
    provider reason result ack' nack' :
  let ackToSender := createAckToSender identity messageId payload.(mp_providerIdentity) in
  let s1 := (outcome (sendChannelMessage identity payload messageId ack nack s)).1 in
  sendChannelMessage identity payload messageId ack nack s =
    Ok tt s1
       [SendToIdentity (mkIdentity payload.(mp_uuid) payload.(mp_name))
          (AppMessage "process-channel-message" ackToSender payload.(mp_providerIdentity)
                      payload.(mp_action) identity payload.(mp_payload))]
  ∧ sendChannelResult provider
      (mkResultPayload reason ackToSender.(success) ackToSender.(destinationToken)
                       ackToSender.(correlationId) result)
      ack' nack' s1 =
    Ok tt
       (mkState s.(channelMap) (delete (getAckKey messageId identity) s.(remoteAckMap))
                s.(watches))
       [CallAck ack (successAck result)].
Proof.
  split; [done|]. unfold sendChannelResult. prog. rewrite lookup_insert_eq. simpl.
  unfold remoteAckMap_delete. prog. by rewrite delete_insert_eq.
Qed.

(** Extra X10. The correlation key does not tell requesters apart whose
    uuid and name differ only in where the ['-'] falls: when the requester
    [u] / [n-m] and then the requester [u-n] / [m] send a message with the
    same messageId, the result addressed to the first calls the [ack] of the
    second, and no entry is left for either. *)
Theorem result_delivered_to_colliding_requester u n m messageId payload1 payload2
    ack1 nack1 ack2 nack2 provider reason result ack' nack' s :
  let first := mkIdentity u (Some (n +:+ "-" +:+ m)) in
  let second := mkIdentity (u +:+ "-" +:+ n) (Some m) in
  let s2 := (steps [OpSendChannelMessage first payload1 messageId ack1 nack1;
                    OpSendChannelMessage second payload2 messageId ack2 nack2] s).1 in
  sendChannelResult provider (mkResultPayload reason true first messageId result)
                    ack' nack' s2 =
    Ok tt
       (mkState s.(channelMap) (delete (getAckKey messageId first) s.(remoteAckMap))
                s.(watches))
       [CallAck ack2 (successAck result)].
Proof.
  intros first second s2.
  assert (getAckKey messageId second = getAckKey messageId first) as Hkey.
  { unfold getAckKey, first, second. simpl. by rewrite !string_app_assoc. }
  change s2 with
    (mkState s.(channelMap)
       (<[getAckKey messageId second := mkRemoteAck ack2 nack2]>
          (<[getAckKey messageId first := mkRemoteAck ack1 nack1]> s.(remoteAckMap)))
       s.(watches)).
  clear s2. rewrite Hkey. clear Hkey.
  unfold sendChannelResult, remoteAckMap_delete, bind, get, modify, effect.
  cbn [rp_correlationId rp_destinationToken rp_success remoteAckMap channelMap watches
       rp_payload].
  generalize (getAckKey messageId first). intros key.
  rewrite lookup_insert_eq. simpl.
  by rewrite insert_insert_eq, delete_insert_eq.
Qed.

End ChannelRegistry.

(** ** The in-runtime transport strategy, over sequences of events *)
Module ElipcPipeline.
Import Elipc ElipcFacts.

Lemma Data_nested_ind (P : Data → Prop) :
  (∀ action messageId isSync singleFrameOnly breadcrumbs messages payload,
     Forall P messages →
     P (mkData action messageId isSync singleFrameOnly breadcrumbs messages payload)) →
  ∀ data, P data.
Proof.
  intros Hstep. fix IH 1. intros [a i sy sf bs ms p]. apply Hstep.
  induction ms as [|m ms IHms]; constructor; [apply IH|exact IHms].
Qed.

(** *** What the calls of the pipeline keep *)

Lemma sat_add_frame (I : State → Prop) (Q : Effect → Prop) key identity frameRoutingId payload :
  (∀ s pm n, I s → I (set_buffer pm s.(pendingFlush) n s)) →
  (∀ ef, closure_effect ef → Q ef) →
  sat I Q (add key identity frameRoutingId payload).
Proof.
  intros I_buffer Q_closure. unfold add. sat_auto.
  - apply sat_effect. by apply Q_closure.
  - apply sat_modify. intros s Hs. by apply I_buffer.
  - apply sat_modify. intros s Hs. by apply I_buffer.
Qed.

Section Pipeline.
Variables (I : State → Prop) (Q : Effect → Prop).
Hypothesis sat_add : ∀ key identity frameRoutingId payload,
  sat I Q (add key identity frameRoutingId payload).
Hypothesis I_mainAcks : ∀ s l, I s → I (set_mainAcks l s).
Hypothesis I_ackObjs : ∀ s l, I s → I (set_ackObjs l s).
Hypothesis I_groups : ∀ s l, I s → I (set_groups l s).
Hypothesis Q_closure : ∀ ef, closure_effect ef → Q ef.
Hypothesis Q_nack : ∀ nack err, Q (CalledNack nack err).
Hypothesis Q_call : ∀ endpoint identity data ack nack,
  Q (CallApiFunc endpoint identity data ack nack).

Lemma sat_send routing identity payloadObj : sat I Q (send routing identity payloadObj).
Proof.
  unfold send. sat_auto; [apply sat_add|]. apply sat_effect. by apply Q_closure.
Qed.

Lemma sat_ackDecorator_call e ref payload : sat I Q (ackDecorator_call e ref payload).
Proof.
  unfold ackDecorator_call. sat_auto;
    try (apply sat_modify; intros s Hs; by apply I_mainAcks);
    try (apply sat_effect; by apply Q_closure).
  apply sat_add.
Qed.

Lemma sat_ackDecoratorSync_call e messageId payload :
  sat I Q (ackDecoratorSync_call e messageId payload).
Proof.
  unfold ackDecoratorSync_call. sat_auto; apply sat_effect; by apply Q_closure.
Qed.

Lemma sat_deferred_call e group ref payload : sat I Q (deferred_call e group ref payload).
Proof.
  unfold deferred_call. sat_auto;
    try (apply sat_modify; intros s Hs; by (apply I_ackObjs || apply I_groups));
    try (apply sat_effect; by apply Q_closure).
  apply sat_ackDecorator_call.
Qed.

Lemma sat_callAck e ack payload : sat I Q (callAck e ack payload).
Proof.
  unfold callAck. sat_auto.
  - apply sat_effect. by apply Q_closure.
  - apply sat_ackDecorator_call.
  - apply sat_ackDecoratorSync_call.
  - apply sat_deferred_call.
Qed.

Lemma sat_callNack e nack err : sat I Q (callNack e nack err).
Proof.
  unfold callNack. sat_auto; [apply sat_effect; by apply Q_nack|apply sat_callAck].
Qed.

Lemma sat_settle e mp out : sat I Q (settle e mp out).
Proof. unfold settle. sat_auto; apply sat_callAck || apply sat_callNack. Qed.

Lemma sat_onMessage this e data : ∀ ackDelegate, sat I Q (onMessage this e ackDelegate data).
Proof.
  induction data as [act mid sync sfo bcs msgs pl IH] using Data_nested_ind.
  intros ackDelegate. simpl.
  unfold requestHandler_handle, handler, ackDecoratorDeferred,
    new_ackObj, new_mainAck, new_group.
  simpl. rewrite String.eqb_refl. simpl.
  sat_auto;
    try (apply sat_modify; intros s Hs;
         by (apply I_ackObjs || apply I_groups || apply I_mainAcks));
    try (apply sat_effect; first [by apply Q_closure|by apply Q_call]);
    try apply sat_callNack;
    try (apply sat_forEach; eapply Forall_impl; [exact IH|]; intros d Hd; apply Hd).
Qed.
End Pipeline.

Lemma closure_internal ef : closure_effect ef → internal ef.
Proof. by destruct ef. Qed.

Lemma sat_step this ev (I : State → Prop) (Q : Effect → Prop) :
  (∀ key identity frameRoutingId payload, sat I Q (add key identity frameRoutingId payload)) →
  (∀ s l, I s → I (set_mainAcks l s)) →
  (∀ s l, I s → I (set_ackObjs l s)) →
  (∀ s l, I s → I (set_groups l s)) →
  (∀ ef, internal ef → Q ef) →
  (∀ routing, sat I Q (runImmediates this routing)) →
  ∀ s, I s → I (step this ev s).1 ∧ Forall Q (step this ev s).2.
Proof.
  intros Hadd H1 H2 H3 HQ Htick s Hs.
  assert (∀ ef, closure_effect ef → Q ef) as HQ' by (intros ef Hef; by apply HQ, closure_internal).
  destruct ev; simpl.
  - apply sat_onMessage; try done; intros; by apply HQ.
  - apply sat_settle; try done; intros; by apply HQ.
  - by apply sat_callAck.
  - apply sat_callNack; try done; intros; by apply HQ.
  - by apply sat_send.
  - by apply Htick.
Qed.

Lemma sat_steps this evs (I : State → Prop) :
  (∀ ev s, I s → I (step this ev s).1) →
  ∀ s, I s → I (steps this evs s).1.
Proof.
  intros Hstep. induction evs as [|ev evs IH]; intros s Hs; [done|].
  rewrite steps_cons. simpl. apply IH. by apply Hstep.
Qed.

(** *** The flag of the buffered message handler *)

Lemma sat_flush_unflagged this routing : sat unflagged (λ _, True) (flush this routing).
Proof.
  unfold flush. sat_auto.
  - apply sat_forEach. apply Forall_forall. intros key _. sat_auto.
    + intros s Hs. split; [|apply Forall_forall; done].
      unfold delayedMessageHandler, innerSend. by repeat case_match.
    + by apply sat_modify.
  - by apply sat_modify.
Qed.

Lemma step_unflagged this ev s : unflagged s → unflagged (step this ev s).1.
Proof.
  intros Hs. apply (sat_step this ev unflagged (λ _, True)); try done.
  - intros. by apply sat_add_frame.
  - intros routing. unfold runImmediates. sat_auto; [by apply sat_modify|].
    apply sat_forEach. apply Forall_forall. intros _ _. apply sat_flush_unflagged.
Qed.

(** Extra X11. Whatever events the strategy has been driven by since it was
    created, [pendingFlush] is false, so every [add] schedules a [flush] of
    its own with [setImmediate]. *)
Theorem every_enqueue_schedules_a_flush this evs key identity frameRoutingId payload :
  (steps this evs initial).1.(pendingFlush) = false ∧
  ∃ s',
    add key identity frameRoutingId payload (steps this evs initial).1
      = Ok tt s' [SetImmediateFlush]
    ∧ s'.(immediates) = S (steps this evs initial).1.(immediates).
Proof.
  assert (unflagged (steps this evs initial).1) as Hflag.
  { apply sat_steps; [apply step_unflagged|done]. }
  split; [exact Hflag|].
  destruct (add_always_schedules key identity frameRoutingId payload _ Hflag)
    as (s' & Hrun & Himm & _).
  by exists s'.
Qed.

(** *** Nothing goes out before the tick ends *)

Lemma internal_sends tr : Forall internal tr → sends tr = [] ∧ CallNext ∉ tr.
Proof.
  induction 1 as [|ef tr Hef _ [IH1 IH2]]; [split; [done|apply not_elem_of_nil]|].
  split.
  - unfold sends in *. by destruct ef.
  - intros Hin. apply elem_of_cons in Hin as [<-|Hin]; [done|by apply IH2].
Qed.

Lemma quiet_step this ev s :
  (∀ routing, ev ≠ TickEnds routing) → Forall internal (step this ev s).2.
Proof.
  intros Hev.
  assert (∀ key identity frameRoutingId payload,
            sat (λ _ : State, True) internal (add key identity frameRoutingId payload))
    as Hadd by (intros; apply sat_add_frame; [done|apply closure_internal]).
  destruct ev; simpl.
  - by apply (sat_onMessage (λ _, True) internal); try apply closure_internal.
  - by apply (sat_settle (λ _, True) internal); try apply closure_internal.
  - by apply (sat_callAck (λ _, True) internal); try apply closure_internal.
  - by apply (sat_callNack (λ _, True) internal); try apply closure_internal.
  - by apply (sat_send (λ _, True) internal); try apply closure_internal.
  - by destruct (Hev getRoutingInfoByUuidFrame).
Qed.

(** Extra X12. Receiving a message, whatever its nesting, the settlement of
    a handler, a call of an [ack] or [nack] closure, and an outbound [send]
    make no transport send and never hand the message package over to the
    next handler: what goes out goes out when the tick ends. *)
Theorem sends_only_when_tick_ends this ev s :
  (∀ routing, ev ≠ TickEnds routing) →
  sends (step this ev s).2 = [] ∧ CallNext ∉ (step this ev s).2.
Proof. intros Hev. by apply internal_sends, quiet_step. Qed.

(** Extra X12 at the receipt of a transaction of two requests. *)
Lemma sends_only_when_tick_ends_witness :
  sends (step strategy0 (Inbound event7 twoRequests) initial).2 = [].
Proof.
  apply (sends_only_when_tick_ends strategy0 (Inbound event7 twoRequests) initial).
  intros routing H. discriminate H.
Defined.

(** *** flush *)

Lemma delayedMessageHandler_frame this routing bufferedMessages s s0 :
  delayedMessageHandler this routing bufferedMessages s =
    Ok tt s (outcome (delayedMessageHandler this routing bufferedMessages s0)).2.
Proof. unfold delayedMessageHandler, innerSend. by repeat case_match. Qed.

Lemma delivery_frame this routing bufferedMessages s s0 :
  (outcome (delayedMessageHandler this routing bufferedMessages s)).2
    = (outcome (delayedMessageHandler this routing bufferedMessages s0)).2.
Proof. by rewrite (delayedMessageHandler_frame this routing bufferedMessages s s0). Qed.

Lemma flush_loop this routing s0 todo : ∀ done' s,
  s.(pendingMessages) = done' ++ todo →
  NoDup (done' ++ todo).*1 →
  forEach (λ key,
     do s <- get ;;
     match map_get key s.(pendingMessages) with
     | Some bufferedMessages =>
         run delayedMessageHandler this routing bufferedMessages ;;
         modify (λ s, set_buffer (map_set key (clear_messages bufferedMessages)
                                          s.(pendingMessages))
                                 s.(pendingFlush) s.(immediates) s)
     | None => ret tt
     end) todo.*1 s =
  Ok tt (set_buffer (done' ++ flushed todo) s.(pendingFlush) s.(immediates) s)
     (todo.*2 ≫= λ bufferedMessages,
        (outcome (delayedMessageHandler this routing bufferedMessages s0)).2).
Proof.
  induction todo as [|[k bm] todo IH]; intros done' s Hpm Hnd.
  - simpl. unfold ret. rewrite app_nil_r in *. rewrite <- Hpm. by destruct s.
  - simpl. unfold bind at 1. unfold bind at 1. unfold get at 1.
    assert (k ∉ done'.*1) as Hfresh.
    { rewrite fmap_app in Hnd. apply NoDup_app in Hnd as (_ & Hdisj & _).
      intros Hin. apply (Hdisj k Hin). left. }
    rewrite Hpm, (map_get_middle k bm done' todo Hfresh).
    unfold bind at 1. rewrite (delayedMessageHandler_frame this routing bm s s0).
    unfold modify at 1. cbn beta iota.
    rewrite Hpm, (map_set_middle k _ bm done' todo Hfresh).
    rewrite (IH (done' ++ [(k, clear_messages bm)])).
    + simpl. rewrite <- !app_assoc. simpl. reflexivity.
    + simpl. by rewrite <- app_assoc.
    + rewrite <- app_assoc. rewrite fmap_app in Hnd |- *. exact Hnd.
Qed.

Lemma flush_spec this routing s :
  buffer_wf s →
  flush this routing s =
    Ok tt (set_buffer (flushed s.(pendingMessages)) false s.(immediates) s)
       (s.(pendingMessages).*2 ≫= λ bufferedMessages,
          (outcome (delayedMessageHandler this routing bufferedMessages s)).2).
Proof.
  intros Hwf. unfold flush. unfold bind at 1. unfold get at 1. unfold bind at 1.
  rewrite (flush_loop this routing s s.(pendingMessages) [] s eq_refl Hwf).
  unfold modify. simpl. by rewrite app_nil_r.
Qed.

Lemma flushed_keys pendingMessages : (flushed pendingMessages).*1 = pendingMessages.*1.
Proof.
  unfold flushed. induction pendingMessages as [|[k bm] l IH]; [done|].
  rewrite !fmap_cons. by f_equal.
Qed.

Lemma flushed_idem pendingMessages : flushed (flushed pendingMessages) = flushed pendingMessages.
Proof.
  unfold flushed. induction pendingMessages as [|[k bm] l IH]; [done|].
  rewrite !fmap_cons. by f_equal.
Qed.

Lemma sat_add_wf key identity frameRoutingId payload :
  sat buffer_wf (λ _, True) (add key identity frameRoutingId payload).
Proof.
  unfold add. sat_auto; try (by apply sat_effect); try (by apply sat_modify).
  all: apply sat_modify; intros s Hs; by apply map_set_NoDup.
Qed.

Lemma sat_flush_wf this routing : sat buffer_wf (λ _, True) (flush this routing).
Proof.
  intros s Hs. rewrite flush_spec by done. split; [|apply Forall_forall; done].
  unfold buffer_wf. simpl. by rewrite flushed_keys.
Qed.

Lemma step_buffer_wf this ev s : buffer_wf s → buffer_wf (step this ev s).1.
Proof.
  intros Hs. apply (sat_step this ev buffer_wf (λ _, True)); try done.
  - apply sat_add_wf.
  - intros routing. unfold runImmediates. sat_auto; [by apply sat_modify|].
    apply sat_forEach. apply Forall_forall. intros _ _. apply sat_flush_wf.
Qed.

Lemma reachable_buffer_wf this evs : buffer_wf (steps this evs initial).1.
Proof. apply sat_steps; [apply step_buffer_wf|]. apply NoDup_nil_2. Qed.

(** Extra X13. Whatever events the strategy has been driven by since it was
    created, a [flush] hands every queue, in the order the destinations were
    first enqueued for, to the delayed message handler, once and with the
    messages it holds; afterwards every queue is still there, empty, and
    [pendingFlush] is false. *)
Theorem flush_hands_over_every_queue this evs routing :
  flush this routing (steps this evs initial).1 =
    Ok tt
       (set_buffer (flushed (steps this evs initial).1.(pendingMessages))
                   false (steps this evs initial).1.(immediates) (steps this evs initial).1)
       ((steps this evs initial).1.(pendingMessages).*2 ≫= λ bufferedMessages,
          (outcome (delayedMessageHandler this routing bufferedMessages
                      (steps this evs initial).1)).2).
Proof. apply flush_spec, reachable_buffer_wf. Qed.

(** *** Enqueueing *)

Lemma pending_add_other key key' identity frameRoutingId payload s :
  key ≠ key' →
  pending key' (outcome (add key identity frameRoutingId payload s)).1 = pending key' s.
Proof.
  intros Hne. unfold add. prog. unfold pending.
  destruct (pendingFlush s); simpl; by rewrite map_get_set_ne.
Qed.

Lemma pending_add_same key identity frameRoutingId payload s :
  pending key (outcome (add key identity frameRoutingId payload s)).1
    = pending key s ++ [payload].
Proof.
  destruct (pending_add key identity frameRoutingId payload s) as (s' & tr & -> & Hp & _).
  exact Hp.
Qed.

(** Extra X14. Payloads sent to an identity for which routing info is found
    are appended, in the order of the calls, to the queue of the buffer key
    computed from that routing info; the queues of the other keys are not
    touched. *)
Theorem sends_queue_in_order this routing identity routingInfo payloads s :
  routing identity.(uuid) identity.(name) = Some routingInfo →
  pending (bufferKey routingInfo.(browserWindow) routingInfo.(ri_frameRoutingId))
          (steps this (Sends routing identity <$> payloads) s).1
    = pending (bufferKey routingInfo.(browserWindow) routingInfo.(ri_frameRoutingId)) s
      ++ (JsonVal <$> payloads)
  ∧ ∀ key,
      key ≠ bufferKey routingInfo.(browserWindow) routingInfo.(ri_frameRoutingId) →
      pending key (steps this (Sends routing identity <$> payloads) s).1 = pending key s.
Proof.
  intros Hri. revert s. induction payloads as [|p payloads IH]; intros s.
  - simpl. by rewrite app_nil_r.
  - rewrite fmap_cons, steps_cons. cbn [fst snd].
    destruct (IH (step this (Sends routing identity p) s).1) as [IHsame IHother].
    assert (step this (Sends routing identity p) s =
            outcome (add (bufferKey routingInfo.(browserWindow) routingInfo.(ri_frameRoutingId))
                         identity routingInfo.(ri_frameRoutingId) (JsonVal p) s)) as Hstep.
    { simpl. unfold send. by rewrite Hri. }
    split.
    + rewrite IHsame, Hstep, pending_add_same, <- app_assoc. done.
    + intros key Hne. rewrite IHother, Hstep by done. by apply pending_add_other.
Qed.

(** Extra X14 at two payloads for the main window of [app7]. *)
Lemma sends_queue_in_order_witness :
  pending "7 - 1"
    (steps strategy0 (Sends routing0 main7 <$> [JStr "p1"; JStr "p2"]) initial).1
  = [JsonVal (JStr "p1"); JsonVal (JStr "p2")].
Proof.
  apply (proj1 (sends_queue_in_order strategy0 routing0 main7
                  (mkRoutingInfo window7 (Some 1%Z) 1%Z) [JStr "p1"; JStr "p2"] initial
                  eq_refl)).
Defined.

(** *** The end of a tick *)

Lemma flushes_spec this routing n s :
  buffer_wf s →
  forEach (λ _ : unit, flush this routing) (replicate (S n) tt) s =
    Ok tt (set_buffer (flushed s.(pendingMessages)) false s.(immediates) s)
       ((s.(pendingMessages).*2 ≫= λ bufferedMessages,
           (outcome (delayedMessageHandler this routing bufferedMessages s)).2)
        ++ (replicate n tt ≫= λ _,
              (flushed s.(pendingMessages)).*2 ≫= λ bufferedMessages,
                (outcome (delayedMessageHandler this routing bufferedMessages s)).2)).
Proof.
  revert s. induction n as [|n IH]; intros s Hwf.
  - simpl. unfold bind at 1. rewrite flush_spec by done. unfold ret. simpl. done.
  - change (forEach (λ _ : unit, flush this routing) (replicate (S (S n)) tt) s)
      with (bind (flush this routing)
                 (λ _, forEach (λ _ : unit, flush this routing) (replicate (S n) tt)) s).
    unfold bind at 1. rewrite flush_spec by done.
    rewrite IH by (unfold buffer_wf; simpl; by rewrite flushed_keys).
    simpl. rewrite flushed_idem. f_equal. f_equal. f_equal.
    + apply list_bind_ext; [|done]. intros bm. apply delivery_frame.
    + apply list_bind_ext; [|done]. intros _. apply list_bind_ext; [|done].
      intros bm. apply delivery_frame.
Qed.

Lemma tick_step this routing n s :
  buffer_wf s →
  s.(immediates) = S n →
  step this (TickEnds routing) s =
    (set_buffer (flushed s.(pendingMessages)) false 0 s,
     (s.(pendingMessages).*2 ≫= λ bufferedMessages,
        (outcome (delayedMessageHandler this routing bufferedMessages s)).2)
     ++ (replicate n tt ≫= λ _,
           (flushed s.(pendingMessages)).*2 ≫= λ bufferedMessages,
             (outcome (delayedMessageHandler this routing bufferedMessages s)).2)).
Proof.
  intros Hwf Himm. unfold step, runImmediates.
  unfold bind at 1. unfold get at 1. unfold bind at 1. unfold modify at 1.
  cbn beta iota. rewrite Himm.
  rewrite (flushes_spec this routing n
             (set_buffer (pendingMessages s) (pendingFlush s) 0 s)) by exact Hwf.
  cbn [outcome]. rewrite !app_nil_l. f_equal. f_equal.
  - apply list_bind_ext; [|done]. intros bm. apply delivery_frame.
  - apply list_bind_ext; [|done]. intros _. apply list_bind_ext; [|done].
    intros bm. apply delivery_frame.
Qed.

Lemma delivery_reachable this routing bufferedMessages routingInfo frameRoutingId s :
  routing bufferedMessages.(bm_identity).(uuid) bufferedMessages.(bm_identity).(name)
    = Some routingInfo →
  routingInfo.(browserWindow).(isDestroyed) = false →
  routingInfo.(ri_frameRoutingId) = Some frameRoutingId →
  (outcome (delayedMessageHandler this routing bufferedMessages s)).2
    = transportSend this routingInfo frameRoutingId bufferedMessages.(bm_messages).
Proof.
  intros Hri Halive Hframe. unfold delayedMessageHandler, transportSend, canTrySend.
  rewrite Hri, Halive, Hframe. simpl. unfold innerSend. by repeat case_match.
Qed.

Lemma sends_transportSend this routingInfo frameRoutingId messages :
  sends (transportSend this routingInfo frameRoutingId messages)
    = transportSend this routingInfo frameRoutingId messages.
Proof. unfold transportSend, innerSend. by repeat case_match. Qed.

Lemma sends_app tr1 tr2 : sends (tr1 ++ tr2) = sends tr1 ++ sends tr2.
Proof. apply omap_app. Qed.

Lemma sends_repeat (tr : list Effect) (n : nat) :
  sends tr = tr → sends (replicate n tt ≫= λ _, tr) = replicate n tt ≫= λ _, tr.
Proof.
  intros Htr. induction n as [|n IH]; [done|].
  change (replicate (S n) tt) with (tt :: replicate n tt).
  by rewrite bind_cons, sends_app, Htr, IH.
Qed.

Lemma first_send this routing identity routingInfo p :
  routing identity.(uuid) identity.(name) = Some routingInfo →
  (step this (Sends routing identity p) initial).1 =
    mkState [] [] []
      [(bufferKey routingInfo.(browserWindow) routingInfo.(ri_frameRoutingId),
        mkBufferedMessages identity routingInfo.(ri_frameRoutingId)
          (bufferKey routingInfo.(browserWindow) routingInfo.(ri_frameRoutingId))
          [JsonVal p])]
      false 1.
Proof. intros Hri. simpl. unfold send. rewrite Hri. reflexivity. Qed.

Lemma later_sends this routing identity routingInfo payloads : ∀ owner frameRoutingId messages n,
  routing identity.(uuid) identity.(name) = Some routingInfo →
  (steps this (Sends routing identity <$> payloads)
     (mkState [] [] []
        [(bufferKey routingInfo.(browserWindow) routingInfo.(ri_frameRoutingId),
          mkBufferedMessages owner frameRoutingId
            (bufferKey routingInfo.(browserWindow) routingInfo.(ri_frameRoutingId))
            messages)]
        false n)).1 =
    mkState [] [] []
      [(bufferKey routingInfo.(browserWindow) routingInfo.(ri_frameRoutingId),
        mkBufferedMessages owner frameRoutingId
          (bufferKey routingInfo.(browserWindow) routingInfo.(ri_frameRoutingId))
          (messages ++ (JsonVal <$> payloads)))]
      false (n + length payloads).
Proof.
  intros owner frameRoutingId messages n Hri. revert messages n.
  induction payloads as [|p payloads IH]; intros messages n.
  - simpl. by rewrite app_nil_r, Nat.add_0_r.
  - rewrite fmap_cons, steps_cons. cbn [fst snd].
    match goal with
    | |- context [step this (Sends routing identity p) ?s0] =>
        assert ((step this (Sends routing identity p) s0).1 =
                mkState [] [] []
                  [(bufferKey routingInfo.(browserWindow) routingInfo.(ri_frameRoutingId),
                    mkBufferedMessages owner frameRoutingId
                      (bufferKey routingInfo.(browserWindow) routingInfo.(ri_frameRoutingId))
                      (messages ++ [JsonVal p]))]
                  false (S n)) as ->
    end.
    { simpl. unfold send. rewrite Hri. unfold add. prog.
      generalize (bufferKey (browserWindow routingInfo) (ri_frameRoutingId routingInfo)).
      intros key. by rewrite !decide_True. }
    rewrite IH, <- app_assoc. simpl. f_equal. lia.
Qed.

(** Extra X15. From a newly created strategy, the payloads sent within one
    tick to an identity that can be reached leave when the tick ends in one
    [process-api-batch] that carries all of them in the order they were
    sent; it is followed by one empty batch for every payload after the
    first. *)
Theorem enqueued_payloads_leave_in_one_batch this routing identity routingInfo
    frameRoutingId p payloads :
  routing identity.(uuid) identity.(name) = Some routingInfo →
  routingInfo.(browserWindow).(isDestroyed) = false →
  routingInfo.(ri_frameRoutingId) = Some frameRoutingId →
  sends (steps this ((Sends routing identity <$> p :: payloads) ++ [TickEnds routing])
               initial).2
    = transportSend this routingInfo frameRoutingId (JsonVal <$> p :: payloads)
      ++ (payloads ≫= λ _, transportSend this routingInfo frameRoutingId []).
Proof.
  intros Hri Halive Hframe.
  rewrite steps_app. cbn [fst snd]. rewrite sends_app.
  assert (sends (steps this (Sends routing identity <$> p :: payloads) initial).2 = [])
    as ->.
  { generalize initial. induction (p :: payloads) as [|q qs IH]; intros s; [done|].
    rewrite fmap_cons, steps_cons. cbn [fst snd]. rewrite sends_app, IH, app_nil_r.
    apply internal_sends, quiet_step. intros r H. discriminate H. }
  rewrite fmap_cons, (steps_cons this (Sends routing identity p)). cbn [fst snd].
  rewrite (first_send this routing identity routingInfo p Hri).
  rewrite (later_sends this routing identity routingInfo payloads _ _ _ _ Hri).
  set (key := bufferKey (browserWindow routingInfo) (ri_frameRoutingId routingInfo)).
  rewrite steps_cons. cbn [steps fst snd]. rewrite app_nil_r.
  rewrite (tick_step this routing (length payloads)); [|apply NoDup_singleton|done].
  cbn [snd pendingMessages]. simpl. rewrite !app_nil_r.
  rewrite !(delivery_reachable this routing _ routingInfo frameRoutingId) by done.
  simpl. rewrite sends_app, sends_transportSend. f_equal.
  rewrite sends_repeat by apply sends_transportSend.
  clear. induction payloads as [|q qs IH]; [done|].
  change (replicate (length (q :: qs)) ()) with (() :: replicate (length qs) ()).
  by rewrite !bind_cons, IH.
Qed.

(** Extra X15 at two payloads for the main window of [app7]. *)
Lemma enqueued_payloads_leave_in_one_batch_witness :
  sends (steps strategy0
           ((Sends routing0 main7 <$> [JStr "p1"; JStr "p2"]) ++ [TickEnds routing0])
           initial).2
  = [BrowserWindowSend 7
       (mkBatchMessage "process-api-batch" [JsonVal (JStr "p1"); JsonVal (JStr "p2")]);
     BrowserWindowSend 7 (mkBatchMessage "process-api-batch" [])].
Proof.
  apply (enqueued_payloads_leave_in_one_batch strategy0 routing0 main7
           (mkRoutingInfo window7 (Some 1%Z) 1%Z) 1%Z (JStr "p1") [JStr "p2"]
           eq_refl eq_refl eq_refl).
Defined.

(** *** Destinations that cannot be reached *)

Lemma map_get_flushed key pendingMessages :
  map_get key (flushed pendingMessages) = clear_messages <$> map_get key pendingMessages.
Proof.
  unfold flushed. induction pendingMessages as [|[k bm] l IH]; [done|].
  rewrite fmap_cons. simpl. by destruct (decide (k = key)).
Qed.

Lemma pending_flushed key s pendingFlush immediates :
  pending key (set_buffer (flushed s.(pendingMessages)) pendingFlush immediates s) = [].
Proof.
  unfold pending. simpl. rewrite map_get_flushed.
  by destruct (map_get key (pendingMessages s)).
Qed.

Lemma delivery_unreachable this routing bufferedMessages s :
  unreachable routing bufferedMessages →
  sends (outcome (delayedMessageHandler this routing bufferedMessages s)).2 = [].
Proof.
  unfold unreachable, delayedMessageHandler. intros Hun.
  destruct (routing _ _) as [ri|]; [|done]. rewrite Hun. by destruct (ri_frameRoutingId ri).
Qed.

Lemma deliveries_unreachable this routing s (l : list BufferedMessages) :
  (∀ bufferedMessages, bufferedMessages ∈ l → unreachable routing bufferedMessages) →
  sends (l ≫= λ bufferedMessages,
           (outcome (delayedMessageHandler this routing bufferedMessages s)).2) = [].
Proof.
  induction l as [|bm l IH]; intros Hun; [done|].
  rewrite bind_cons, sends_app, delivery_unreachable by (apply Hun; left).
  apply IH. intros bm' Hin. apply Hun. by right.
Qed.

(** Extra X16. When at a [flush] none of the destinations queued for can be
    reached (no routing info is found, the window is destroyed, or the frame
    routing id is not a number), nothing is sent and every queue is emptied
    all the same: the messages are dropped, not kept for a later flush. *)
Theorem flush_discards_unreachable this evs routing :
  (∀ key bufferedMessages,
     (key, bufferedMessages) ∈ (steps this evs initial).1.(pendingMessages) →
     unreachable routing bufferedMessages) →
  sends (outcome (flush this routing (steps this evs initial).1)).2 = [] ∧
  ∀ key, pending key (outcome (flush this routing (steps this evs initial).1)).1 = [].
Proof.
  intros Hun. rewrite flush_spec by apply reachable_buffer_wf. simpl. split.
  - apply deliveries_unreachable. intros bm Hin.
    apply list_elem_of_fmap in Hin as ([k bm'] & -> & Hin). by apply (Hun k).
  - intros key. apply pending_flushed.
Qed.

(** Extra X16 at a payload queued for a window whose routing info is gone
    when the flush runs. *)
Lemma flush_discards_unreachable_witness :
  sends (outcome (flush strategy0 (λ _ _, None)
                    (steps strategy0 [Sends routing0 main7 (JStr "p1")] initial).1)).2 = []
  ∧ pending "7 - 1"
      (outcome (flush strategy0 (λ _ _, None)
                  (steps strategy0 [Sends routing0 main7 (JStr "p1")] initial).1)).1 = [].
Proof.
  destruct (flush_discards_unreachable strategy0 [Sends routing0 main7 (JStr "p1")]
              (λ _ _, None)) as [Hsends Hpending].
  - intros key bufferedMessages _. exact I.
  - split; [exact Hsends|exact (Hpending "7 - 1")].
Defined.

(** *** A request, from receipt to the batch that answers it *)

(** Extra X17. From a newly created strategy, an asynchronous request for a
    registered action that passes the frame check is handed to its handler
    with the closure of [ackDecorator]; when the handler calls that closure
    and the sender is not destroyed, the acknowledgement (the messageId as
    correlationId, the action, the breadcrumbs with [core/ackDecorator] and
    [core/ACK] pushed, the payload) leaves when the tick ends, in one batch
    sent where the routing info of the sender's window identity points. *)
Theorem request_acknowledged_at_tick this e data endpoint routing routingInfo
    frameRoutingId payload :
  plain_request data →
  e.(appObjFound) = true →
  this.(actionMap) !! data.(action) = Some endpoint →
  frameCheck this e data = true →
  e.(senderDestroyed) = false →
  routing e.(ofWindowIdentity).(uuid) e.(ofWindowIdentity).(name) = Some routingInfo →
  routingInfo.(browserWindow).(isDestroyed) = false →
  routingInfo.(ri_frameRoutingId) = Some frameRoutingId →
  (∃ identity data',
     (step this (Inbound e data) initial).2 =
       [DebugLog (LogReceived e identity data');
        CallApiFunc endpoint identity data' (ackDecorator_fn 0)
                    (nackDecorator (ackDecorator_fn 0))])
  ∧ sends (steps this [Inbound e data;
                       HandlerAcks e (ackDecorator_fn 0) payload;
                       TickEnds routing] initial).2
    = transportSend this routingInfo frameRoutingId
        [JsonAck (mkMainAck data.(messageId) data.(action)
                    (default [] data.(breadcrumbs)
                       ++ [crumb data "core/ackDecorator"; crumb data "core/ACK"])
                    (BodyVal payload))].
Proof.
  intros [Hsync Hplain] Happ Hep Hcheck Halive Hri Hwin Hframe.
  apply String.eqb_neq in Hplain.
  destruct data as [act mid sync sfo bcs msgs pl].
  unfold frameCheck in Hcheck. simpl in Hsync, Hplain, Hep, Hcheck. subst sync.
  cbn [messageId action breadcrumbs].
  assert (step this (Inbound e (mkData act mid false sfo bcs msgs pl)) initial =
          (mkState [mkMainAck mid act (default [] bcs ++ [mkBreadcrumb act mid "core/ackDecorator"])
                              (BodyVal JUndefined)] [] [] [] false 0,
           [DebugLog (LogReceived e
              {| rq_name := if truthyStr (if bypassLocalFrameConnect this then frameName e
                                          else None)
                            then (if bypassLocalFrameConnect this then frameName e else None)
                            else opts_name e;
                 rq_uuid := opts_uuid e; parentFrame := opts_name e;
                 rq_entityType := entityType e; transaction := false |}
              (mkData act mid false sfo
                 ((λ bs, bs ++ [mkBreadcrumb act mid "core/ackDecorator"]) <$> bcs) msgs pl));
            CallApiFunc endpoint
              {| rq_name := if truthyStr (if bypassLocalFrameConnect this then frameName e
                                          else None)
                            then (if bypassLocalFrameConnect this then frameName e else None)
                            else opts_name e;
                 rq_uuid := opts_uuid e; parentFrame := opts_name e;
                 rq_entityType := entityType e; transaction := false |}
              (mkData act mid false sfo
                 ((λ bs, bs ++ [mkBreadcrumb act mid "core/ackDecorator"]) <$> bcs) msgs pl)
              (ackDecorator_fn 0) (nackDecorator (ackDecorator_fn 0))])) as Hin.
  { simpl. unfold requestHandler_handle, handler, new_mainAck. prog.
    rewrite Hplain, Happ. simpl. rewrite String.eqb_refl. simpl.
    rewrite (lookup_registered _ _ _ Hep), Hcheck.
    simpl. destruct bcs; simpl; by rewrite ?app_nil_r. }
  split; [rewrite Hin; by do 2 eexists|].
  rewrite steps_cons, Hin. cbn [fst snd]. rewrite sends_app.
  rewrite steps_cons. cbn [fst snd]. rewrite sends_app.
  set (ackObj := mkMainAck mid act
                   (default [] bcs ++ [crumb (mkData act mid false sfo bcs msgs pl)
                                         "core/ackDecorator";
                                       crumb (mkData act mid false sfo bcs msgs pl) "core/ACK"])
                   (BodyVal payload)).
  set (key := bufferKey (ownerBrowserWindow e) (Some (Elipc.frameRoutingId e))).
  match goal with
  | |- context [step this (HandlerAcks e (ackDecorator_fn 0) payload) ?s0] =>
      assert (step this (HandlerAcks e (ackDecorator_fn 0) payload) s0 =
              (mkState [ackObj] [] []
                 [(key, mkBufferedMessages (ofWindowIdentity e)
                          (Some (Elipc.frameRoutingId e)) key [JsonAck ackObj])]
                 false 1,
               [CalledAck (ackDecorator_fn 0) (BodyVal payload);
                DebugLog (LogSent (JsonAck
                  (mkMainAck mid act
                     (default [] bcs ++ [mkBreadcrumb act mid "core/ackDecorator"])
                     (BodyVal payload))));
                SetImmediateFlush])) as ->
  end.
  { simpl. unfold callAck, ackDecorator_call, add. prog. rewrite Halive. simpl.
    unfold ackObj, crumb. simpl. by rewrite <- app_assoc. }
  cbn [fst snd]. rewrite steps_cons. cbn [steps fst snd]. rewrite app_nil_r.
  rewrite (tick_step this routing 0); [|apply NoDup_singleton|done].
  cbn [snd pendingMessages]. simpl. rewrite !app_nil_r.
  rewrite (delivery_reachable this routing _ routingInfo frameRoutingId) by done.
  simpl. apply sends_transportSend.
Qed.

(** Extra X17 at a [get-version] request from the main window of [app7]. *)
Lemma request_acknowledged_at_tick_witness :
  sends (steps strategy0 [Inbound event7 (getVersion 1);
                          HandlerAcks event7 (ackDecorator_fn 0) (JStr "9.0");
                          TickEnds routing0] initial).2
  = [BrowserWindowSend 7
       (mkBatchMessage "process-api-batch"
          [JsonAck (mkMainAck 1 "get-version"
                      [mkBreadcrumb "get-version" 1 "core/ackDecorator";
                       mkBreadcrumb "get-version" 1 "core/ACK"]
                      (BodyVal (JStr "9.0")))])].
Proof.
  destruct (request_acknowledged_at_tick strategy0 event7 (getVersion 1) (EndpointRef 0)
              routing0 (mkRoutingInfo window7 (Some 1%Z) 1%Z) 1%Z (JStr "9.0"))
    as [_ Hsends].
  - split; [reflexivity|]. intros H. discriminate H.
  - reflexivity.
  - reflexivity.
  - reflexivity.
  - reflexivity.
  - reflexivity.
  - reflexivity.
  - reflexivity.
  - rewrite Hsends. reflexivity.
Defined.

(** Extra X18. A synchronous request for a registered action that passes
    the frame check is handed to its handler with the closure of
    [ackDecoratorSync], inside a transaction or not; receiving it changes
    nothing in the strategy, and calling the closure changes nothing and
    queues nothing: the acknowledgement (the messageId as correlationId and
    the payload) is set as the return value of the event, unless the sender
    is destroyed. *)
Theorem sync_request_answered_inline this e ackDelegate data endpoint s :
  data.(isSync) = true →
  data.(action) ≠ "api-transaction" →
  e.(appObjFound) = true →
  this.(actionMap) !! data.(action) = Some endpoint →
  frameCheck this e data = true →
  (∃ identity data',
     onMessage this e ackDelegate data s =
       Ok tt s [DebugLog (LogReceived e identity data');
                CallApiFunc endpoint identity data'
                  (ackDecoratorSync_fn data.(messageId))
                  (nackDecorator (ackDecoratorSync_fn data.(messageId)))])
  ∧ ∀ payload s',
      (step this (HandlerAcks e (ackDecoratorSync_fn data.(messageId)) payload) s').1 = s' ∧
      returned (step this (HandlerAcks e (ackDecoratorSync_fn data.(messageId)) payload) s').2
        = if e.(senderDestroyed) then []
          else [JsonSyncAck data.(messageId) payload].
Proof.
  intros Hsync Hplain Happ Hep Hcheck. apply String.eqb_neq in Hplain.
  destruct data as [act mid sync sfo bcs msgs pl]. simpl in *. subst sync.
  unfold frameCheck in Hcheck. simpl in Hcheck. split.
  - unfold requestHandler_handle, handler. prog.
    rewrite Hplain, Happ. simpl. rewrite String.eqb_refl. simpl.
    rewrite (lookup_registered _ _ _ Hep), Hcheck.
    simpl. do 2 eexists. reflexivity.
  - intros payload s'. unfold callAck, ackDecoratorSync_call. prog.
    by destruct (senderDestroyed e).
Qed.

(** Extra X18 at a synchronous [get-version]. *)
Lemma sync_request_answered_inline_witness :
  returned (step strategy0 (HandlerAcks event7 (ackDecoratorSync_fn 1) (JStr "9.0"))
              initial).2
    = [JsonSyncAck 1 (JStr "9.0")].
Proof.
  apply (proj2 (sync_request_answered_inline strategy0 event7 None
                  (mkData "get-version" 1 true false None [] JNull) (EndpointRef 0) initial
                  eq_refl ltac:(discriminate) eq_refl eq_refl eq_refl) (JStr "9.0") initial).
Defined.

(** *** The frame check *)

Lemma callNack_trace e ack err s :
  ∃ tr,
    (outcome (callNack e (nackDecorator ack) err s)).2
      = CalledNack (nackDecorator ack) err :: tr
    ∧ Forall closure_effect tr.
Proof.
  assert (Forall closure_effect (outcome (callAck e ack (NackPayload err) s)).2) as Htr.
  { apply (sat_callAck (λ _, True) closure_effect); try done.
    intros. by apply sat_add_frame. }
  unfold callNack, bind, effect.
  destruct (callAck e ack (NackPayload err) s) as [[] s1 tr1|msg s1 tr1]; simpl in *;
    by eexists.
Qed.

(** Extra X19. A request for a registered action that fails the frame check
    (the frame strategy is not ['frames'], the request is not
    [singleFrameOnly], and the sender is not valid for its frame) is not
    handed to the handler: after the diagnostic of its receipt, [nack] is
    called once, with the superseded message, and what follows is only what
    the acknowledgement closure does. *)
Theorem superseded_frame_rejected this e ackDelegate data endpoint s :
  data.(action) ≠ "api-transaction" →
  e.(appObjFound) = true →
  this.(actionMap) !! data.(action) = Some endpoint →
  frameCheck this e data = false →
  ∃ identity data' nack tr,
    (outcome (onMessage this e ackDelegate data s)).2 =
      DebugLog (LogReceived e identity data')
      :: CalledNack nack (JStr "API access has been superseded by another frame in this window.")
      :: tr
    ∧ Forall closure_effect tr.
Proof.
  intros Hplain Happ Hep Hcheck. apply String.eqb_neq in Hplain.
  destruct data as [act mid sync sfo bcs msgs pl]. simpl in *.
  unfold frameCheck in Hcheck. simpl in Hcheck.
  unfold requestHandler_handle, handler, new_ackObj, new_mainAck. prog.
  rewrite Hplain, Happ. simpl. rewrite String.eqb_refl. simpl.
  rewrite (lookup_registered _ _ _ Hep), Hcheck.
  destruct sync; simpl; [|destruct ackDelegate; simpl];
    match goal with
    | |- context [callNack e (nackDecorator ?a) ?err ?s0] =>
        destruct (callNack_trace e a err s0) as (tr & Htr & Hall);
        destruct (callNack e (nackDecorator a) err s0) as [[] s1 tr1|msg s1 tr1];
        simpl in *; subst; do 4 eexists; (split; [reflexivity|exact Hall])
    end.
Qed.

(** Extra X19 at a [get-version] request from a frame that is not valid. *)
Lemma superseded_frame_rejected_witness :
  ∃ identity data' nack tr,
    (outcome (onMessage strategy0
                (mkIpcEvent 1 false window7 false None "window" (Some "app7") (Some "main")
                            true main7)
                None (getVersion 1) initial)).2 =
      DebugLog (LogReceived
                  (mkIpcEvent 1 false window7 false None "window" (Some "app7") (Some "main")
                              true main7) identity data')
      :: CalledNack nack (JStr "API access has been superseded by another frame in this window.")
      :: tr
    ∧ Forall closure_effect tr.
Proof.
  apply (superseded_frame_rejected strategy0
           (mkIpcEvent 1 false window7 false None "window" (Some "app7") (Some "main")
                       true main7)
           None (getVersion 1) (EndpointRef 0) initial).
  - intros H. discriminate H.
  - reflexivity.
  - reflexivity.
  - reflexivity.
Defined.

(** *** A sender that is gone *)

Lemma record_only_trace tr :
  Forall record_only tr → returned tr = [] ∧ SetImmediateFlush ∉ tr.
Proof.
  induction 1 as [|ef tr Hef _ [IH1 IH2]]; [split; [done|apply not_elem_of_nil]|].
  split.
  - unfold returned in *. by destruct ef.
  - intros Hin. apply elem_of_cons in Hin as [<-|Hin]; [done|by apply IH2].
Qed.

Lemma callAck_destroyed e ack payload pm n :
  e.(senderDestroyed) = true →
  sat (λ s, s.(pendingMessages) = pm ∧ s.(immediates) = n) record_only
      (callAck e ack payload).
Proof.
  intros Hgone.
  unfold callAck, ackDecorator_call, ackDecoratorSync_call, deferred_call.
  rewrite Hgone. simpl.
  sat_auto; try (by apply sat_effect); try (by apply sat_modify).
  unfold ackDecorator_call. rewrite Hgone. simpl.
  sat_auto; try (by apply sat_effect); try (by apply sat_modify).
Qed.

(** Extra X20. When the sender is destroyed, calling an acknowledgement
    closure, of whichever kind, queues nothing, schedules no flush and sets
    no return value: the acknowledgement is only logged. *)
Theorem destroyed_sender_gets_nothing e ack payload s :
  e.(senderDestroyed) = true →
  (outcome (callAck e ack payload s)).1.(pendingMessages) = s.(pendingMessages) ∧
  (outcome (callAck e ack payload s)).1.(immediates) = s.(immediates) ∧
  returned (outcome (callAck e ack payload s)).2 = [] ∧
  SetImmediateFlush ∉ (outcome (callAck e ack payload s)).2.
Proof.
  intros Hgone.
  destruct (callAck_destroyed e ack payload s.(pendingMessages) s.(immediates) Hgone s)
    as [[Hpm Himm] Htr]; [done|].
  destruct (record_only_trace _ Htr) as [Hret Hflush]. done.
Qed.

(** Extra X20 at the acknowledgement of a [get-version] request whose sender
    has gone meanwhile. *)
Lemma destroyed_sender_gets_nothing_witness :
  (outcome (callAck
     (mkIpcEvent 1 true window7 true None "window" (Some "app7") (Some "main") true main7)
     (ackDecorator_fn 0) (JStr "9.0")
     (step strategy0 (Inbound event7 (getVersion 1)) initial).1)).1.(pendingMessages) = [].
Proof.
  apply (destroyed_sender_gets_nothing
           (mkIpcEvent 1 true window7 true None "window" (Some "app7") (Some "main") true main7)
           (ackDecorator_fn 0) (JStr "9.0")
           (step strategy0 (Inbound event7 (getVersion 1)) initial).1).
  reflexivity.
Defined.

(** *** After the aggregate *)

Lemma over_call this g (total : nat) (c : Completion) (s : State) (grp : Deferred) :
  s.(groups) !! g = Some grp →
  grp.(totalAcksExpected) = total →
  (total ≤ length grp.(deferredAcks))%nat →
  ∃ grp',
    (step this (HandlerAcks c.(c_event) (deferred_fn g c.(c_index)) c.(c_payload)) s).1.(groups)
      !! g = Some grp'
    ∧ grp'.(totalAcksExpected) = total
    ∧ (total ≤ length grp'.(deferredAcks))%nat
    ∧ (step this (HandlerAcks c.(c_event) (deferred_fn g c.(c_index)) c.(c_payload)) s)
        .1.(pendingMessages) = s.(pendingMessages)
    ∧ outwardAcks
        (step this (HandlerAcks c.(c_event) (deferred_fn g c.(c_index)) c.(c_payload)) s).2
      = [].
Proof.
  intros Hgrp Htotal Hfull.
  set (ev := HandlerAcks c.(c_event) (deferred_fn g c.(c_index)) c.(c_payload)).
  destruct (ackObjs s !! c_index c) as [obj|] eqn:Hobj.
  - assert (step this ev s =
              (push_ack g (c_index c) (c_payload c) obj grp s,
               [CalledAck (deferred_fn g (c_index c)) (BodyVal (c_payload c))])) as ->.
    { simpl. unfold callAck, bind, effect.
      by rewrite (deferred_call_more _ g _ _ s obj grp Hobj Hgrp) by lia. }
    exists (mkDeferred (deferredAcks grp ++ [c_index c]) (totalAcksExpected grp) (mainAck grp)).
    split_and!; try done.
    + apply list_lookup_insert_eq. by eapply lookup_lt_Some.
    + simpl. rewrite length_app. simpl. lia.
  - assert (step this ev s =
              (s, [CalledAck (deferred_fn g (c_index c)) (BodyVal (c_payload c))])) as ->.
    { simpl. unfold callAck, deferred_call. prog. by rewrite Hobj. }
    by exists grp.
Qed.

(** Extra X21. Once the closures of a transaction have been called as many
    times as it has sub-messages, further calls of its closures, for
    whichever of its objects, make no acknowledgement go out and queue
    nothing: the aggregate is not sent again. *)
Theorem aggregate_not_repeated this g (grp : Deferred) (cs : list Completion) (s : State) :
  s.(groups) !! g = Some grp →
  (grp.(totalAcksExpected) ≤ length grp.(deferredAcks))%nat →
  outwardAcks (steps this (call g 0 <$> cs) s).2 = [] ∧
  (steps this (call g 0 <$> cs) s).1.(pendingMessages) = s.(pendingMessages).
Proof.
  intros Hgrp Hfull. remember (totalAcksExpected grp) as total eqn:Htotal.
  symmetry in Htotal. revert s grp Hgrp Htotal Hfull.
  induction cs as [|c cs IH]; intros s grp Hgrp Htotal Hfull; [done|].
  rewrite fmap_cons, steps_cons. cbn [fst snd].
  change (call g 0 c)
    with (HandlerAcks c.(c_event) (deferred_fn g c.(c_index)) c.(c_payload)).
  destruct (over_call this g total c s grp Hgrp Htotal Hfull)
    as (grp' & Hgrp' & Htotal' & Hfull' & Hpm & Hout).
  destruct (IH _ grp' Hgrp' Htotal' Hfull') as [IHout IHpm].
  rewrite outwardAcks_app, Hout, IHout, IHpm, Hpm. done.
Qed.

(** Extra X21 at a transaction of two requests, both completed, when the
    handler of the first calls its closure again. *)
Lemma aggregate_not_repeated_witness :
  outwardAcks
    (steps strategy0 (call 0 0 <$> [mkCompletion event7 0 (JStr "again")])
       (steps strategy0 (Inbound event7 twoRequests :: (completes initial <$> secondThenFirst))
              initial).1).2 = [].
Proof.
  apply (aggregate_not_repeated strategy0 0 (mkDeferred [1; 0] 2 1)
           [mkCompletion event7 0 (JStr "again")]
           (steps strategy0 (Inbound event7 twoRequests :: (completes initial <$> secondThenFirst))
                  initial).1).
  - vm_compute. reflexivity.
  - simpl. lia.
Defined.

(** *** A sender without an application *)

(** Extra X22. When no application object is found for the uuid of the
    sender's window, [onMessage] catches the error and logs it: no handler
    is invoked, neither [ack] nor [nack] is called, no transaction is set
    up, and nothing is queued or scheduled, whatever the message. *)
Theorem unknown_application_dropped this e ackDelegate data s :
  e.(appObjFound) = false →
  ∃ s',
    onMessage this e ackDelegate data s = Ok tt s' [DebugLog LogCaught]
    ∧ s'.(groups) = s.(groups)
    ∧ s'.(pendingMessages) = s.(pendingMessages)
    ∧ s'.(pendingFlush) = s.(pendingFlush)
    ∧ s'.(immediates) = s.(immediates).
Proof.
  intros Hnone. destruct data as [act mid sync sfo bcs msgs pl].
  unfold new_ackObj, new_mainAck. prog. rewrite Hnone. simpl.
  destruct sync; simpl; [|destruct ackDelegate; simpl]; eexists; split_and!; reflexivity.
Qed.

(** Extra X22 at a [get-version] request from a window without options. *)
Lemma unknown_application_dropped_witness :
  ∃ s',
    onMessage strategy0
      (mkIpcEvent 1 false window7 true None "window" None None false main7)
      None (getVersion 1) initial = Ok tt s' [DebugLog LogCaught]
    ∧ s'.(pendingMessages) = [].
Proof.
  destruct (unknown_application_dropped strategy0
              (mkIpcEvent 1 false window7 true None "window" None None false main7)
              None (getVersion 1) initial eq_refl) as (s' & Hrun & _ & Hpm & _).
  exists s'. split; [exact Hrun|exact Hpm].
Defined.

End ElipcPipeline.

(** ** Desktop event subscriptions *)
Module EventListenerFacts.
Import EventListener.

(** *** underscore on objects *)

Lemma map_get_omit k (obj : list (string * JsVal)) ks :
  map_get k (omit obj ks) = if decide (k ∈ ks) then None else map_get k obj.
Proof.
  unfold omit. induction obj as [|[k0 v0] obj IH].
  - rewrite filter_nil. by destruct (decide (k ∈ ks)).
  - rewrite filter_cons. simpl. destruct (decide (k0 ∉ ks)) as [Hout|Hin]; simpl.
    + destruct (decide (k0 = k)) as [->|Hne]; [by rewrite decide_False|exact IH].
    + rewrite IH. destruct (decide (k0 = k)) as [->|Hne]; [|done].
      apply dec_stable in Hin. by rewrite !decide_True by done.
Qed.

Lemma omit_NoDup (obj : list (string * JsVal)) ks : NoDup obj.*1 → NoDup (omit obj ks).*1.
Proof.
  intros Hnd. eapply sublist_NoDup; [exact Hnd|]. apply fmap_sublist, sublist_filter.
Qed.

Lemma map_get_extend k (source : list (string * JsVal)) : ∀ destination,
  NoDup source.*1 →
  map_get k (extend destination source) =
    match map_get k source with
    | Some v => Some v
    | None => map_get k destination
    end.
Proof.
  unfold extend. induction source as [|[k0 v0] source IH]; intros destination Hnd; [done|].
  apply NoDup_cons in Hnd as [Hfresh Hnd]. cbn [fst] in Hfresh. cbn [foldl].
  rewrite IH by done.
  cbn [fst snd map_get]. destruct (decide (k0 = k)) as [->|Hne].
  - apply map_get_None_keys in Hfresh. rewrite Hfresh. apply map_get_set_eq.
  - rewrite map_get_set_ne by done. done.
Qed.

Lemma map_get_merged k (payload fields : list (string * JsVal)) :
  NoDup fields.*1 →
  map_get k (extend payload (omit fields (keys payload))) =
    match map_get k payload with
    | Some v => Some v
    | None => map_get k fields
    end.
Proof.
  intros Hnd. rewrite map_get_extend by (by apply omit_NoDup). rewrite map_get_omit.
  unfold keys. destruct (decide (k ∈ payload.*1)) as [Hin|Hout].
  - destruct (map_get k payload) eqn:Hget; [done|].
    by apply map_get_None_keys in Hget.
  - apply map_get_None_keys in Hout. rewrite Hout. by destruct (map_get k fields).
Qed.

(** Extra X23. For an emitted payload that is an object, the listener sends
    the subscriber one [process-desktop-event] whose payload carries the
    topic and the type of the subscription, the uuid of the subscription
    (the emitted uuid when the subscription has none and the emitted one is
    truthy), the name of the subscription when it has one and the emitted
    name otherwise, and every other field of the emitted payload. *)
Theorem listener_fields identity topic type uuid name fields :
  NoDup fields.*1 →
  ∃ payload,
    listener identity topic type uuid name (JObj fields) tt =
      Ok tt tt [SendToIdentity identity
                  (JObj [("action", JStr "process-desktop-event");
                         ("payload", JObj payload)])]
    ∧ map_get "topic" payload = Some topic
    ∧ map_get "type" payload = Some type
    ∧ map_get "uuid" payload =
        Some (if truthy uuid then uuid
              else if truthy (default JUndefined (map_get "uuid" fields))
                   then default JUndefined (map_get "uuid" fields)
                   else uuid)
    ∧ map_get "name" payload = (if truthy name then Some name else map_get "name" fields)
    ∧ ∀ k, k ∉ ["topic"; "type"; "uuid"; "name"] → map_get k payload = map_get k fields.
Proof.
  intros Hnd. unfold listener, eventObj. prog.
  destruct (truthy name) eqn:Hname; destruct (truthy uuid) eqn:Huuid; simpl;
    try destruct (truthy (default JUndefined (map_get "uuid" fields))) eqn:Hemitted; simpl;
    eexists; (split; [reflexivity|]);
    (split_and!; [rewrite map_get_merged by done; reflexivity..|]);
    intros k Hk; rewrite map_get_merged by done;
    apply not_elem_of_cons in Hk as [Htopic Hk];
    apply not_elem_of_cons in Hk as [Htype Hk];
    apply not_elem_of_cons in Hk as [Huuid' Hk];
    apply not_elem_of_cons in Hk as [Hname' _];
    simpl; rewrite ?decide_False by congruence; done.
Qed.

(** Extra X23 at a [window] subscription without uuid and name. *)
Lemma listener_fields_witness :
  ∃ payload,
    listener (mkIdentity "app1" None) (JStr "window") (JStr "closed") JUndefined JUndefined
             (JObj [("uuid", JStr "app2"); ("name", JStr "win2"); ("type", JStr "other")]) tt =
      Ok tt tt [SendToIdentity (mkIdentity "app1" None)
                  (JObj [("action", JStr "process-desktop-event");
                         ("payload", JObj payload)])]
    ∧ map_get "type" payload = Some (JStr "closed")
    ∧ map_get "uuid" payload = Some (JStr "app2")
    ∧ map_get "name" payload = Some (JStr "win2").
Proof.
  destruct (listener_fields (mkIdentity "app1" None) (JStr "window") (JStr "closed")
              JUndefined JUndefined
              [("uuid", JStr "app2"); ("name", JStr "win2"); ("type", JStr "other")])
    as (payload & Hrun & _ & Htype & Huuid & Hname & _).
  - simpl. repeat (apply NoDup_cons; split;
      [intros H; repeat (apply elem_of_cons in H as [H|H]; [discriminate H|]);
       by apply elem_of_nil in H|]).
    apply NoDup_nil_2.
  - exists payload. split_and!; [exact Hrun|exact Htype|exact Huuid|exact Hname].
Defined.

(** Extra X24. When the subscription has no uuid and the event carries
    [undefined] or [null], the listener throws before anything is sent; with
    a uuid, an event that carries [null] is forwarded with the fields of the
    subscription alone. *)
Theorem listener_without_payload identity topic type uuid name emmitedPayload :
  emmitedPayload = JUndefined ∨ emmitedPayload = JNull →
  (truthy uuid = false →
   listener identity topic type uuid name emmitedPayload tt = Throw "TypeError" tt [])
  ∧ (truthy uuid = true →
     listener identity topic type uuid name emmitedPayload tt =
       Ok tt tt [SendToIdentity identity
                   (JObj [("action", JStr "process-desktop-event");
                          ("payload",
                           JObj ([("topic", topic); ("type", type); ("uuid", uuid)]
                                 ++ if truthy name then [("name", name)] else []))])]).
Proof.
  intros Hnone. unfold listener, eventObj. prog.
  split; intros Huuid; rewrite Huuid; simpl;
    destruct Hnone as [-> | ->]; simpl; by destruct (truthy name).
Qed.

(** Extra X24 at a [system] subscription and an event that carries [null]. *)
Lemma listener_without_payload_witness :
  listener (mkIdentity "app1" None) (JStr "system") (JStr "idle-state-changed")
           JUndefined JUndefined JNull tt = Throw "TypeError" tt [].
Proof.
  apply (proj1 (listener_without_payload (mkIdentity "app1" None) (JStr "system")
                  (JStr "idle-state-changed") JUndefined JUndefined JNull
                  (or_intror eq_refl)) eq_refl).
Defined.

(** *** The closure [subscribe] returns *)

Lemma steps_cons_closure ev evs s :
  steps (ev :: evs) s = ((steps evs (step ev s).1).1, (step ev s).2 ++ (steps evs (step ev s).1).2).
Proof. simpl. destruct (step ev s) as [s1 tr1]. simpl. by destruct (steps evs s1). Qed.

Lemma steps_app_closure evs1 evs2 s :
  steps (evs1 ++ evs2) s =
  ((steps evs2 (steps evs1 s).1).1, (steps evs1 s).2 ++ (steps evs2 (steps evs1 s).1).2).
Proof.
  revert s. induction evs1 as [|ev evs1 IH]; intros s.
  - simpl. by destruct (steps evs2 s).
  - change ((ev :: evs1) ++ evs2) with (ev :: (evs1 ++ evs2)).
    rewrite !steps_cons_closure, IH. simpl. by rewrite app_assoc.
Qed.

Lemma remoteCalls_app tr1 tr2 : remoteCalls (tr1 ++ tr2) = remoteCalls tr1 ++ remoteCalls tr2.
Proof. apply omap_app. Qed.

Lemma local_only evs : remoteCalls (steps evs initial).2 = [] ∧ (steps evs initial).1 = initial.
Proof.
  induction evs as [|ev evs [IHtr IHs]]; [done|].
  rewrite steps_cons_closure. destruct ev; simpl; by rewrite IHtr, IHs.
Qed.

(** Extra X25. When the subscriber is a runtime client, or when the target
    is local and the topic is not [system], [subscribe] makes no remote
    subscription, and whatever resolves and however often the closure it
    returns is called afterwards, no remote unsubscribe is made either. *)
Theorem local_subscription_stays_local topic env type uuid name evs :
  env.(isExternalClient) = true ∨ (env.(islocal) = true ∧ topic ≠ system) →
  remoteCalls ((outcome (subscribe topic env type uuid name initial)).2
               ++ (steps evs (outcome (subscribe topic env type uuid name initial)).1).2) = [].
Proof.
  intros Hlocal.
  assert (subscribe topic env type uuid name initial =
          Ok tt initial [AddEventListener topic type]) as ->.
  { unfold subscribe. prog.
    destruct Hlocal as [->|[-> Hne]]; destruct topic; simpl;
      rewrite ?andb_false_r; simpl; done. }
  simpl. apply local_only.
Qed.

(** Extra X25 at a [channel] subscription of a runtime client. *)
Lemma local_subscription_stays_local_witness :
  remoteCalls
    ((outcome (subscribe channel (mkEnv false true) (JStr "channel-connected")
                         JUndefined JUndefined initial)).2
     ++ (steps [Resolves (ResolvedFunction 0); Unsubscribes]
               (outcome (subscribe channel (mkEnv false true) (JStr "channel-connected")
                                   JUndefined JUndefined initial)).1).2) = [].
Proof.
  apply (local_subscription_stays_local channel (mkEnv false true) (JStr "channel-connected")
           JUndefined JUndefined [Resolves (ResolvedFunction 0); Unsubscribes]).
  left. reflexivity.
Defined.

Lemma before_resolution evs :
  Forall (λ ev, ev = Unsubscribes) evs →
  steps evs (mkState true None) = (mkState true None, (λ _, LocalUnsub) <$> evs).
Proof.
  induction 1 as [|ev evs -> _ IH]; [done|].
  rewrite steps_cons_closure. simpl. by rewrite IH.
Qed.

Lemma after_resolution unSubscribe evs :
  remoteCalls (steps evs (mkState false (Some (ResolvedFunction unSubscribe)))).2
    = (λ _, RemoteUnSub unSubscribe) <$> filter (λ ev, ev = Unsubscribes) evs
  ∧ (steps evs (mkState false (Some (ResolvedFunction unSubscribe)))).1
    = mkState false (Some (ResolvedFunction unSubscribe)).
Proof.
  induction evs as [|ev evs [IHtr IHs]]; [done|].
  rewrite steps_cons_closure. destruct ev; simpl; by rewrite IHtr, IHs.
Qed.

Lemma subscribe_state topic env type uuid name :
  (outcome (subscribe topic env type uuid name initial)).1.(waiting) = true →
  (outcome (subscribe topic env type uuid name initial)).1 = mkState true None.
Proof.
  unfold subscribe, remoteSubscribe. destruct env as [[] []]; destruct topic; prog; try done.
  destruct (isString type "channel-connected" || isString type "channel-disconnected");
    simpl; done.
Qed.

Lemma remoteCalls_local (evs : list Event) :
  remoteCalls ((λ _, LocalUnsub) <$> evs) = [].
Proof. induction evs as [|ev evs IH]; [done|]. exact IH. Qed.

(** Extra X26. When [subscribe] has made a remote subscription, the calls
    of the closure it returns that come before the subscription resolves
    make no remote unsubscribe, and none is made for them later; every call
    that comes after it resolved with a function calls that function
    again. *)
Theorem remote_unsubscribe_after_resolution topic env type uuid name before unSubscribe after :
  (outcome (subscribe topic env type uuid name initial)).1.(waiting) = true →
  Forall (λ ev, ev = Unsubscribes) before →
  remoteCalls (steps (before ++ Resolves (ResolvedFunction unSubscribe) :: after)
                     (outcome (subscribe topic env type uuid name initial)).1).2
    = (λ _, RemoteUnSub unSubscribe) <$> filter (λ ev, ev = Unsubscribes) after.
Proof.
  intros Hwaiting Hbefore. rewrite (subscribe_state _ _ _ _ _ Hwaiting).
  rewrite steps_app_closure, (before_resolution before Hbefore). cbn [fst snd].
  rewrite remoteCalls_app, remoteCalls_local, steps_cons_closure. simpl.
  apply after_resolution.
Qed.

(** Extra X26 at a [window] subscription cancelled before it resolves. *)
Lemma remote_unsubscribe_after_resolution_witness :
  remoteCalls
    (steps ([Unsubscribes] ++ Resolves (ResolvedFunction 0) :: [])
           (outcome (subscribe window (mkEnv false false) (JStr "closed")
                               (JStr "app2") (JStr "win2") initial)).1).2 = [].
Proof.
  apply (remote_unsubscribe_after_resolution window (mkEnv false false) (JStr "closed")
           (JStr "app2") (JStr "win2") [Unsubscribes] 0 []).
  - reflexivity.
  - repeat constructor.
Defined.

End EventListenerFacts.
